(** * jenkins-job-builder: the YAML loader and the component dispatcher

    A shallow embedding of [jenkins_jobs/local_yaml.py] (ordered mapping
    construction, anchor persistence, the [!include] family of tags, lazy
    loading) and of [jenkins_jobs/registry.py] ([ModuleRegistry.dispatch]),
    followed by the properties of the resolution pipeline.

    Python objects are modelled as values of inductive types, exceptions as
    the [Raise] outcome of a result type, mutable dictionaries that are
    shared between objects as entries of an explicit store, and the
    operating system and the host application as a record of functions. *)

From Stdlib Require Import String Ascii List NArith Lia Bool.
From stdpp Require Import gmap strings list fin_maps sorting.

Set Warnings "-register-all".

(* ================================================================== *)
(** * Outcomes of a call *)
(* ================================================================== *)

(** What [yaml.composer.ComposerError] reports. *)
Inductive composer_problem :=
| UndefinedAlias (anchor : string)
| DuplicateAnchor (anchor : string)
| ExpectedSingleDocument.

(** The Python exceptions that the modelled code raises or lets through. *)
Inductive exc :=
| KeyError (key : string)
| IndexError
| ValueError (msg : string)
| TypeError (msg : string)
| IOError (path : string)
| AttributeError (msg : string)
| StopIteration
| ScannerError (msg : string)
| ComposerError (p : composer_problem)
| ConstructorError (msg : string)
| JenkinsJobsException (msg : string)
| SubstitutionError (placeholder : string).

(** [Beyond] marks a call that leaves the fragment of Python modelled here
    (for instance a format field with a format specification); [OutOfFuel]
    marks a recursion cut short by the fuel of the model. Neither is a
    Python exception. *)
Inductive res (A : Type) :=
| Ok (a : A)
| Raise (e : exc)
| Beyond (why : string)
| OutOfFuel.
Arguments Ok {A} a.
Arguments Raise {A} e.
Arguments Beyond {A} why.
Arguments OutOfFuel {A}.

Definition res_bind {A B} (r : res A) (k : A → res B) : res B :=
  match r with
  | Ok a => k a
  | Raise e => Raise e
  | Beyond w => Beyond w
  | OutOfFuel => OutOfFuel
  end.

(** An outcome that carries no value, at another type. *)
Definition res_cast {A B} (r : res A) : res B := res_bind r (λ _, OutOfFuel).

(** Computations that read and write a store [S]; the store survives an
    exception, as the mutations of a Python object do. *)
Definition M (S A : Type) : Type := S → res A * S.

Definition ret {S A} (a : A) : M S A := λ s, (Ok a, s).
Definition raise {S A} (e : exc) : M S A := λ s, (Raise e, s).
Definition beyond {S A} (w : string) : M S A := λ s, (Beyond w, s).
Definition lift {S A} (r : res A) : M S A := λ s, (r, s).
Definition bind {S A B} (m : M S A) (k : A → M S B) : M S B :=
  λ s, match m s with
       | (Ok a, s') => k a s'
       | (Raise e, s') => (Raise e, s')
       | (Beyond w, s') => (Beyond w, s')
       | (OutOfFuel, s') => (OutOfFuel, s')
       end.

Notation "'let!' x ':=' m 'in' k" := (bind m (λ x, k))
  (at level 10, x name, m at level 100, k at level 200).

Fixpoint mapM {S A B} (f : A → M S B) (l : list A) : M S (list B) :=
  match l with
  | [] => ret []
  | x :: rest =>
      let! y := f x in
      let! ys := mapM f rest in
      ret (y :: ys)
  end.

(* ================================================================== *)
(** * Nodes and values *)
(* ================================================================== *)

(** The event tree of one YAML document as PyYAML's parser delivers it:
    tags are already resolved, an alias event names its anchor. *)
Inductive ev :=
| EAlias (anchor : string)
| EScalar (anchor : option string) (tag value : string)
| ESeq (anchor : option string) (tag : string) (items : list ev)
| EMap (anchor : option string) (tag : string) (items : list (ev * ev)).

(** [yaml.nodes]: the representation graph, aliases resolved. *)
Inductive node :=
| ScalarNode (tag value : string)
| SequenceNode (tag : string) (items : list node)
| MappingNode (tag : string) (items : list (node * node)).

Definition node_tag (n : node) : string :=
  match n with
  | ScalarNode t _ | SequenceNode t _ | MappingNode t _ => t
  end.

(** [node.id] *)
Definition node_id (n : node) : string :=
  match n with
  | ScalarNode _ _ => "scalar"
  | SequenceNode _ _ => "sequence"
  | MappingNode _ _ => "mapping"
  end.

(** The classes whose [from_yaml] a [LazyLoader] can hold. *)
Inductive include_class := YamlInclude | YamlIncludeRaw | YamlIncludeRawEscape.

(** [loader.escape_callback]: the bound method [LocalLoader._escape], or a
    callable of the host, named by its handle. *)
Inductive callback := EscapeDefault | EscapeHost (handle : nat).

(** The attributes of a [LocalLoader] instance that the tags use;
    [anchors] is a reference to a dictionary of the store. *)
Record loader := {
  anchors : nat;
  search_path : list string;
  escape_callback : callback
}.

(** [LazyLoader]: [self._cls, self._loader, self._node]; the node is the
    scalar node of the path, by its tag and value. *)
Record lazy_loader := {
  _cls : include_class;
  _loader : loader;
  _node_tag : string;
  _node_value : string
}.

(** Python values of a parsed document. [VAtom] stands for the scalars the
    standard constructors build from a tag other than str and null (int,
    bool, float); their Python value is not interpreted. A [VDict] is an
    [OrderedDict] with string keys, in iteration order; a [VLazyColl] is a
    [LazyLoaderCollection] with its [_data]. *)
Inductive value :=
| VNone
| VStr (s : string)
| VAtom (tag text : string)
| VList (l : list value)
| VDict (d : list (string * value))
| VLazy (lz : lazy_loader)
| VLazyColl (data : list value).

(* ================================================================== *)
(** * [str.format] *)
(* ================================================================== *)

Module PyFormat.

(** CPython's [MarkupIterator_next] and [parse_field]
    (Objects/stringlib/unicode_format.h, Python 3.4 and later), as one pass
    over the characters. Characters are code points below 256. Positional arguments are always
    absent: the code under study calls [format] with keyword arguments only. *)

Inductive mode :=
| InText
| InName (name : string)
| InBracket (name : string)
| InConversion (name : string)
| AfterConversion (name : string) (conv : ascii)
| InSpec (name : string) (conv : option ascii) (spec : string) (count : nat).

Definition snoc (s : string) (c : ascii) : string := s +:+ String c "".

Definition is_digit (c : ascii) : bool :=
  (48 <=? nat_of_ascii c)%nat && (nat_of_ascii c <=? 57)%nat.

Definition digit_value (c : ascii) : N := N.of_nat (nat_of_ascii c - 48).

(** 64-bit build. *)
Definition PY_SSIZE_T_MAX : N := 9223372036854775807.

(** [get_integer]: [Some (Some n)] for a decimal index, [Some None] for the
    C function's -1 without an error, [None] for its [ValueError]. *)
Fixpoint get_integer_from (s : string) (accumulator : N) : option (option N) :=
  match s with
  | EmptyString => Some (Some accumulator)
  | String c rest =>
      if is_digit c then
        if (((PY_SSIZE_T_MAX - digit_value c) / 10) <? accumulator)%N then None
        else get_integer_from rest (accumulator * 10 + digit_value c)%N
      else Some None
  end.

Definition get_integer (s : string) : option (option N) :=
  match s with
  | EmptyString => Some None
  | _ => get_integer_from s 0%N
  end.

(** [field_name_split]: the part before the first '.' or '[', and the rest. *)
Fixpoint field_name_split (s : string) : string * string :=
  match s with
  | EmptyString => (EmptyString, EmptyString)
  | String c rest =>
      if (Ascii.eqb c "." || Ascii.eqb c "[")%char then (EmptyString, s)
      else let '(first, others) := field_name_split rest in (String c first, others)
  end.

Fixpoint lookup_kw (kwargs : list (string * value)) (key : string) : option value :=
  match kwargs with
  | [] => None
  | (k, v) :: rest => if String.eqb k key then Some v else lookup_kw rest key
  end.

(** [output_markup]: look the field up and render it. Only a plain
    [{name}] bound to a string is rendered by the model. [missing] is what
    the lookup of an absent keyword yields under a formatter that
    tolerates absent keywords; [str.format] has none. *)
Definition render_field (missing : option value) (kwargs : list (string * value))
    (name : string) (conv : option ascii) (spec : string) : res string :=
  let '(first, others) := field_name_split name in
  match get_integer first with
  | None => Raise (ValueError "Too many decimal digits in format string")
  | Some (Some _) => Raise IndexError
  | Some None =>
      match first with
      | EmptyString => Raise IndexError
      | _ =>
          match from_option Some missing (lookup_kw kwargs first) with
          | None => Raise (KeyError first)
          | Some v =>
              match others, conv, spec, v with
              | EmptyString, None, EmptyString, VStr s => Ok s
              | _, _, _, _ => Beyond "format field with accessor, conversion, specification or non-string value"
              end
          end
      end
  end.

Fixpoint scan (missing : option value) (kwargs : list (string * value))
    (s : string) (m : mode) (out : string) {struct s} : res string :=
  match m with
  | InText =>
      match s with
      | EmptyString => Ok out
      | String c rest =>
          if Ascii.eqb c "{" then
            match rest with
            | EmptyString => Raise (ValueError "Single '{' encountered in format string")
            | String c' rest' =>
                if Ascii.eqb c' "{" then scan missing kwargs rest' InText (snoc out "{")
                else scan missing kwargs rest (InName "") out
            end
          else if Ascii.eqb c "}" then
            match rest with
            | EmptyString => Raise (ValueError "Single '}' encountered in format string")
            | String c' rest' =>
                if Ascii.eqb c' "}" then scan missing kwargs rest' InText (snoc out "}")
                else Raise (ValueError "Single '}' encountered in format string")
            end
          else scan missing kwargs rest InText (snoc out c)
      end
  | InName name =>
      match s with
      | EmptyString => Raise (ValueError "expected '}' before end of string")
      | String c rest =>
          if Ascii.eqb c "{" then Raise (ValueError "unexpected '{' in field name")
          else if Ascii.eqb c "[" then scan missing kwargs rest (InBracket (snoc name c)) out
          else if Ascii.eqb c "}" then
            res_bind (render_field missing kwargs name None "")
              (λ text, scan missing kwargs rest InText (out +:+ text))
          else if Ascii.eqb c ":" then scan missing kwargs rest (InSpec name None "" 1) out
          else if Ascii.eqb c "!" then scan missing kwargs rest (InConversion name) out
          else scan missing kwargs rest (InName (snoc name c)) out
      end
  | InBracket name =>
      match s with
      | EmptyString => Raise (ValueError "expected '}' before end of string")
      | String c rest =>
          if Ascii.eqb c "]" then scan missing kwargs rest (InName (snoc name c)) out
          else scan missing kwargs rest (InBracket (snoc name c)) out
      end
  | InConversion name =>
      match s with
      | EmptyString =>
          Raise (ValueError "end of string while looking for conversion specifier")
      | String c rest => scan missing kwargs rest (AfterConversion name c) out
      end
  | AfterConversion name conv =>
      match s with
      | EmptyString => Raise (ValueError "unmatched '{' in format spec")
      | String c rest =>
          if Ascii.eqb c "}" then
            res_bind (render_field missing kwargs name (Some conv) "")
              (λ text, scan missing kwargs rest InText (out +:+ text))
          else if Ascii.eqb c ":" then scan missing kwargs rest (InSpec name (Some conv) "" 1) out
          else Raise (ValueError "expected ':' after conversion specifier")
      end
  | InSpec name conv spec count =>
      match s with
      | EmptyString => Raise (ValueError "unmatched '{' in format spec")
      | String c rest =>
          if Ascii.eqb c "{" then scan missing kwargs rest (InSpec name conv (snoc spec c) (S count)) out
          else if Ascii.eqb c "}" then
            match count with
            | 1 =>
                res_bind (render_field missing kwargs name conv spec)
                  (λ text, scan missing kwargs rest InText (out +:+ text))
            | _ => scan missing kwargs rest (InSpec name conv (snoc spec c) (pred count)) out
            end
          else scan missing kwargs rest (InSpec name conv (snoc spec c) count) out
      end
  end.

(** [s.format] with the keyword arguments [kwargs]. *)
Definition format (s : string) (kwargs : list (string * value)) : res string :=
  scan None kwargs s InText "".

End PyFormat.

(* ================================================================== *)
(** * The host *)
(* ================================================================== *)

(** What the loader asks of the operating system, of PyYAML's scanner and
    parser, and of the application that calls it. *)
Record host := {
  (** [os.path.isfile] *)
  isfile : string → bool;
  (** [io.open(path, 'r', encoding='utf-8')] followed by [read()];
      [None] when either fails *)
  read_text : string → option string;
  (** [os.path.expanduser], [os.path.normpath], [os.path.dirname] *)
  expanduser : string → string;
  normpath : string → string;
  dirname : string → string;
  (** the event trees of the documents found in a stream *)
  yaml_parse : string → res (list ev);
  (** the callables passed as [escape_callback], by handle *)
  host_escape : nat → value → res value
}.

(** [os.path.join] of [posixpath], for two components. *)
Definition starts_with_sep (s : string) : bool :=
  match s with
  | String c _ => Ascii.eqb c "/"
  | EmptyString => false
  end.

Fixpoint ends_with_sep (s : string) : bool :=
  match s with
  | EmptyString => false
  | String c EmptyString => Ascii.eqb c "/"
  | String _ rest => ends_with_sep rest
  end.

Definition path_join (a b : string) : string :=
  if starts_with_sep b then b
  else if String.eqb a "" || ends_with_sep a then a +:+ b
  else a +:+ "/" +:+ b.

(** [os.path.curdir] *)
Definition curdir : string := ".".

(* ================================================================== *)
(** * Ordered dictionaries *)
(* ================================================================== *)

Module OrderedDict.

(** [d[k] = v]: a present key keeps its place, a new key goes last. *)
Fixpoint setitem (d : list (string * value)) (k : string) (v : value)
    : list (string * value) :=
  match d with
  | [] => [(k, v)]
  | (k', v') :: rest =>
      if String.eqb k' k then (k', v) :: rest else (k', v') :: setitem rest k v
  end.

(** [d.update(other)] *)
Definition update (d other : list (string * value)) : list (string * value) :=
  fold_left (λ acc kv, setitem acc kv.1 kv.2) other d.

Fixpoint getitem (d : list (string * value)) (k : string) : option value :=
  match d with
  | [] => None
  | (k', v) :: rest => if String.eqb k' k then Some v else getitem rest k
  end.

Definition keys (d : list (string * value)) : list string := d.*1.

End OrderedDict.

(* ================================================================== *)
(** * The composer and the anchors *)
(* ================================================================== *)

(** An entry of [self.anchors]. PyYAML stores the node object of a
    collection before its children are composed and fills it afterwards;
    [Composing] stands for such a node while it is incomplete. *)
Inductive anchor_entry := Composed (n : node) | Composing.

(** The store: the dictionary objects that serve as anchor tables, and the
    class attribute [LocalAnchorLoader.anchors], a reference to one. *)
Record pystate := {
  dicts : list (gmap string anchor_entry);
  cls_anchors : nat
}.

(** At import time: [anchors = {}] in the class body. *)
Definition initial_state : pystate := {| dicts := [∅]; cls_anchors := 0 |}.

Definition register (anchor : option string) (e : anchor_entry)
    (t : gmap string anchor_entry) : gmap string anchor_entry :=
  match anchor with
  | Some a => <[a := e]> t
  | None => t
  end.

(** The duplicate check of [Composer.compose_node]. *)
Definition check_anchor (anchor : option string) : M (gmap string anchor_entry) unit :=
  λ t, match anchor with
       | Some a =>
           match t !! a with
           | Some _ => (Raise (ComposerError (DuplicateAnchor a)), t)
           | None => (Ok tt, t)
           end
       | None => (Ok tt, t)
       end.

(** [Composer.compose_node] with [compose_scalar_node],
    [compose_sequence_node] and [compose_mapping_node], on [self.anchors]. *)
Fixpoint compose_node (e : ev) : M (gmap string anchor_entry) node :=
  match e with
  | EAlias a =>
      λ t, match t !! a with
           | None => (Raise (ComposerError (UndefinedAlias a)), t)
           | Some (Composed n) => (Ok n, t)
           | Some Composing => (Beyond "alias to a node that is being composed", t)
           end
  | EScalar anchor tag v =>
      let! _ := check_anchor anchor in
      let n := ScalarNode tag v in
      λ t, (Ok n, register anchor (Composed n) t)
  | ESeq anchor tag items =>
      let! _ := check_anchor anchor in
      let! _ := (λ t, (Ok tt, register anchor Composing t)) in
      let! children := mapM compose_node items in
      let n := SequenceNode tag children in
      λ t, (Ok n, register anchor (Composed n) t)
  | EMap anchor tag items =>
      let! _ := check_anchor anchor in
      let! _ := (λ t, (Ok tt, register anchor Composing t)) in
      let! children :=
        mapM (λ '(k, v),
                let! item_key := compose_node k in
                let! item_value := compose_node v in
                ret (item_key, item_value)) items in
      let n := MappingNode tag children in
      λ t, (Ok n, register anchor (Composed n) t)
  end.

Module LocalAnchorLoader.

(** [cls.anchors = {}]: the class attribute is bound to a new dictionary;
    a loader created earlier keeps the dictionary it was given. *)
Definition reset_anchors : M pystate unit :=
  λ st, (Ok tt, {| dicts := dicts st ++ [∅]; cls_anchors := length (dicts st) |}).

(** [self.anchors] of a loader, read through its reference. *)
Definition anchors_of (ld : loader) (st : pystate) : gmap string anchor_entry :=
  default ∅ (dicts st !! anchors ld).

(** The override of [compose_document]: compose the root node and return
    it; unlike [Composer.compose_document] it does not end with
    [self.anchors = {}]. *)
Definition compose_document (ld : loader) (root : ev) : M pystate node :=
  λ st, let '(r, t) := compose_node root (anchors_of ld st) in
        (r, {| dicts := <[anchors ld := t]> (dicts st); cls_anchors := cls_anchors st |}).

(** [Composer.get_single_node], which calls [compose_document]. *)
Definition get_single_node (ld : loader) (docs : list ev) : M pystate (option node) :=
  match docs with
  | [] => ret None
  | document :: more =>
      let! n := compose_document ld document in
      match more with
      | [] => ret (Some n)
      | _ => raise (ComposerError ExpectedSingleDocument)
      end
  end.

End LocalAnchorLoader.

(* ================================================================== *)
(** * The constructor: tags, ordered mappings, inclusion *)
(* ================================================================== *)

Definition STR_TAG : string := "tag:yaml.org,2002:str".
Definition MAP_TAG : string := "tag:yaml.org,2002:map".
Definition SEQ_TAG : string := "tag:yaml.org,2002:seq".
Definition NULL_TAG : string := "tag:yaml.org,2002:null".
Definition MERGE_TAG : string := "tag:yaml.org,2002:merge".
Definition VALUE_TAG : string := "tag:yaml.org,2002:value".

(** The scalar tags whose standard constructors build an atom. *)
Definition atom_tags : list string :=
  ["tag:yaml.org,2002:bool"; "tag:yaml.org,2002:int"; "tag:yaml.org,2002:float";
   "tag:yaml.org,2002:timestamp"; "tag:yaml.org,2002:binary"].

Fixpoint mem_string (x : string) (l : list string) : bool :=
  match l with
  | [] => false
  | y :: rest => String.eqb y x || mem_string x rest
  end.

(** [yaml_tag] of each class. *)
Definition yaml_tag (cls : include_class) : string :=
  match cls with
  | YamlInclude => "!include:"
  | YamlIncludeRaw => "!include-raw:"
  | YamlIncludeRawEscape => "!include-raw-escape:"
  end.

(** The constructors that the [YAMLObject] metaclass registers on
    [LocalLoader]: the class a tag belongs to, and whether the tag is the
    deprecated spelling ([DeprecatedTag] with its [_new]). *)
Definition yaml_object_tag (tag : string) : option (include_class * bool) :=
  if String.eqb tag "!include:" then Some (YamlInclude, false)
  else if String.eqb tag "!include-raw:" then Some (YamlIncludeRaw, false)
  else if String.eqb tag "!include-raw-escape:" then Some (YamlIncludeRawEscape, false)
  else if String.eqb tag "!include" then Some (YamlInclude, true)
  else if String.eqb tag "!include-raw" then Some (YamlIncludeRaw, true)
  else if String.eqb tag "!include-raw-escape" then Some (YamlIncludeRawEscape, true)
  else None.

(** [SafeConstructor.construct_scalar] *)
Fixpoint construct_scalar (n : node) : res string :=
  match n with
  | ScalarNode _ v => Ok v
  | MappingNode _ items =>
      (fix find (l : list (node * node)) : res string :=
         match l with
         | [] => Raise (ConstructorError "expected a scalar node, but found mapping")
         | (key_node, value_node) :: rest =>
             if String.eqb (node_tag key_node) VALUE_TAG then construct_scalar value_node
             else find rest
         end) items
  | SequenceNode _ _ => Raise (ConstructorError "expected a scalar node, but found sequence")
  end.

Definition retag (t : string) (n : node) : node :=
  match n with
  | ScalarNode _ v => ScalarNode t v
  | SequenceNode _ l => SequenceNode t l
  | MappingNode _ l => MappingNode t l
  end.

(** The loop of [SafeConstructor.flatten_mapping] over [node.value]:
    the pairs merged in, and the pairs kept; [merged] expands the value of
    a merge key. *)
Fixpoint flatten_pairs (merged : node → res (list (node * node)))
    (l : list (node * node)) : res (list (node * node) * list (node * node)) :=
  match l with
  | [] => Ok ([], [])
  | (key_node, value_node) :: rest =>
      if String.eqb (node_tag key_node) MERGE_TAG then
        res_bind (merged value_node) (λ value,
        res_bind (flatten_pairs merged rest) (λ '(merge, kept), Ok (value ++ merge, kept)))
      else
        let key_node' :=
          if String.eqb (node_tag key_node) VALUE_TAG then retag STR_TAG key_node
          else key_node in
        res_bind (flatten_pairs merged rest)
          (λ '(merge, kept), Ok (merge, (key_node', value_node) :: kept))
  end.

(** [SafeConstructor.flatten_mapping]: the pairs of [node.value] once the
    merge keys are expanded; Python updates the node in place. *)
Fixpoint flatten_mapping (n : node) : res (list (node * node)) :=
  match n with
  | MappingNode _ items =>
      res_bind
        (flatten_pairs
           (λ value_node,
              match value_node with
              | MappingNode _ _ => flatten_mapping value_node
              | SequenceNode _ subnodes =>
                  (fix submerge (subs : list node) : res (list (node * node)) :=
                     match subs with
                     | [] => Ok []
                     | subnode :: more =>
                         match subnode with
                         | MappingNode _ _ =>
                             res_bind (flatten_mapping subnode) (λ v,
                             res_bind (submerge more) (λ vs, Ok (vs ++ v)))
                         | _ => Raise (ConstructorError "expected a mapping for merging")
                         end
                     end) subnodes
              | ScalarNode _ _ =>
                  Raise (ConstructorError
                           "expected a mapping or list of mappings for merging")
              end)
           items)
        (λ '(merge, kept), Ok (merge ++ kept))
  | _ => Ok []
  end.

(** [re.sub(r'({|})', r'\1\1', data)] on a string. *)
Fixpoint double_braces (s : string) : string :=
  match s with
  | EmptyString => EmptyString
  | String c rest =>
      if Ascii.eqb c "{" || Ascii.eqb c "}" then String c (String c (double_braces rest))
      else String c (double_braces rest)
  end.

(** [LocalLoader._escape] *)
Definition _escape (data : value) : res value :=
  match data with
  | VStr s => Ok (VStr (double_braces s))
  | _ => Raise (TypeError "expected string or bytes-like object")
  end.

(** A call of [loader.escape_callback]. *)
Definition call_escape (H : host) (cb : callback) (data : value) : res value :=
  match cb with
  | EscapeDefault => _escape data
  | EscapeHost handle => host_escape H handle data
  end.

(** [u'\n'.join(contents)] *)
Fixpoint join_newline (contents : list value) : res string :=
  match contents with
  | [] => Ok ""
  | VStr s :: rest =>
      match rest with
      | [] => Ok s
      | _ => res_bind (join_newline rest) (λ tail, Ok (s +:+ String "010" tail))
      end
  | _ => Raise (TypeError "sequence item: expected str instance")
  end.

(** [for b in l: f(b)] *)
Fixpoint for_each {S A} (f : A → M S unit) (l : list A) : M S unit :=
  match l with
  | [] => ret tt
  | b :: rest =>
      let! _ := f b in
      for_each f rest
  end.

(** What [_open_file] returns: the text of the file, or a [LazyLoader]. *)
Inductive contents := Text (s : string) | Lazy (lz : lazy_loader).

Definition value_of_contents (c : contents) : value :=
  match c with
  | Text s => VStr s
  | Lazy lz => VLazy lz
  end.

(** [isinstance(s, LazyLoader)] *)
Definition is_LazyLoader (v : value) : bool :=
  match v with
  | VLazy _ => true
  | _ => false
  end.

(** A stream given to [yaml.load]: a file object has a [name], a string has
    none. The keyword arguments that [LocalLoader.__init__] pops. *)
Record stream := { stream_name : option string; stream_text : string }.
Record load_kwargs := {
  kw_search_path : option (list string);
  kw_escape_callback : option callback
}.

Definition text_stream (text : string) : stream :=
  {| stream_name := None; stream_text := text |}.

Module LocalLoader.

(** [LocalLoader.__init__]: the search path is built from the
    [search_path] keyword, then the directory of the stream when the stream
    has a name, then the current directory; [LocalAnchorLoader.__init__]
    binds [self.anchors] to the dictionary of the class. *)
Definition __init__ (H : host) (s : stream) (kw : load_kwargs) : M pystate loader :=
  λ st,
    let from_kwargs :=
      match kw_search_path kw with
      | Some ps => normpath H <$> ps
      | None => []
      end in
    let from_stream :=
      match stream_name s with
      | Some name => [normpath H (dirname H name)]
      | None => []
      end in
    (Ok {| anchors := cls_anchors st;
           search_path := from_kwargs ++ from_stream ++ [normpath H curdir];
           escape_callback := default EscapeDefault (kw_escape_callback kw) |},
     st).

End LocalLoader.

Section Constructor.

Context (H : host).

(** [self.construct_object], PyYAML's dispatch on the tag of a node; the
    methods below call it on the children of a node, and it calls them. *)
Variable construct_object : loader → node → M pystate value.

(** [yaml.load(stream, functools.partial(LocalLoader, ...))]: create the
    loader, compose the single document of the stream, construct it. *)
Definition yaml_load (s : stream) (kw : load_kwargs) : M pystate value :=
  let! ld := LocalLoader.__init__ H s kw in
  let! docs := lift (yaml_parse H (stream_text s)) in
  let! root := LocalAnchorLoader.get_single_node ld docs in
  match root with
  | None => ret VNone
  | Some n => construct_object ld n
  end.

Definition construct_yaml_str (n : node) : res string := construct_scalar n.

(** [YamlInclude._find_file] *)
Fixpoint _find_file (filename : string) (search_path : list string) : string :=
  match search_path with
  | [] => filename
  | dirname :: rest =>
      let candidate := expanduser H (path_join dirname filename) in
      if isfile H candidate then candidate else _find_file filename rest
  end.

(** [YamlInclude._lazy_load] *)
Definition _lazy_load (cls : include_class) (ld : loader) (tag : string)
    (node_str : node) : M pystate contents :=
  match node_str with
  | ScalarNode t v =>
      ret (Lazy {| _cls := cls; _loader := ld; _node_tag := t; _node_value := v |})
  | _ => beyond "lazy loading from a node that is not a scalar"
  end.

(** [YamlInclude._open_file] *)
Definition _open_file (cls : include_class) (ld : loader) (n : node) : M pystate contents :=
  let! node_str := lift (construct_yaml_str n) in
  match PyFormat.format node_str [] with
  | Raise (KeyError _) => _lazy_load cls ld (yaml_tag cls) n
  | Ok _ =>
      let filename := _find_file node_str (search_path ld) in
      match read_text H filename with
      | Some text => ret (Text text)
      | None => raise (IOError filename)
      end
  | other => lift (res_cast other)
  end.

(** [_from_file]: [YamlInclude] parses the text as a nested document with
    the search path of the loader; [YamlIncludeRaw], and
    [YamlIncludeRawEscape] after it, return what [_open_file] returns. *)
Definition _from_file (cls : include_class) (ld : loader) (n : node) : M pystate value :=
  match cls with
  | YamlInclude =>
      let! contents := _open_file cls ld n in
      match contents with
      | Lazy lz => ret (VLazy lz)
      | Text text =>
          yaml_load (text_stream text)
            {| kw_search_path := Some (search_path ld); kw_escape_callback := None |}
      end
  | YamlIncludeRaw | YamlIncludeRawEscape =>
      let! contents := _open_file cls ld n in
      ret (value_of_contents contents)
  end.

(** [YamlInclude.from_yaml], with the class it is called on. *)
Definition YamlInclude_from_yaml (cls : include_class) (ld : loader) (n : node)
    : M pystate value :=
  match n with
  | ScalarNode _ _ => _from_file cls ld n
  | SequenceNode _ items =>
      let! contents := mapM (_from_file cls ld) items in
      if existsb is_LazyLoader contents then ret (VLazyColl contents)
      else let! joined := lift (join_newline contents) in ret (VStr joined)
  | MappingNode _ _ =>
      raise (ConstructorError "expected either a sequence or scalar node, but found mapping")
  end.

(** [cls.from_yaml]: [YamlIncludeRawEscape] overrides it, calling
    [YamlIncludeRaw.from_yaml] and then the escape callback. *)
Definition from_yaml (cls : include_class) (ld : loader) (n : node) : M pystate value :=
  match cls with
  | YamlIncludeRawEscape =>
      let! data := YamlInclude_from_yaml YamlIncludeRaw ld n in
      if is_LazyLoader data then ret data
      else lift (call_escape H (escape_callback ld) data)
  | _ => YamlInclude_from_yaml cls ld n
  end.

(** [DeprecatedTag.from_yaml]: warn, then [cls._new.from_yaml]. *)
Definition DeprecatedTag_from_yaml (_new : include_class) (ld : loader) (n : node)
    : M pystate value :=
  from_yaml _new ld n.

(** The key of a constructed pair: [hash(key)] fails on a list or a
    dictionary; keys that are not strings are outside the model. *)
Definition hashable_key (key : value) : res string :=
  match key with
  | VStr s => Ok s
  | VList _ | VDict _ => Raise (ConstructorError "found unacceptable key")
  | _ => Beyond "mapping key that is not a string"
  end.

(** [OrderedConstructor.construct_yaml_map]. The generator first yields the
    empty [OrderedDict]; [construct_mapping] then flattens the merge keys
    and constructs every key and value, and the final loop, which finds
    these objects again in the cache of the constructor, inserts them in
    the order of [node.value]. *)
Definition construct_yaml_map (ld : loader) (n : node) : M pystate value :=
  let data := [] in
  match n with
  | MappingNode _ _ =>
      let! pairs := lift (flatten_mapping n) in
      let! mapping :=
        fold_left
          (λ (acc : M pystate (list (string * value))) '(key_node, value_node),
             let! mapping := acc in
             let! key := construct_object ld key_node in
             let! key := lift (hashable_key key) in
             let! value := construct_object ld value_node in
             ret (OrderedDict.setitem mapping key value))
          pairs (ret []) in
      ret (VDict (OrderedDict.update data mapping))
  | _ => raise (ConstructorError ("expected a mapping node, but found " +:+ node_id n))
  end.

(** [SafeConstructor.construct_yaml_seq] *)
Definition construct_yaml_seq (ld : loader) (n : node) : M pystate value :=
  match n with
  | SequenceNode _ items =>
      let! data := mapM (construct_object ld) items in
      ret (VList data)
  | _ => raise (ConstructorError ("expected a sequence node, but found " +:+ node_id n))
  end.

(** The entry of [yaml_constructors] for the tag of the node. *)
Definition construct_node (ld : loader) (n : node) : M pystate value :=
  let tag := node_tag n in
  match yaml_object_tag tag with
  | Some (cls, deprecated) =>
      if deprecated then DeprecatedTag_from_yaml cls ld n else from_yaml cls ld n
  | None =>
      if String.eqb tag MAP_TAG then construct_yaml_map ld n
      else if String.eqb tag SEQ_TAG then construct_yaml_seq ld n
      else if String.eqb tag STR_TAG then
        let! s := lift (construct_yaml_str n) in ret (VStr s)
      else if String.eqb tag NULL_TAG then
        let! _ := lift (construct_scalar n) in ret VNone
      else if mem_string tag atom_tags then
        let! text := lift (construct_scalar n) in ret (VAtom tag text)
      else beyond "tag without a modelled constructor"
  end.

End Constructor.

(** PyYAML's [construct_object], children first. The fuel bounds the depth
    of the document together with the nesting of included documents. PyYAML
    postpones the children of a collection through generators and keeps one
    object per node; both matter only for the order in which sibling
    inclusions are loaded and for aliased inclusion nodes. *)
Fixpoint construct_object (H : host) (fuel : nat) (ld : loader) (n : node)
    : M pystate value :=
  match fuel with
  | 0 => λ st, (OutOfFuel, st)
  | S fuel' => construct_node H (construct_object H fuel') ld n
  end.

(** [load(stream, **kwargs)] *)
Definition load (H : host) (fuel : nat) (s : stream) (kw : load_kwargs) : M pystate value :=
  let! _ := LocalAnchorLoader.reset_anchors in
  yaml_load H (construct_object H fuel) s kw.

Module LazyLoader.

(** [LazyLoader.format]: the value of the stored node is overwritten with
    the formatted path, then [self._cls.from_yaml] runs on that node. The
    object after the call is returned beside the result. *)
Definition format (H : host) (fuel : nat) (self : lazy_loader)
    (kwargs : list (string * value)) : pystate → res value * lazy_loader * pystate :=
  λ st,
    match PyFormat.format (_node_value self) kwargs with
    | Ok path =>
        let self' := {| _cls := _cls self; _loader := _loader self;
                        _node_tag := _node_tag self; _node_value := path |} in
        let '(r, st') :=
          from_yaml H (construct_object H fuel) (_cls self) (_loader self)
            (ScalarNode (_node_tag self') (_node_value self')) st in
        (r, self', st')
    | other => (res_cast other, self, st)
    end.

End LazyLoader.

Module LazyLoaderCollection.

(** [item.format] for an item of [self._data]: a [LazyLoader] or the
    text of a file that was read at parse time. *)
Definition format_item (H : host) (fuel : nat) (item : value)
    (kwargs : list (string * value)) : pystate → res value * value * pystate :=
  λ st,
    match item with
    | VLazy lz =>
        let '(r, lz', st') := LazyLoader.format H fuel lz kwargs st in (r, VLazy lz', st')
    | VStr s => (res_bind (PyFormat.format s kwargs) (λ t, Ok (VStr t)), item, st)
    | _ => (Raise (AttributeError "object has no attribute 'format'"), item, st)
    end.

Fixpoint format_items (H : host) (fuel : nat) (data : list value)
    (kwargs : list (string * value)) : pystate → res (list value) * list value * pystate :=
  λ st,
    match data with
    | [] => (Ok [], [], st)
    | item :: rest =>
        match format_item H fuel item kwargs st with
        | (Ok v, item', st') =>
            let '(r, rest', st'') := format_items H fuel rest kwargs st' in
            (res_bind r (λ vs, Ok (v :: vs)), item' :: rest', st'')
        | (other, item', st') => (res_cast other, item' :: rest, st')
        end
    end.

(** [LazyLoaderCollection.format] *)
Definition format (H : host) (fuel : nat) (_data : list value)
    (kwargs : list (string * value)) : pystate → res value * list value * pystate :=
  λ st,
    let '(r, _data', st') := format_items H fuel _data kwargs st in
    (res_bind r (λ vs, res_bind (join_newline vs) (λ s, Ok (VStr s))), _data', st').

End LazyLoaderCollection.

(* ================================================================== *)
(** * Dumping *)
(* ================================================================== *)

(** The order of [sorted] on the items of a dictionary: its keys are
    distinct, so the comparison of two items is that of their keys. *)
Definition by_key {A} : relation (string * A) := λ a b, String.le a.1 b.1.

#[global] Instance by_key_dec {A} : RelDecision (@by_key A).
Proof. intros a b. unfold by_key. apply _. Defined.

Fixpoint sequence_pairs (l : list (string * res node)) : res (list (node * node)) :=
  match l with
  | [] => Ok []
  | (k, r) :: rest =>
      res_bind r (λ node_value,
      res_bind (sequence_pairs rest) (λ ps, Ok ((ScalarNode STR_TAG k, node_value) :: ps)))
  end.

(** [represent_data] of [LocalDumper]. [OrderedRepresenter.represent_yaml_mapping]
    hands the [OrderedDict] to [BaseRepresenter.represent_mapping], which
    takes [mapping.items()] and sorts them; [sort_keys] is the keyword that
    PyYAML 5.1 added to [yaml.dump], true by default, and earlier versions
    always sort. *)
Fixpoint represent_data (sort_keys : bool) (data : value) : res node :=
  match data with
  | VNone => Ok (ScalarNode NULL_TAG "null")
  | VStr s => Ok (ScalarNode STR_TAG s)
  | VList l =>
      res_bind
        ((fix items (l : list value) : res (list node) :=
            match l with
            | [] => Ok []
            | x :: rest =>
                res_bind (represent_data sort_keys x) (λ n,
                res_bind (items rest) (λ ns, Ok (n :: ns)))
            end) l)
        (λ ns, Ok (SequenceNode SEQ_TAG ns))
  | VDict d =>
      let mapping := map (λ '(k, x), (k, represent_data sort_keys x)) d in
      let mapping := if sort_keys then merge_sort by_key mapping else mapping in
      res_bind (sequence_pairs mapping) (λ ps, Ok (MappingNode MAP_TAG ps))
  | VAtom _ _ | VLazy _ | VLazyColl _ => Beyond "representer of a value that is not modelled"
  end.

(** [dump(data, **kwargs)], up to the node that PyYAML serialises. *)
Definition dump (data : value) (sort_keys : bool) : res node :=
  represent_data sort_keys data.

(** The events that the parser delivers for the text of a serialised node
    in which no object occurs twice. *)
Fixpoint events_of (n : node) : ev :=
  match n with
  | ScalarNode t v => EScalar None t v
  | SequenceNode t l => ESeq None t (map events_of l)
  | MappingNode t l => EMap None t (map (λ kv, (events_of kv.1, events_of kv.2)) l)
  end.

(* ================================================================== *)
(** * The module registry *)
(* ================================================================== *)

(** The XML element that the generators extend. *)
Inductive xml := Element (tag text : string) (children : list xml).

(** A component function, called as [func(registry, xml_parent, data)]:
    it returns the element it was given, extended, or raises. *)
Definition generator : Type := xml → value → res xml.

(** An entry of [modules_by_component_type]: the [component_list_type] of
    the module it loads, and the entry points found for that module, those
    inferred from the docstrings first, then those declared explicitly. *)
Record entry_point := {
  component_list_type : string;
  module_eps : list (string * generator)
}.

(** The attributes of a [ModuleRegistry] that [dispatch] reads. *)
Record registry := {
  modules_by_component_type : gmap string entry_point;
  parser_data : gmap string (gmap string value);
  allow_empty_variables : bool
}.

(** What [dispatch] writes: the element under construction,
    [self.masked_warned], and the class attribute [entry_points_cache]. *)
Record dstate := {
  xml_parent : xml;
  masked_warned : gset string;
  entry_points_cache : gmap string (gmap string generator)
}.

(** Modelled from the spec: [jenkins_jobs.formatter.deep_format] is imported
    by the registry and is not among the sources. Every string inside the
    argument mapping is interpolated against the template arguments,
    non-string values pass through unchanged, and a missing placeholder is
    a substitution error unless empty substitutions are tolerated. *)
Fixpoint deep_format (obj : value) (paramdict : list (string * value))
    (allow_empty : bool) : res value :=
  match obj with
  | VStr s =>
      match PyFormat.scan (if allow_empty then Some (VStr "") else None)
              paramdict s PyFormat.InText "" with
      | Ok t => Ok (VStr t)
      | Raise (KeyError k) => Raise (SubstitutionError k)
      | other => res_cast other
      end
  | VList l =>
      res_bind
        ((fix items (l : list value) : res (list value) :=
            match l with
            | [] => Ok []
            | x :: rest =>
                res_bind (deep_format x paramdict allow_empty) (λ y,
                res_bind (items rest) (λ ys, Ok (y :: ys)))
            end) l)
        (λ ys, Ok (VList ys))
  | VDict d =>
      res_bind
        ((fix items (d : list (string * value)) : res (list (string * value)) :=
            match d with
            | [] => Ok []
            | (k, x) :: rest =>
                res_bind (deep_format x paramdict allow_empty) (λ y,
                res_bind (items rest) (λ ys, Ok ((k, y) :: ys)))
            end) d)
        (λ ys, Ok (VDict ys))
  | _ => Ok obj
  end.

(** The truth value of an object, where the model interprets it. *)
Definition truthy (v : value) : option bool :=
  match v with
  | VNone => Some false
  | VStr s => Some (negb (String.eqb s ""))
  | VList l => Some (negb (bool_decide (l = [])))
  | VDict d => Some (negb (bool_decide (d = [])))
  | VLazy _ | VLazyColl _ => Some true
  | VAtom _ _ => None
  end.

Module ModuleRegistry.

Definition unknown_component_type (component_type : string) : string :=
  "Unknown component type: '" +:+ component_type +:+ "'.".

Definition duplicate_entry_point (component_type name : string) : string :=
  "Duplicate entry point found for component type: '" +:+ component_type +:+
  "', '" +:+ component_type +:+ "',name: '" +:+ name +:+ "'".

Definition unknown_entry_point (name component_type : string) : string :=
  "Unknown entry point or macro '" +:+ name +:+ "' for component type: '" +:+
  component_type +:+ "'.".

(** The first statement of [dispatch] after the lookup of the module: a
    dictionary gives its first item as [(name, component_data)], formatted
    with the template data when there is any; anything else is the name,
    with no data. Names that are not strings are outside the model. *)
Definition name_and_data (self : registry) (component template_data : value)
    : res (string * value) :=
  match component with
  | VDict [] => Raise StopIteration
  | VDict ((name, component_data) :: _) =>
      match truthy template_data with
      | None => Beyond "truth value of the template data"
      | Some false => Ok (name, component_data)
      | Some true =>
          match template_data with
          | VDict paramdict =>
              res_bind (deep_format component_data paramdict (allow_empty_variables self))
                (λ component_data, Ok (name, component_data))
          | _ => Beyond "template data that is not a mapping"
          end
      end
  | VStr name => Ok (name, VDict [])
  | _ => Beyond "component that is neither a mapping nor a string"
  end.

(** The loop over [module_eps] that fills [eps]. *)
Fixpoint collect_eps (component_type name : string)
    (module_eps : list (string * generator)) (eps : gmap string generator)
    : res (gmap string generator) :=
  match module_eps with
  | [] => Ok eps
  | (ep_name, func) :: rest =>
      match eps !! ep_name with
      | Some _ => Raise (JenkinsJobsException (duplicate_entry_point component_type name))
      | None => collect_eps component_type name rest (<[ep_name := func]> eps)
      end
  end.

(** [entry_points_cache.get(component_list_type)], built and cached when
    absent. *)
Definition entry_points (component_type name : string) (ep : entry_point)
    : M dstate (gmap string generator) :=
  λ st,
    match entry_points_cache st !! component_list_type ep with
    | Some eps => (Ok eps, st)
    | None =>
        match collect_eps component_type name (module_eps ep) ∅ with
        | Ok eps =>
            (Ok eps,
             {| xml_parent := xml_parent st; masked_warned := masked_warned st;
                entry_points_cache :=
                  <[component_list_type ep := eps]> (entry_points_cache st) |})
        | other => (other, st)
        end
    end.

Fixpoint characters (s : string) : list value :=
  match s with
  | EmptyString => []
  | String c rest => VStr (String c "") :: characters rest
  end.

(** The items of [for b in ...]. *)
Definition iterate (v : value) : res (list value) :=
  match v with
  | VList l => Ok l
  | VDict d => Ok (VStr <$> OrderedDict.keys d)
  | VStr s => Ok (characters s)
  | VNone => Raise (TypeError "'NoneType' object is not iterable")
  | _ => Beyond "iteration over a value that is not modelled"
  end.

(** [component[component_list_type]] on a macro definition, as a list. *)
Definition macro_body (component : value) (component_list_type : string)
    : res (list value) :=
  match component with
  | VDict d =>
      match OrderedDict.getitem d component_list_type with
      | Some body => iterate body
      | None => Raise (KeyError component_list_type)
      end
  | VStr _ | VList _ => Raise (TypeError "indices must be integers")
  | VLazy _ | VLazyColl _ => Raise (TypeError "object is not subscriptable")
  | _ => Beyond "macro definition that is not modelled"
  end.

(** The warning about a macro that masks an inbuilt definition, recorded
    once per name. *)
Definition warn_masked (name : string) (eps : gmap string generator) : M dstate unit :=
  λ st,
    if bool_decide (is_Some (eps !! name)) && negb (bool_decide (name ∈ masked_warned st))
    then (Ok tt, {| xml_parent := xml_parent st;
                    masked_warned := {[name]} ∪ masked_warned st;
                    entry_points_cache := entry_points_cache st |})
    else (Ok tt, st).

(** [func(self, xml_parent, component_data)] *)
Definition call_generator (func : generator) (component_data : value) : M dstate unit :=
  λ st,
    match func (xml_parent st) component_data with
    | Ok x => (Ok tt, {| xml_parent := x; masked_warned := masked_warned st;
                         entry_points_cache := entry_points_cache st |})
    | other => (res_cast other, st)
    end.

(** [ModuleRegistry.dispatch]; the default of [template_data] is the empty
    dictionary. *)
Fixpoint dispatch (fuel : nat) (self : registry) (component_type : string)
    (component template_data : value) : M dstate unit :=
  match fuel with
  | 0 => λ st, (OutOfFuel, st)
  | S fuel' =>
      match modules_by_component_type self !! component_type with
      | None => raise (JenkinsJobsException (unknown_component_type component_type))
      | Some entry_point =>
          let component_list_type := component_list_type entry_point in
          let! named := lift (name_and_data self component template_data) in
          let name := named.1 in
          let component_data := named.2 in
          let! eps := entry_points component_type name entry_point in
          let component :=
            default VNone (default ∅ (parser_data self !! component_type) !! name) in
          match truthy component with
          | None => beyond "truth value of the macro definition"
          | Some true =>
              let! _ := warn_masked name eps in
              let! body := lift (macro_body component component_list_type) in
              for_each (λ b, dispatch fuel' self component_type b component_data) body
          | Some false =>
              match eps !! name with
              | Some func => call_generator func component_data
              | None =>
                  raise (JenkinsJobsException (unknown_entry_point name component_type))
              end
          end
      end
  end.

End ModuleRegistry.

(** The candidate that [_find_file] tests for a directory. *)
Definition candidate (H : host) (filename dirname : string) : string :=
  expanduser H (path_join dirname filename).

(** What an inclusion that is resolved at parse time reads: the text of
    the file that [_find_file] returns, or the error of opening it. *)
Definition read_found (H : host) (ld : loader) (path : string) : res contents :=
  match read_text H (_find_file H path (search_path ld)) with
  | Some text => Ok (Text text)
  | None => Raise (IOError (_find_file H path (search_path ld)))
  end.

(* ================================================================== *)
(** * Sessions *)
(* ================================================================== *)

(** A position in a document: the item of a sequence, or the key or the
    value of a pair of a mapping. *)
Inductive child := Item (i : nat) | Key (i : nat) | Value (i : nat).

Fixpoint ev_at (p : list child) (e : ev) : option ev :=
  match p with
  | [] => Some e
  | c :: p' =>
      match c, e with
      | Item i, ESeq _ _ items => items !! i ≫= ev_at p'
      | Key i, EMap _ _ items => items !! i ≫= λ kv, ev_at p' kv.1
      | Value i, EMap _ _ items => items !! i ≫= λ kv, ev_at p' kv.2
      | _, _ => None
      end
  end.

Fixpoint node_at (p : list child) (n : node) : option node :=
  match p with
  | [] => Some n
  | c :: p' =>
      match c, n with
      | Item i, SequenceNode _ items => items !! i ≫= node_at p'
      | Key i, MappingNode _ items => items !! i ≫= λ kv, node_at p' kv.1
      | Value i, MappingNode _ items => items !! i ≫= λ kv, node_at p' kv.2
      | _, _ => None
      end
  end.

(** The store after some more work of the same session: the class still
    refers to the same dictionary, and every dictionary has kept the
    entries it had. *)
Definition extends (st st' : pystate) : Prop :=
  cls_anchors st' = cls_anchors st ∧
  ∀ i t, dicts st !! i = Some t → ∃ t', dicts st' !! i = Some t' ∧ t ⊆ t'.

(** A computation whose every run relates the store before to the store
    after. *)
Definition respects {A} (R : relation pystate) (m : M pystate A) : Prop :=
  ∀ st r st', m st = (r, st') → R st st'.

(** One parse inside a session: a loader created in the current store, by
    the [yaml.load] of [load] or of [YamlInclude._from_file], composes a
    document. *)
Inductive session_step (H : host) : pystate → pystate → Prop :=
| parse_step s kw ld root r st st' :
    LocalLoader.__init__ H s kw st = (Ok ld, st) →
    LocalAnchorLoader.compose_document ld root st = (r, st') →
    session_step H st st'.

(** A computation on an anchor table that keeps the entries of the table. *)
Definition grows {A} (m : M (gmap string anchor_entry) A) : Prop :=
  ∀ t r t', m t = (r, t') → t ⊆ t'.

(** A computation on an anchor table that, having succeeded on a table,
    does on a smaller table one of two things: it succeeds with the same
    result, leaving a smaller table in which the keys of the larger one are
    as they were, or it raises for an undefined alias. *)
Definition simulates {A} (m : M (gmap string anchor_entry) A) : Prop :=
  ∀ tb a tb' ts,
    m tb = (Ok a, tb') → ts ⊆ tb →
    (∃ ts', m ts = (Ok a, ts') ∧ ts' ⊆ tb' ∧
            ∀ k, is_Some (tb !! k) → ts' !! k = ts !! k) ∨
    (∃ x ts', m ts = (Raise (ComposerError (UndefinedAlias x)), ts')).

(** A computation on an anchor table that raises for an undefined alias on
    every table that lacks [A], when it succeeds on a larger table with [A]. *)
Definition needs {A} (anchor : string) (m : M (gmap string anchor_entry) A) : Prop :=
  ∀ tb a tb' ts,
    m tb = (Ok a, tb') → ts ⊆ tb → is_Some (tb !! anchor) → ts !! anchor = None →
    ∃ x ts', m ts = (Raise (ComposerError (UndefinedAlias x)), ts').

(** Names that a format field can hold as a plain keyword: not empty, not
    starting with a digit, and free of the characters that end or
    structure a field. *)
Definition field_char (c : ascii) : bool :=
  negb (Ascii.eqb c "{" || Ascii.eqb c "}" || Ascii.eqb c "[" || Ascii.eqb c "."
        || Ascii.eqb c ":" || Ascii.eqb c "!").

Definition keyword_name (x : string) : bool :=
  match x with
  | EmptyString => false
  | String c _ => negb (PyFormat.is_digit c) && forallb field_char (list_ascii_of_string x)
  end.

(** The outcomes of [str.format]: a string, or one of three exceptions. *)
Definition format_outcome (r : res string) : Prop :=
  match r with
  | Ok _ | Raise (KeyError _) | Raise IndexError | Raise (ValueError _) => True
  | _ => False
  end.

Definition brace_free (s : string) : Prop :=
  ∀ c, In c (list_ascii_of_string s) → c ≠ "{"%char ∧ c ≠ "}"%char.

(** The pairs of a mapping node whose keys are plain strings. *)
Definition string_keyed (ks : list string) (pairs : list (node * node)) : Prop :=
  pairs.*1 = ScalarNode STR_TAG <$> ks.

(* ================================================================== *)
(** * A small installation, for the examples *)
(* ================================================================== *)

Module Demo.

Definition files : list (string * string) :=
  [("A/f.txt", "from A"); ("B/f.txt", "from B");
   ("./1.0/file.txt", "echo ${HOME}"); ("./2.0/file.txt", "echo two");
   ("./inc.yaml", "*base")].

Fixpoint assoc {A} (l : list (string * A)) (k : string) : option A :=
  match l with
  | [] => None
  | (k', v) :: rest => if String.eqb k' k then Some v else assoc rest k
  end.

(** The documents whose text the examples parse. *)
Definition documents : list (string * list ev) :=
  [("*base", [EAlias "base"]);
   ("&base v", [EScalar (Some "base") STR_TAG "v"]);
   ("{first: &base v, second: !include: inc.yaml}",
    [EMap None MAP_TAG
       [(EScalar None STR_TAG "first", EScalar (Some "base") STR_TAG "v");
        (EScalar None STR_TAG "second", EScalar None "!include:" "inc.yaml")]]);
   ("{b: x, a: y}",
    [EMap None MAP_TAG [(EScalar None STR_TAG "b", EScalar None STR_TAG "x");
                        (EScalar None STR_TAG "a", EScalar None STR_TAG "y")]]);
   ("{a: y, b: x}",
    [EMap None MAP_TAG [(EScalar None STR_TAG "a", EScalar None STR_TAG "y");
                        (EScalar None STR_TAG "b", EScalar None STR_TAG "x")]])].

Definition os : host := {|
  isfile := λ p, bool_decide (is_Some (assoc files p));
  read_text := assoc files;
  expanduser := λ p, p;
  normpath := λ p, p;
  dirname := λ _, "jobs";
  yaml_parse := λ text,
    match assoc documents text with
    | Some docs => Ok docs
    | None => Raise (ScannerError "could not scan the stream")
    end;
  host_escape := λ _ data, Ok data
|}.

Definition no_kwargs : load_kwargs :=
  {| kw_search_path := None; kw_escape_callback := None |}.

(** A loader as [load] creates it from a string, with two extra
    directories. *)
Definition ld : loader :=
  {| anchors := 0; search_path := ["A"; "B"; "."]; escape_callback := EscapeDefault |}.

(** A component function that appends a [shell] element holding the
    [value] of its data. *)
Definition shell : generator :=
  λ parent data,
    match parent, data with
    | Element t text children, VDict d =>
        match OrderedDict.getitem d "value" with
        | Some (VStr s) => Ok (Element t text (children ++ [Element "shell" s []]))
        | _ => Raise (JenkinsJobsException "Missing value")
        end
    | _, _ => Raise (JenkinsJobsException "Missing value")
    end.

(** A registry with the component type [builder], the component function
    [shell], and the macro [run] whose body is
    [- shell: {value: "{x}"}]. *)
Definition builders : entry_point :=
  {| component_list_type := "builders"; module_eps := [("shell", shell)] |}.

Definition run_macro : value :=
  VDict [("name", VStr "run");
         ("builders", VList [VDict [("shell", VDict [("value", VStr "{x}")])]])].

Definition reg : registry :=
  {| modules_by_component_type := {["builder" := builders]};
     parser_data := {["builder" := {["run" := run_macro]}]};
     allow_empty_variables := false |}.

Definition start : dstate :=
  {| xml_parent := Element "builders" "" []; masked_warned := ∅;
     entry_points_cache := ∅ |}.

End Demo.

From Stdlib Require Import DecimalString.

(* ================================================================== *)
(** * Further definitions for the loader *)
(* ================================================================== *)

(** The anchor that an event defines. *)
Definition ev_anchor (e : ev) : option string :=
  match e with
  | EAlias _ => None
  | EScalar anchor _ _ | ESeq anchor _ _ | EMap anchor _ _ => anchor
  end.

(** Pairs of a mapping node none of whose keys is a merge key or a value
    key: [flatten_mapping] leaves them as they are. *)
Definition plain_keys (pairs : list (node * node)) : bool :=
  forallb (λ kv, negb (String.eqb (node_tag kv.1) MERGE_TAG)
                 && negb (String.eqb (node_tag kv.1) VALUE_TAG)) pairs.

(** The keyword arguments with which [YamlInclude._from_file] creates the
    loader of an included document:
    [functools.partial(cls.yaml_loader, search_path=loader.search_path)]. *)
Definition included_kwargs (ld : loader) : load_kwargs :=
  {| kw_search_path := Some (search_path ld); kw_escape_callback := None |}.

(** The line feed, and [u'\n'.join] on strings. *)
Definition LF : string := String "010" "".

Definition join_lines (texts : list string) : string := String.concat LF texts.

(** The nodes of an inclusion whose paths are complete, with the text of
    the file that each path resolves to along the search path. *)
Definition includes_text (H : host) (sp : list string) (n : node) (text : string) : Prop :=
  ∃ tag path path',
    n = ScalarNode tag path ∧ PyFormat.format path [] = Ok path' ∧
    read_text H (_find_file H path sp) = Some text.

(** What a member of a [LazyLoaderCollection] gives when it is formatted:
    a string is formatted by [str.format]; a lazy reference of
    [!include-raw:] formats its path and gives the text of the file. *)
Definition member_text (H : host) (kwargs : list (string * value))
    (item : value) (text : string) : Prop :=
  match item with
  | VStr s => PyFormat.format s kwargs = Ok text
  | VLazy lz =>
      _cls lz = YamlIncludeRaw ∧
      ∃ path, PyFormat.format (_node_value lz) kwargs = Ok path ∧
              includes_text H (search_path (_loader lz))
                (ScalarNode (_node_tag lz) path) text
  | _ => False
  end.

(** Whether a path is kept for later: formatting it with no arguments
    raises [KeyError]. *)
Definition lazy_path (path : string) : bool :=
  match PyFormat.format path [] with
  | Raise (KeyError _) => true
  | _ => false
  end.

(** A node that no inclusion tag turns into a [LazyLoader] itself. *)
Definition complete_path (n : node) : bool :=
  match n with
  | ScalarNode _ path => negb (lazy_path path)
  | _ => true
  end.

(* ================================================================== *)
(** * A second installation, with shell fragments *)
(* ================================================================== *)

Module Site.

Definition files : list (string * string) :=
  [("./wrapper.yaml", "!include-raw-escape: body.sh");
   ("./head.sh", "#!/bin/sh");
   ("./body.sh", "echo ${HOME}");
   ("./1.0/tail.sh", "exit 0")].

Definition documents : list (string * list ev) :=
  [("!include-raw-escape: body.sh", [EScalar None "!include-raw-escape:" "body.sh"])].

Definition os : host := {|
  isfile := λ p, bool_decide (is_Some (Demo.assoc files p));
  read_text := Demo.assoc files;
  expanduser := λ p, p;
  normpath := λ p, p;
  dirname := λ _, "jobs";
  yaml_parse := λ text,
    match Demo.assoc documents text with
    | Some docs => Ok docs
    | None => Raise (ScannerError "could not scan the stream")
    end;
  host_escape := λ _ data, Ok data
|}.

(** A loader that was given an escape callback of the host. *)
Definition ld : loader :=
  {| anchors := 0; search_path := ["."]; escape_callback := EscapeHost 0 |}.

(** The reference that [!include-raw: '{v}/tail.sh'] leaves. *)
Definition tail : lazy_loader :=
  {| _cls := YamlIncludeRaw; _loader := ld; _node_tag := "!include-raw:";
     _node_value := "{v}/tail.sh" |}.

End Site.

(* ================================================================== *)
(** * The module registry: handlers, plugins, modules *)
(* ================================================================== *)

Module Registry.

Section Handlers.

(** The methods that modules register. *)
Context {T : Type}.

(** [ModuleRegistry.registerHandler], on [self.handlers]: the dictionary
    of the category, a new one when the category has none yet, receives
    the method under the name. *)
Definition registerHandler (category name : string) (method : T)
    (handlers : gmap string (gmap string T)) : gmap string (gmap string T) :=
  let cat_dict := default ∅ (handlers !! category) in
  let handlers :=
    if decide (size cat_dict = 0) then <[category := cat_dict]> handlers else handlers in
  <[category := <[name := method]> cat_dict]> handlers.

(** [ModuleRegistry.getHandler]: [self.handlers[category][name]] *)
Definition getHandler (category name : string)
    (handlers : gmap string (gmap string T)) : res T :=
  match handlers !! category with
  | None => Raise (KeyError category)
  | Some cat_dict =>
      match cat_dict !! name with
      | None => Raise (KeyError name)
      | Some method => Ok method
      end
  end.

End Handlers.

(** The pattern of [mutate_plugin_info] is a greedy group of any
    characters but the line feed, followed by [-SNAPSHOT] or [-BETA]. Here,
    the pattern at the start of [s] with an empty group: what follows the
    match. *)
Fixpoint strip_prefix (p s : string) : option string :=
  match p, s with
  | EmptyString, _ => Some s
  | String a p', String b s' => if Ascii.eqb a b then strip_prefix p' s' else None
  | String _ _, EmptyString => None
  end.

Definition suffix_at (s : string) : option string :=
  match strip_prefix "-SNAPSHOT" s with
  | Some after => Some after
  | None => strip_prefix "-BETA" s
  end.

(** A match of the pattern that starts at the start of [s]: the greedy
    group, which holds no line feed, extends to the last place of the line
    where a suffix follows. The group and what follows the match. *)
Fixpoint match_at (s : string) : option (string * string) :=
  match s with
  | EmptyString => None
  | String c rest =>
      let here := option_map (λ after, (EmptyString, after)) (suffix_at s) in
      if Ascii.eqb c "010" then here
      else
        match match_at rest with
        | Some (group, after) => Some (String c group, after)
        | None => here
        end
  end.

(** [re.sub] of the pattern by the group followed by [.preview]: the
    matches are taken from left to right; where none starts, the character
    is kept. The fuel bounds the number of steps. *)
Fixpoint sub_from (fuel : nat) (s : string) : string :=
  match fuel with
  | 0 => s
  | S fuel' =>
      match match_at s with
      | Some (group, after) => group +:+ ".preview" +:+ sub_from fuel' after
      | None =>
          match s with
          | EmptyString => EmptyString
          | String c rest => String c (sub_from fuel' rest)
          end
      end
  end.

Definition sub_preview (version : string) : string :=
  sub_from (String.length version) version.

(** The names under which a plugin is recorded:
    [plugin_info.get(key, None)] for [longName] and [shortName], when not
    [None]. *)
Fixpoint aliases (plugin_info : list (string * value)) (keys : list string)
    : res (list string) :=
  match keys with
  | [] => Ok []
  | key :: rest =>
      match default VNone (OrderedDict.getitem plugin_info key) with
      | VNone => aliases plugin_info rest
      | VStr name => res_bind (aliases plugin_info rest) (λ names, Ok (name :: names))
      | VList _ | VDict _ => Raise (TypeError "unhashable type")
      | _ => Beyond "plugin name that is not a string"
      end
  end.

(** [mutate_plugin_info]: the version of the plugin is rewritten in place,
    and the plugin is returned under each of its names. *)
Definition mutate_plugin_info (plugin_info : value) : res (gmap string value) :=
  match plugin_info with
  | VDict d =>
      match default (VStr "0") (OrderedDict.getitem d "version") with
      | VStr version =>
          let d := OrderedDict.setitem d "version" (VStr (sub_preview version)) in
          res_bind (aliases d ["longName"; "shortName"]) (λ names,
            Ok (fold_left (λ plugin_info_dict name, <[name := VDict d]> plugin_info_dict)
                  names ∅))
      | _ => Raise (TypeError "expected string or bytes-like object")
      end
  | _ => Raise (AttributeError "object has no attribute 'get'")
  end.

Fixpoint list_of_dicts (plugins_list : list value) : res (list (gmap string value)) :=
  match plugins_list with
  | [] => Ok []
  | v :: rest =>
      res_bind (mutate_plugin_info v) (λ d,
      res_bind (list_of_dicts rest) (λ ds, Ok (d :: ds)))
  end.

(** [ModuleRegistry._get_plugins_info_dict]; [update] lets the later
    dictionary win. *)
Definition _get_plugins_info_dict (plugins_list : list value) : res (gmap string value) :=
  res_bind (list_of_dicts plugins_list) (λ ds,
    Ok (fold_left (λ plugins_info_dict d, d ∪ plugins_info_dict) ds ∅)).

(** [ModuleRegistry.get_plugin_info] *)
Definition get_plugin_info (plugins_dict : gmap string value) (plugin_name : string) : value :=
  default (VDict []) (plugins_dict !! plugin_name).

(** A module object, [Mod(self)]: its [sequence], its [component_type],
    and the entry point it was loaded from. *)
Record module := {
  sequence : Z;
  component_type : option string;
  entrypoint : entry_point
}.

(** [list.sort(key=operator.attrgetter('sequence'))]: a stable sort. *)
Fixpoint insert_by_sequence (m : module) (l : list module) : list module :=
  match l with
  | [] => [m]
  | x :: rest =>
      if (sequence m <=? sequence x)%Z then m :: x :: rest
      else x :: insert_by_sequence m rest
  end.

Definition sort_by_sequence (l : list module) : list module :=
  foldr insert_by_sequence [] l.

(** The loop of [ModuleRegistry.__init__] over the entry points of the
    group [jenkins_jobs.modules]: [self.modules] and
    [self.modules_by_component_type]. *)
Definition __init__ (loaded : list module) : list module * gmap string entry_point :=
  fold_left
    (λ '(modules, modules_by_component_type) module,
       (sort_by_sequence (modules ++ [module]),
        match component_type module with
        | Some t => <[t := entrypoint module]> modules_by_component_type
        | None => modules_by_component_type
        end))
    loaded ([], ∅).

(** Whether a plugin is known under a name. *)
Definition is_name (name : string) (v : option value) : bool :=
  match v with
  | Some (VStr s) => String.eqb s name
  | _ => false
  end.

Definition has_alias (name : string) (plugin_info : value) : bool :=
  match plugin_info with
  | VDict d =>
      is_name name (OrderedDict.getitem d "longName")
      || is_name name (OrderedDict.getitem d "shortName")
  | _ => false
  end.

(** The plugin as [mutate_plugin_info] leaves it. *)
Definition normalised (plugin_info : value) : value :=
  match plugin_info with
  | VDict d =>
      match default (VStr "0") (OrderedDict.getitem d "version") with
      | VStr version => VDict (OrderedDict.setitem d "version" (VStr (sub_preview version)))
      | _ => plugin_info
      end
  | _ => plugin_info
  end.

(** Whether the pattern matches somewhere in [s]. *)
Fixpoint has_suffix (s : string) : bool :=
  match s with
  | EmptyString => false
  | String _ rest => bool_decide (is_Some (suffix_at s)) || has_suffix rest
  end.

Definition one_line (s : string) : bool :=
  forallb (λ c, negb (Ascii.eqb c "010")) (list_ascii_of_string s).

End Registry.

(** A computation of [dispatch] that keeps the entries of the entry point
    cache. *)
Definition keeps_cache {A} (m : M dstate A) : Prop :=
  ∀ st r st', m st = (r, st') → entry_points_cache st ⊆ entry_points_cache st'.

Module Loop.

(** A registry in which the macro [again] invokes itself. *)
Definition again : value :=
  VDict [("name", VStr "again"); ("builders", VList [VStr "again"])].

Definition reg : registry :=
  {| modules_by_component_type := {["builder" := Demo.builders]};
     parser_data := {["builder" := {["again" := again]}]};
     allow_empty_variables := false |}.

(** A module that has two component functions of one name. *)
Definition twice : entry_point :=
  {| component_list_type := "builders";
     module_eps := [("shell", Demo.shell); ("shell", Demo.shell)] |}.

Definition doubled : registry :=
  {| modules_by_component_type := {["builder" := twice]};
     parser_data := ∅;
     allow_empty_variables := false |}.

(** A registry that is created later for the same component list type,
    with another function under the name [shell]. *)
Definition other_shell : generator :=
  λ parent _,
    match parent with
    | Element t text children => Ok (Element t text (children ++ [Element "other" "" []]))
    end.

Definition later : registry :=
  {| modules_by_component_type :=
       {["builder" := {| component_list_type := "builders";
                         module_eps := [("shell", other_shell)] |}]};
     parser_data := {["builder" := {["run" := Demo.run_macro]}]};
     allow_empty_variables := false |}.

(** The store once the first registry has dispatched a builder. *)
Definition filled : dstate :=
  {| xml_parent := Element "builders" "" []; masked_warned := ∅;
     entry_points_cache := {["builders" := {["shell" := Demo.shell]}]} |}.

End Loop.

(* ================================================================== *)
(** * Python objects, as the component functions see them *)
(* ================================================================== *)

(** The data of a job once it is loaded: the scalars are Python values.
    The keys of a dictionary are strings, in the order of insertion.
    Floats and other objects are not modelled. *)
Inductive obj :=
| PyNone
| PyBool (b : bool)
| PyInt (z : Z)
| PyStr (s : string)
| PyList (l : list obj)
| PyDict (d : list (string * obj)).

(** What the component functions raise: the two errors of
    [jenkins_jobs.errors] that report an attribute, by the arguments they
    are created with ([MissingAttributeErrorOf] when the argument is an
    exception object), and the exceptions of Python. *)
Inductive raised :=
| MissingAttributeError (missing_attribute : string)
| MissingAttributeErrorOf (cause : exc)
| InvalidAttributeError (attribute_name : string) (value : obj)
    (valid_values : option (list obj))
| Python (e : exc).

(** [Outside] marks a call that leaves the fragment of Python modelled
    here; it is not an exception. *)
Inductive outcome (A : Type) :=
| Returns (a : A)
| Raises (e : raised)
| Outside (why : string).
Arguments Returns {A} a.
Arguments Raises {A} e.
Arguments Outside {A} why.

Module Py.

Definition bind {A B} (r : outcome A) (k : A → outcome B) : outcome B :=
  match r with
  | Returns a => k a
  | Raises e => Raises e
  | Outside w => Outside w
  end.

(** [bool(o)] *)
Definition truth (o : obj) : bool :=
  match o with
  | PyNone => false
  | PyBool b => b
  | PyInt z => negb (z =? 0)%Z
  | PyStr s => negb (String.eqb s "")
  | PyList l => negb (bool_decide (l = []))
  | PyDict d => negb (bool_decide (d = []))
  end.

(** [bool] is a subclass of [int]: [True == 1]. *)
Definition as_int (o : obj) : Z :=
  match o with
  | PyBool true => 1
  | PyInt z => z
  | _ => 0
  end.

(** [a == b]. The comparison of two dictionaries depends on their classes
    and is outside the model. *)
Fixpoint eq (a b : obj) : option bool :=
  match a, b with
  | PyNone, PyNone => Some true
  | (PyBool _ | PyInt _), (PyBool _ | PyInt _) => Some (as_int a =? as_int b)%Z
  | PyStr s, PyStr t => Some (String.eqb s t)
  | PyList l, PyList m =>
      if negb (length l =? length m)%nat then Some false
      else
        (fix items (l m : list obj) : option bool :=
           match l, m with
           | x :: l', y :: m' =>
               match eq x y with
               | Some true => items l' m'
               | other => other
               end
           | _, _ => Some true
           end) l m
  | PyDict _, PyDict _ => None
  | _, _ => Some false
  end.

Definition equal (a b : obj) : outcome bool :=
  match eq a b with
  | Some r => Returns r
  | None => Outside "comparison of two dictionaries"
  end.

Fixpoint assoc (d : list (string * obj)) (key : string) : option obj :=
  match d with
  | [] => None
  | (k, v) :: rest => if String.eqb k key then Some v else assoc rest key
  end.

(** [d.keys()], as a list *)
Definition keys (d : list (string * obj)) : list obj := PyStr <$> d.*1.

(** [data.get(key, default)] *)
Definition get (data : obj) (key : string) (default : obj) : outcome obj :=
  match data with
  | PyDict d => Returns (from_option id default (assoc d key))
  | _ => Raises (Python (AttributeError "object has no attribute 'get'"))
  end.

(** [data[key]] for a string [key] *)
Definition getitem (data : obj) (key : string) : outcome obj :=
  match data with
  | PyDict d =>
      match assoc d key with
      | Some v => Returns v
      | None => Raises (Python (KeyError key))
      end
  | PyStr _ | PyList _ => Raises (Python (TypeError "indices must be integers"))
  | _ => Raises (Python (TypeError "object is not subscriptable"))
  end.

(** [d[key] = value] and [del d[key]] on the items of a dictionary, in
    which a key occurs once *)
Fixpoint setitem (d : list (string * obj)) (key : string) (value : obj)
    : list (string * obj) :=
  match d with
  | [] => [(key, value)]
  | (k, v) :: rest =>
      if String.eqb k key then (k, value) :: rest else (k, v) :: setitem rest key value
  end.

Fixpoint delitem (d : list (string * obj)) (key : string) : list (string * obj) :=
  match d with
  | [] => []
  | (k, v) :: rest =>
      if String.eqb k key then delitem rest key else (k, v) :: delitem rest key
  end.

(** [p in s] for two strings *)
Fixpoint occurs_in (p s : string) : bool :=
  String.prefix p s ||
  match s with
  | EmptyString => false
  | String _ rest => occurs_in p rest
  end.

(** [x in l] for a list [l] *)
Fixpoint member (x : obj) (l : list obj) : option bool :=
  match l with
  | [] => Some false
  | y :: rest =>
      match eq x y with
      | Some false => member x rest
      | other => other
      end
  end.

(** [x in container] *)
Definition contains (container x : obj) : outcome bool :=
  match container with
  | PyDict d =>
      match x with
      | PyStr k => Returns (bool_decide (is_Some (assoc d k)))
      | PyList _ | PyDict _ => Raises (Python (TypeError "unhashable type"))
      | _ => Returns false
      end
  | PyList l =>
      match member x l with
      | Some r => Returns r
      | None => Outside "comparison of two dictionaries"
      end
  | PyStr s =>
      match x with
      | PyStr p => Returns (occurs_in p s)
      | _ => Raises (Python (TypeError "'in <string>' requires string as left operand"))
      end
  | _ => Raises (Python (TypeError "argument is not iterable"))
  end.

(** [str(o)]; the text of a list or of a dictionary is outside the
    model. *)
Definition str (o : obj) : outcome string :=
  match o with
  | PyNone => Returns "None"
  | PyBool true => Returns "True"
  | PyBool false => Returns "False"
  | PyInt z => Returns (NilZero.string_of_int (Z.to_int z))
  | PyStr s => Returns s
  | PyList _ | PyDict _ => Outside "text of a collection"
  end.

(** [s.lower()], on code points below 256 *)
Definition lower_char (c : ascii) : ascii :=
  let n := nat_of_ascii c in
  if ((65 <=? n) && (n <=? 90) || (192 <=? n) && (n <=? 214)
      || (216 <=? n) && (n <=? 222))%nat
  then ascii_of_nat (n + 32) else c.

Fixpoint lower (s : string) : string :=
  match s with
  | EmptyString => EmptyString
  | String c rest => String (lower_char c) (lower rest)
  end.

(** [str(o).lower()] *)
Definition str_lower (o : obj) : outcome string :=
  bind (str o) (λ s, Returns (lower s)).

Fixpoint characters (s : string) : list obj :=
  match s with
  | EmptyString => []
  | String c rest => PyStr (String c "") :: characters rest
  end.

(** The items of [for x in o] *)
Definition iterate (o : obj) : outcome (list obj) :=
  match o with
  | PyList l => Returns l
  | PyDict d => Returns (keys d)
  | PyStr s => Returns (characters s)
  | _ => Raises (Python (TypeError "object is not iterable"))
  end.

Fixpoint join_items (sep : string) (items : list obj) : outcome string :=
  match items with
  | [] => Returns ""
  | PyStr s :: rest =>
      match rest with
      | [] => Returns s
      | _ => bind (join_items sep rest) (λ tail, Returns (s +:+ sep +:+ tail))
      end
  | _ => Raises (Python (TypeError "sequence item: expected str instance"))
  end.

(** [sep.join(o)] *)
Definition join (sep : string) (o : obj) : outcome string :=
  bind (iterate o) (join_items sep).

End Py.

Notation "'let?' x ':=' m 'in' k" := (Py.bind m (λ x, k))
  (at level 10, x name, m at level 100, k at level 200).

(* ================================================================== *)
(** * Element trees *)
(* ================================================================== *)

Module XML.

(** An [xml.etree.ElementTree.Element]: tag, attributes, text (any object
    that was assigned to it, [None] at creation) and children. *)
Inductive element :=
| Elem (tag : string) (attrib : list (string * string)) (text : obj)
    (children : list element).

Definition tag (e : element) : string := let 'Elem t _ _ _ := e in t.
Definition attrib (e : element) : list (string * string) := let 'Elem _ a _ _ := e in a.
Definition text (e : element) : obj := let 'Elem _ _ x _ := e in x.
Definition children (e : element) : list element := let 'Elem _ _ _ c := e in c.

Definition with_children (e : element) (c : list element) : element :=
  let 'Elem t a x _ := e in Elem t a x c.

(** A function that works on an element, the one it is given as
    [xml_parent] or has created, and may raise after it has changed it. *)
Definition builder (A : Type) : Type := element → outcome A * element.

Definition ret {A} (a : A) : builder A := λ e, (Returns a, e).
Definition throw {A} (x : raised) : builder A := λ e, (Raises x, e).
Definition lift {A} (r : outcome A) : builder A := λ e, (r, e).
Definition bind {A B} (m : builder A) (k : A → builder B) : builder B :=
  λ e, match m e with
       | (Returns a, e') => k a e'
       | (Raises x, e') => (Raises x, e')
       | (Outside w, e') => (Outside w, e')
       end.

(** [for x in l: f(x)] *)
Fixpoint for_each {A} (f : A → builder unit) (l : list A) : builder unit :=
  match l with
  | [] => ret tt
  | x :: rest => bind (f x) (λ _, for_each f rest)
  end.

(** [child = XML.SubElement(parent, tag, attrib)] followed by the work
    [body] on [child]: the child is the last child of the parent from its
    creation on, also when [body] raises. *)
Definition SubElement {A} (tag : string) (attrib : list (string * string))
    (body : builder A) : builder A :=
  λ parent,
    let '(r, child) := body (Elem tag attrib PyNone []) in
    (r, with_children parent (children parent ++ [child])).

(** [element.text = value] *)
Definition set_text (value : obj) : builder unit :=
  λ e, let 'Elem t a _ c := e in (Returns tt, Elem t a value c).

Fixpoint setitem (a : list (string * string)) (k v : string) : list (string * string) :=
  match a with
  | [] => [(k, v)]
  | (k', v') :: rest =>
      if String.eqb k' k then (k', v) :: rest else (k', v') :: setitem rest k v
  end.

(** [element.set(key, value)] *)
Definition set (key value : string) : builder unit :=
  λ e, let 'Elem t a x c := e in (Returns tt, Elem t (setitem a key value) x c).

(** Work on the child at an index. *)
Definition within {A} (i : nat) (body : builder A) : builder A :=
  λ parent,
    match children parent !! i with
    | Some child =>
        let '(r, child') := body child in
        (r, with_children parent (<[i := child']> (children parent)))
    | None => (Outside "no such child", parent)
    end.

(** Work on the element that a function has just created under the
    parent and returned. *)
Definition last_child {A} (body : builder A) : builder A :=
  λ parent, within (pred (length (children parent))) body parent.

(** [element.find(tag)] for a plain tag: the first child with the tag, by
    its index. *)
Fixpoint find_from (t : string) (l : list element) (i : nat) : option nat :=
  match l with
  | [] => None
  | e :: rest => if String.eqb (tag e) t then Some i else find_from t rest (S i)
  end.

Definition find (t : string) (e : element) : option nat := find_from t (children e) 0.

(** [x = parent.find(tag)], [if x is None: x = XML.SubElement(parent, tag)],
    followed by the work [body] on [x]. *)
Definition find_or_create {A} (t : string) (body : builder A) : builder A :=
  λ parent,
    match find t parent with
    | Some i => within i body parent
    | None => SubElement t [] body parent
    end.

End XML.

Notation "'do!' x ':=' m 'in' k" := (XML.bind m (λ x, k))
  (at level 10, x name, m at level 100, k at level 200).

(* ================================================================== *)
(** * [jenkins_jobs/modules/helpers.py] *)
(* ================================================================== *)

Module helpers.

(** An element of a mapping: the tuple [(optname, xmlname, val)], with the
    items that follow the third when the tuple is longer. *)
Record mapping_elem := {
  optname : string;
  xmlname : string;
  val : obj;
  more : list obj
}.

(** [valid_options] and [valid_dict] of an element: the fourth item of a
    tuple of four, when it is a list, or a dictionary. *)
Definition valid_options (elem : mapping_elem) : list obj :=
  match more elem with
  | [PyList l] => l
  | _ => []
  end.

Definition valid_dict (elem : mapping_elem) : list (string * obj) :=
  match more elem with
  | [PyDict d] => d
  | _ => []
  end.

(** The body of the loop of [convert_mapping_to_xml]. *)
Definition convert_elem (data : obj) (fail_required : bool) (elem : mapping_elem)
    : XML.builder unit :=
  do! val := XML.lift (Py.get data (optname elem) (val elem)) in
  let valid_options := valid_options elem in
  let valid_dict := valid_dict elem in
  match val, fail_required with
  | PyNone, true => XML.throw (MissingAttributeError (optname elem))
  | PyNone, false => XML.ret tt
  | _, _ =>
      do! _ :=
        (if Py.truth (PyDict valid_dict) then
           do! known := XML.lift (Py.contains (PyDict valid_dict) val) in
           if known then XML.ret tt
           else XML.throw (InvalidAttributeError (optname elem) val
                             (Some (Py.keys valid_dict)))
         else XML.ret tt) in
      do! _ :=
        (if Py.truth (PyList valid_options) then
           do! known := XML.lift (Py.contains (PyList valid_options) val) in
           if known then XML.ret tt
           else XML.throw (InvalidAttributeError (optname elem) val (Some valid_options))
         else XML.ret tt) in
      do! val :=
        XML.lift (match val with
                  | PyBool _ => let? s := Py.str_lower val in Returns (PyStr s)
                  | _ => Returns val
                  end) in
      do! known := XML.lift (Py.contains (PyDict valid_dict) val) in
      do! text :=
        XML.lift (if known then
                    match val with
                    | PyStr k => let? v := Py.getitem (PyDict valid_dict) k in Py.str v
                    | _ => Outside "key that is not a string"
                    end
                  else Py.str val) in
      XML.SubElement (xmlname elem) [] (XML.set_text (PyStr text))
  end.

(** [convert_mapping_to_xml(parent, data, mapping, fail_required)], on
    [parent] *)
Definition convert_mapping_to_xml (data : obj) (mapping : list mapping_elem)
    (fail_required : bool) : XML.builder unit :=
  XML.for_each (convert_elem data fail_required) mapping.

(** Whether the value of an element of a mapping is [None]. *)
Definition resolves_none (data : obj) (elem : mapping_elem) : bool :=
  match Py.get data (optname elem) (val elem) with
  | Returns PyNone => true
  | _ => false
  end.

Definition tuple3 (optname xmlname : string) (val : obj) : mapping_elem :=
  {| optname := optname; xmlname := xmlname; val := val; more := [] |}.

Definition tuple4 (optname xmlname : string) (val fourth : obj) : mapping_elem :=
  {| optname := optname; xmlname := xmlname; val := val; more := [fourth] |}.

(** [findbugs_settings(xml_parent, data)] *)
Definition findbugs_settings (data : obj) : XML.builder unit :=
  let mapping :=
    [tuple3 "rank-priority" "isRankActivated" (PyBool false);
     tuple3 "include-files" "includePattern" (PyStr "");
     tuple3 "exclude-files" "excludePattern" (PyStr "")] in
  convert_mapping_to_xml data mapping true.

(** [config_file_provider_builder(xml_parent, data)] *)
Definition config_file_provider_builder (data : obj) : XML.builder unit :=
  XML.SubElement "managedFiles" []
    (do! files := XML.lift (Py.get data "files" (PyList [])) in
     do! files := XML.lift (Py.iterate files) in
     XML.for_each
       (λ file,
          XML.SubElement "org.jenkinsci.plugins.configfiles.buildwrapper.ManagedFile" []
            (let mapping :=
               [tuple3 "file-id" "fileId" PyNone;
                tuple3 "target" "targetLocation" (PyStr "");
                tuple3 "variable" "variable" (PyStr "")] in
             convert_mapping_to_xml file mapping true))
       files).

Definition selectdict : list (string * obj) :=
  [("last-successful", PyStr "StatusBuildSelector");
   ("last-completed", PyStr "LastCompletedBuildSelector");
   ("specific-build", PyStr "SpecificBuildSelector");
   ("last-saved", PyStr "SavedBuildSelector");
   ("upstream-build", PyStr "TriggeredBuildSelector");
   ("permalink", PyStr "PermalinkBuildSelector");
   ("workspace-latest", PyStr "WorkspaceSelector");
   ("build-param", PyStr "ParameterizedBuildSelector");
   ("downstream-build", PyStr "DownstreamBuildSelector");
   ("multijob-build", PyStr "MultiJobBuildSelector")].

Definition permalinkdict : list (string * obj) :=
  [("last", PyStr "lastBuild");
   ("last-stable", PyStr "lastStableBuild");
   ("last-successful", PyStr "lastSuccessfulBuild");
   ("last-failed", PyStr "lastFailedBuild");
   ("last-unstable", PyStr "lastUnstableBuild");
   ("last-unsuccessful", PyStr "lastUnsuccessfulBuild")].

(** [a + b] for a string [a] *)
Definition concat_str (a : string) (b : obj) : outcome string :=
  match b with
  | PyStr s => Returns (a +:+ s)
  | _ => Raises (Python (TypeError "can only concatenate str to str"))
  end.

(** [if select == name: body] *)
Definition when_equal (select : obj) (name : string) (body : XML.builder unit)
    : XML.builder unit :=
  do! same := XML.lift (Py.equal select (PyStr name)) in
  if same then body else XML.ret tt.

(** [XML.SubElement(parent, tag).text = value], the value first *)
Definition text_element (tag : string) (value : outcome obj) : XML.builder unit :=
  do! v := XML.lift value in
  XML.SubElement tag [] (XML.set_text v).

Definition as_text (s : outcome string) : outcome obj := let? t := s in Returns (PyStr t).

(** [copyartifact_build_selector(xml_parent, data, select_tag)] *)
Definition copyartifact_build_selector (data : obj) (select_tag : string)
    : XML.builder unit :=
  do! select := XML.lift (Py.get data "which-build" (PyStr "last-successful")) in
  do! known := XML.lift (Py.contains (PyDict selectdict) select) in
  if negb known then
    XML.throw (InvalidAttributeError "which-build" select (Some (Py.keys selectdict)))
  else
  do! permalink := XML.lift (Py.get data "permalink" (PyStr "last")) in
  do! known := XML.lift (Py.contains (PyDict permalinkdict) permalink) in
  if negb known then
    XML.throw (InvalidAttributeError "permalink" permalink (Some (Py.keys permalinkdict)))
  else
  do! multijob := XML.lift (Py.equal select (PyStr "multijob-build")) in
  do! class :=
    XML.lift (let? name :=
                match select with
                | PyStr k => Py.getitem (PyDict selectdict) k
                | _ => Outside "key that is not a string"
                end in
              concat_str (if multijob then "com.tikal.jenkins.plugins.multijob."
                          else "hudson.plugins.copyartifact.") name) in
  XML.SubElement select_tag [("class", class)]
    (do! _ := when_equal select "specific-build"
                (text_element "buildNumber" (Py.getitem data "build-number")) in
     do! _ := when_equal select "last-successful"
                (text_element "stable"
                   (as_text (let? v := Py.get data "stable" (PyBool false) in
                             Py.str_lower v))) in
     do! _ := when_equal select "upstream-build"
                (text_element "fallbackToLastSuccessful"
                   (as_text (let? v := Py.get data "fallback-to-last-successful"
                                         (PyBool false) in
                             Py.str_lower v))) in
     do! _ := when_equal select "permalink"
                (text_element "id"
                   (match permalink with
                    | PyStr k => Py.getitem (PyDict permalinkdict) k
                    | _ => Outside "key that is not a string"
                    end)) in
     do! _ := when_equal select "build-param"
                (text_element "parameterName" (Py.getitem data "param")) in
     when_equal select "downstream-build"
       (do! _ := text_element "upstreamProjectName"
                   (Py.getitem data "upstream-project-name") in
        text_element "upstreamBuildNumber" (Py.getitem data "upstream-build-number"))).

(** [cloudformation_region_dict()] *)
Definition cloudformation_region_dict : list (string * obj) :=
  [("us-east-1", PyStr "US_East_Northern_Virginia");
   ("us-west-1", PyStr "US_WEST_Northern_California");
   ("us-west-2", PyStr "US_WEST_Oregon");
   ("eu-central-1", PyStr "EU_Frankfurt");
   ("eu-west-1", PyStr "EU_Ireland");
   ("ap-southeast-1", PyStr "Asia_Pacific_Singapore");
   ("ap-southeast-2", PyStr "Asia_Pacific_Sydney");
   ("ap-northeast-1", PyStr "Asia_Pacific_Tokyo");
   ("sa-east-1", PyStr "South_America_Sao_Paulo")].

(** [except KeyError as e: raise MissingAttributeError(e.args[0])] around
    a computation *)
Definition missing_on_KeyError {A} (m : XML.builder A) : XML.builder A :=
  λ e, match m e with
       | (Raises (Python (KeyError key)), e') => (Raises (MissingAttributeError key), e')
       | other => other
       end.

(** [cloudformation_stack(xml_parent, stack, xml_tag, stacks, region_dict)],
    on [stacks] *)
Definition cloudformation_stack (stack : obj) (xml_tag : string)
    (region_dict : list (string * obj)) : XML.builder unit :=
  do! named := XML.lift (Py.contains stack (PyStr "name")) in
  do! unnamed :=
    XML.lift (if negb named then Returns true
              else let? name := Py.getitem stack "name" in Py.equal name (PyStr "")) in
  if unnamed then XML.throw (MissingAttributeError "name")
  else
  XML.SubElement ("com.syncapse.jenkinsci.plugins.awscloudformationwrapper." +:+ xml_tag) []
    (do! region :=
       missing_on_KeyError
         (do! _ := text_element "stackName" (Py.getitem stack "name") in
          do! _ := text_element "awsAccessKey" (Py.getitem stack "access-key") in
          do! _ := text_element "awsSecretKey" (Py.getitem stack "secret-key") in
          XML.lift (Py.getitem stack "region")) in
     do! known := XML.lift (Py.contains (PyDict region_dict) region) in
     if negb known then
       XML.throw (InvalidAttributeError "region" region (Some (Py.keys region_dict)))
     else
     do! _ := text_element "awsRegion"
                (match region with
                 | PyStr k => Py.get (PyDict region_dict) k PyNone
                 | _ => Outside "key that is not a string"
                 end) in
     if String.eqb xml_tag "SimpleStackBean" then
       text_element "isPrefixSelected"
         (as_text (let? v := Py.get stack "prefix" (PyBool false) in Py.str_lower v))
     else
       do! _ := text_element "description" (Py.get stack "description" (PyStr "")) in
       do! _ := text_element "parameters"
                  (as_text (let? v := Py.get stack "parameters" (PyList []) in
                            Py.join "," v)) in
       do! _ := text_element "timeout"
                  (as_text (let? v := Py.get stack "timeout" (PyStr "0") in Py.str v)) in
       do! _ := text_element "sleep"
                  (as_text (let? v := Py.get stack "sleep" (PyStr "0") in Py.str v)) in
       missing_on_KeyError (text_element "cloudFormationRecipe" (Py.getitem stack "recipe"))).

End helpers.

(* ================================================================== *)
(** * [jenkins_jobs/modules/parameters.py] *)
(* ================================================================== *)

Module parameters.

Import helpers.

(** [base_param(registry, xml_parent, data, do_default, ptype)]; the
    element [pdef] that it returns is the last child of [xml_parent]. *)
Definition base_param (data : obj) (do_default : bool) (ptype : string)
    : XML.builder unit :=
  XML.SubElement ptype []
    (do! _ := text_element "name" (Py.getitem data "name") in
     do! _ := text_element "description" (Py.get data "description" (PyStr "")) in
     if do_default then
       do! default := XML.lift (Py.get data "default" PyNone) in
       if Py.truth default then XML.SubElement "defaultValue" [] (XML.set_text default)
       else XML.SubElement "defaultValue" [] (XML.ret tt)
     else XML.ret tt).

Definition string_param (data : obj) : XML.builder unit :=
  base_param data true "hudson.model.StringParameterDefinition".

Definition password_param (data : obj) : XML.builder unit :=
  base_param data true "hudson.model.PasswordParameterDefinition".

(** [bool_param]: [data['default']] is first replaced by its text in
    lower case. *)
Definition bool_param (data : obj) : XML.builder unit :=
  do! default :=
    XML.lift (let? v := Py.get data "default" (PyBool false) in Py.str_lower v) in
  let data :=
    match data with
    | PyDict d => PyDict (Py.setitem d "default" (PyStr default))
    | _ => data
    end in
  base_param data true "hudson.model.BooleanParameterDefinition".

Definition file_param (data : obj) : XML.builder unit :=
  base_param data false "hudson.model.FileParameterDefinition".

Definition text_param (data : obj) : XML.builder unit :=
  base_param data true "hudson.model.TextParameterDefinition".

Definition label_param (data : obj) : XML.builder unit :=
  base_param data true
    "org.jvnet.jenkins.plugins.nodelabelparameter.LabelParameterDefinition".

Definition hidden_param (data : obj) : XML.builder unit :=
  base_param data true "com.wangyin.parameter.WHideParameterDefinition".

(** [except KeyError: raise MissingAttributeError(name)] around a
    computation *)
Definition missing_named {A} (name : string) (m : XML.builder A) : XML.builder A :=
  λ e, match m e with
       | (Raises (Python (KeyError _)), e') => (Raises (MissingAttributeError name), e')
       | other => other
       end.

Definition promoted_param (data : obj) : XML.builder unit :=
  do! _ := base_param data false
             "hudson.plugins.promoted__builds.parameters.PromotedBuildParameterDefinition" in
  XML.last_child
    (do! _ := missing_named "project-name"
                (text_element "projectName" (Py.getitem data "project-name")) in
     text_element "promotionProcessName" (Py.get data "promotion-name" PyNone)).

Definition run_param (data : obj) : XML.builder unit :=
  do! _ := base_param data false "hudson.model.RunParameterDefinition" in
  XML.last_child (text_element "projectName" (Py.getitem data "project-name")).

Definition validating_string_param (data : obj) : XML.builder unit :=
  do! _ := base_param data true
             "hudson.plugins.validating__string__parameter.ValidatingStringParameterDefinition" in
  XML.last_child
    (do! _ := text_element "regex" (Py.getitem data "regex") in
     text_element "failedValidationMessage" (Py.getitem data "msg")).

Definition choice_param (data : obj) : XML.builder unit :=
  do! _ := base_param data false "hudson.model.ChoiceParameterDefinition" in
  XML.last_child
    (XML.SubElement "choices" [("class", "java.util.Arrays$ArrayList")]
       (XML.SubElement "a" [("class", "string-array")]
          (do! choices := XML.lift (let? c := Py.getitem data "choices" in Py.iterate c) in
           XML.for_each (λ choice, text_element "string" (Returns choice)) choices))).

(** The part that [matrix_combinations_param] and [random_string_param]
    share: the element is created, then the name is asked for. *)
Definition named_element (data : obj) (element_name message : string)
    (rest : XML.builder unit) : XML.builder unit :=
  XML.SubElement element_name []
    (do! named := XML.lift (Py.contains data (PyStr "name")) in
     if negb named then XML.throw (Python (JenkinsJobsException message))
     else
     do! _ := text_element "name" (Py.getitem data "name") in
     do! _ := text_element "description" (Py.get data "description" (PyStr "")) in
     rest).

Definition matrix_combinations_param (data : obj) : XML.builder unit :=
  named_element data
    "hudson.plugins.matrix__configuration__parameter.MatrixCombinationsParameterDefinition"
    "matrix-combinations must have a name parameter."
    (do! combination_filter := XML.lift (Py.get data "filter" PyNone) in
     if Py.truth combination_filter then
       text_element "defaultCombinationFilter" (Returns combination_filter)
     else XML.ret tt).

Definition random_string_param (data : obj) : XML.builder unit :=
  named_element data
    "hudson.plugins.random__string__parameter.RandomStringParameterDefinition"
    "random-string must have a name parameter."
    (text_element "failedValidationMessage"
       (Py.get data "failed-validation-message" (PyStr ""))).

Definition copyartifact_build_selector_param (data : obj) : XML.builder unit :=
  XML.SubElement "hudson.plugins.copyartifact.BuildSelectorParameter" []
    (do! name := missing_named "name" (XML.lift (Py.getitem data "name")) in
     do! _ := text_element "name" (Returns name) in
     do! _ := text_element "description" (Py.get data "description" (PyStr "")) in
     copyartifact_build_selector data "defaultSelector").

Section Parameters.

(** [self.registry.dispatch(component_type, xml_parent, component)], on
    [xml_parent] *)
Variable dispatch : string → obj → XML.builder unit.

(** [Parameters.gen_xml(self, xml_parent, data)] *)
Definition gen_xml (data : obj) : XML.builder unit :=
  XML.find_or_create "properties"
    (do! parameters := XML.lift (Py.get data "parameters" (PyList [])) in
     if Py.truth parameters then
       XML.find_or_create "hudson.model.ParametersDefinitionProperty"
         (XML.find_or_create "parameterDefinitions"
            (do! parameters := XML.lift (Py.iterate parameters) in
             XML.for_each (λ param, dispatch "parameter" param) parameters))
     else XML.ret tt).

End Parameters.

End parameters.

(* ================================================================== *)
(** * [jenkins_jobs/modules/triggers.py] *)
(* ================================================================== *)

Module triggers.

Import helpers.

(** [hyphenize]: every capital letter from A to Z gives a hyphen and the
    small letter. *)
Definition is_capital (c : ascii) : bool :=
  let n := nat_of_ascii c in ((65 <=? n) && (n <=? 90))%nat.

Fixpoint hyphenize (attr : string) : string :=
  match attr with
  | EmptyString => EmptyString
  | String c rest =>
      if is_capital c then String "-" (String (Py.lower_char c) (hyphenize rest))
      else String c (hyphenize rest)
  end.

(** [convert_dict(d, old_keys)], on the items of [d] *)
Fixpoint convert_dict (d : list (string * obj)) (old_keys : list string)
    : list (string * obj) :=
  match old_keys with
  | [] => d
  | old_key :: rest =>
      match Py.assoc d old_key with
      | Some v =>
          let new_key := hyphenize old_key in
          convert_dict (Py.delitem (Py.setitem d new_key v) old_key) rest
      | None => convert_dict d rest
      end
  end.

(** [pollscm(registry, xml_parent, data)] *)
Definition pollscm (data : obj) : XML.builder unit :=
  do! settings :=
    XML.lift
      (match Py.getitem data "cron" with
       | Returns cron =>
           let? ipch :=
             (let? v := Py.get data "ignore-post-commit-hooks" (PyBool false) in
              Py.str_lower v) in
           Returns (cron, PyStr ipch)
       | Raises (Python (KeyError key)) => Raises (MissingAttributeErrorOf (KeyError key))
       | Raises (Python (TypeError _)) => Returns (data, PyStr "false")
       | Raises e => Raises e
       | Outside w => Outside w
       end) in
  let cron := settings.1 in
  let ipch := settings.2 in
  do! empty := XML.lift (Py.equal cron (PyStr "")) in
  if negb (Py.truth cron) && negb empty then
    XML.throw (InvalidAttributeError "cron" cron None)
  else
    XML.SubElement "hudson.triggers.SCMTrigger" []
      (do! _ := text_element "spec" (Returns cron) in
       text_element "ignorePostCommitHooks" (Returns ipch)).

(** [timed(registry, xml_parent, data)] *)
Definition timed (data : obj) : XML.builder unit :=
  XML.SubElement "hudson.triggers.TimerTrigger" [] (text_element "spec" (Returns data)).

Definition bitbucket (data : obj) : XML.builder unit :=
  XML.SubElement "com.cloudbees.jenkins.plugins.BitBucketTrigger" []
    (text_element "spec" (Returns (PyStr ""))).

Definition github (data : obj) : XML.builder unit :=
  XML.SubElement "com.cloudbees.jenkins.GitHubPushTrigger" []
    (text_element "spec" (Returns (PyStr ""))).

(** [rabbitmq(registry, xml_parent, data)]: the handler of [KeyError]
    would fail on [e.arg]. *)
Definition rabbitmq (data : obj) : XML.builder unit :=
  XML.SubElement "org.jenkinsci.plugins.rabbitmqbuildtrigger.RemoteBuildTrigger" []
    (do! _ := text_element "spec" (Returns (PyStr "")) in
     λ e, match text_element "remoteBuildToken"
                  (as_text (let? v := Py.get data "token" PyNone in Py.str v)) e with
          | (Raises (Python (KeyError _)), e') =>
              (Raises (Python (AttributeError "'KeyError' object has no attribute 'arg'")), e')
          | other => other
          end).

(** [parameterized_timer(parser, xml_parent, data)] *)
Definition parameterized_timer (data : obj) : XML.builder unit :=
  XML.SubElement "org.jenkinsci.plugins.parameterizedscheduler.ParameterizedTimerTrigger" []
    (do! _ := text_element "spec" (Returns (PyStr "")) in
     λ e, match text_element "parameterizedSpecification"
                  (as_text (let? v := Py.get data "cron" PyNone in Py.str v)) e with
          | (Raises (Python (KeyError key)), e') =>
              (Raises (MissingAttributeErrorOf (KeyError key)), e')
          | other => other
          end).

Section Triggers.

Variable dispatch : string → obj → XML.builder unit.

(** [Triggers.gen_xml(self, xml_parent, data)] *)
Definition gen_xml (data : obj) : XML.builder unit :=
  do! triggers := XML.lift (Py.get data "triggers" (PyList [])) in
  if negb (Py.truth triggers) then XML.ret tt
  else
    XML.SubElement "triggers" [("class", "vector")]
      (do! triggers := XML.lift (Py.iterate triggers) in
       XML.for_each (λ trigger, dispatch "trigger" trigger) triggers).

End Triggers.

End triggers.

(* ================================================================== *)
(** * What a component function does to the element it is given *)
(* ================================================================== *)

(** The parent with one more child, the last. *)
Definition appended (parent child : XML.element) : XML.element :=
  XML.with_children parent (XML.children parent ++ [child]).

(** A computation that changes the element it works on only by appending
    children to it. *)
Definition appends {A} (m : XML.builder A) : Prop :=
  ∀ e r e', m e = (r, e') → ∃ kids, e' = XML.with_children e (XML.children e ++ kids).

(** A computation that appends exactly one child, whether it returns or
    raises. *)
Definition appends_one {A} (m : XML.builder A) : Prop :=
  ∀ e r e', m e = (r, e') → ∃ child, e' = appended e child.

(** A computation that appends exactly one child, or fails and leaves the
    element as it was. *)
Definition appends_one_or_fails {A} (m : XML.builder A) : Prop :=
  ∀ e r e', m e = (r, e') →
    (e' = e ∧ ∀ a, r ≠ Returns a) ∨ ∃ child, e' = appended e child.

(** The component functions of [parameters.py] and [triggers.py] that are
    modelled, as functions of their data. *)
Definition component_functions : list (obj → XML.builder unit) :=
  [parameters.string_param; parameters.password_param; parameters.bool_param;
   parameters.file_param; parameters.text_param; parameters.label_param;
   parameters.hidden_param; parameters.promoted_param; parameters.run_param;
   parameters.validating_string_param; parameters.choice_param;
   parameters.matrix_combinations_param; parameters.random_string_param;
   parameters.copyartifact_build_selector_param;
   triggers.pollscm; triggers.timed; triggers.bitbucket; triggers.github;
   triggers.rabbitmq; triggers.parameterized_timer].

(* ================================================================== *)
(** * Properties: the search path *)
(* ================================================================== *)

Section SearchPath.

Context (H : host).

Lemma find_file_first filename before d after :
  Forall (λ d', isfile H (candidate H filename d') = false) before →
  isfile H (candidate H filename d) = true →
  _find_file H filename (before ++ d :: after) = candidate H filename d.
Proof.
  induction before as [|d' before IH]; intros Hbefore Hd; simpl.
  - fold (candidate H filename d). by rewrite Hd.
  - inversion_clear Hbefore as [|? ? Hd' Hrest].
    fold (candidate H filename d'). rewrite Hd'. by apply IH.
Qed.

Lemma find_file_none filename sp :
  Forall (λ d, isfile H (candidate H filename d) = false) sp →
  _find_file H filename sp = filename.
Proof.
  induction 1 as [|d sp Hd _ IH]; simpl; [done|].
  fold (candidate H filename d). by rewrite Hd.
Qed.

(** C6. The search path of a loader is the directories of the
    [search_path] keyword in the order given, then the directory of the
    stream when the stream has a name, then the current directory;
    [_find_file] returns the candidate of the first directory of the path
    that holds the file, and the file name itself, unchanged, when no
    directory does. *)
Theorem search_path_order (s : stream) (kw : load_kwargs) (st : pystate) (filename : string) :
  ∃ ld,
    LocalLoader.__init__ H s kw st = (Ok ld, st) ∧
    search_path ld
      = (normpath H <$> default [] (kw_search_path kw))
        ++ match stream_name s with
           | Some name => [normpath H (dirname H name)]
           | None => []
           end
        ++ [normpath H curdir] ∧
    (∀ before d after,
        search_path ld = before ++ d :: after →
        Forall (λ d', isfile H (candidate H filename d') = false) before →
        isfile H (candidate H filename d) = true →
        _find_file H filename (search_path ld) = candidate H filename d) ∧
    (Forall (λ d, isfile H (candidate H filename d) = false) (search_path ld) →
     _find_file H filename (search_path ld) = filename).
Proof.
  eexists; split; [reflexivity|]. split; [|split].
  - simpl. by destruct (kw_search_path kw).
  - intros before d after -> Hbefore Hd. by apply find_file_first.
  - apply find_file_none.
Qed.

End SearchPath.

Lemma search_path_order_witness :
  _find_file Demo.os "f.txt" ["A"; "B"; "."] = "A/f.txt".
Proof.
  destruct (search_path_order Demo.os (text_stream "")
              {| kw_search_path := Some ["A"; "B"]; kw_escape_callback := None |}
              initial_state "f.txt") as (ld & Hinit & _ & Hfirst & _).
  injection Hinit as <-.
  exact (Hfirst [] "A" ["B"; "."] eq_refl (List.Forall_nil _) eq_refl).
Defined.

(** A file found in no directory: the name comes back unchanged, and the
    failure is that of opening it. *)
Example find_file_unresolved :
  _find_file Demo.os "missing.sh" ["A"; "B"; "."] = "missing.sh" ∧
  (_open_file Demo.os YamlIncludeRaw Demo.ld (ScalarNode "!include-raw:" "missing.sh")
     initial_state).1 = Raise (IOError "missing.sh").
Proof. split; reflexivity. Qed.

(* ================================================================== *)
(** * Properties: formatting with no arguments *)
(* ================================================================== *)

Lemma render_field_no_kwargs name conv spec :
  match PyFormat.render_field None [] name conv spec with
  | Raise (KeyError _) | Raise IndexError | Raise (ValueError _) => True
  | _ => False
  end.
Proof.
  unfold PyFormat.render_field.
  destruct (PyFormat.field_name_split name) as [first others].
  destruct (PyFormat.get_integer first) as [[n|]|]; [done| |done].
  by destruct first.
Qed.

Ltac field_outcome :=
  match goal with
  | |- context [PyFormat.render_field None [] ?n ?c ?sp] =>
      pose proof (render_field_no_kwargs n c sp);
      destruct (PyFormat.render_field None [] n c sp) as [|[]| |]; simpl; done
  end.

Lemma scan_no_kwargs_below n :
  ∀ s, String.length s < n →
  ∀ m out, format_outcome (PyFormat.scan None [] s m out).
Proof.
  induction n as [|n IH]; intros s Hlen m out; [lia|].
  destruct s as [|c s]; destruct m; simpl in *; try done;
    repeat (case_match; subst; simpl in * ); try done;
    try (apply IH; simpl; lia); try field_outcome.
Qed.

Lemma scan_no_kwargs s m out : format_outcome (PyFormat.scan None [] s m out).
Proof. apply (scan_no_kwargs_below (S (String.length s))). lia. Qed.

(** With no keyword, formatting yields a string or raises [KeyError],
    [IndexError] or [ValueError]. *)
Lemma format_no_kwargs s : format_outcome (PyFormat.format s []).
Proof. apply scan_no_kwargs. Qed.

Lemma append_cons (c : ascii) (s t : string) : String c s +:+ t = String c (s +:+ t).
Proof. reflexivity. Qed.

Lemma append_empty_r (s : string) : s +:+ "" = s.
Proof. induction s as [|x s IH]; [done | by rewrite append_cons, IH]. Qed.

Lemma append_assoc (a b c : string) : (a +:+ b) +:+ c = a +:+ (b +:+ c).
Proof. induction a as [|x a IH]; [done | by rewrite !append_cons, IH]. Qed.

Lemma snoc_append (out : string) (c : ascii) (s : string) :
  PyFormat.snoc out c +:+ s = out +:+ String c s.
Proof. unfold PyFormat.snoc. by rewrite append_assoc. Qed.

Lemma scan_brace_free missing kwargs s out :
  brace_free s → PyFormat.scan missing kwargs s PyFormat.InText out = Ok (out +:+ s).
Proof.
  revert out. induction s as [|c s IH]; intros out Hs; simpl.
  - by rewrite append_empty_r.
  - destruct (Hs c) as [Ho Hc]; [by left|].
    apply Ascii.eqb_neq in Ho, Hc. rewrite Ho, Hc.
    rewrite IH; [|intros c' Hc'; apply Hs; by right].
    by rewrite snoc_append.
Qed.

(** A path without braces formats to itself. *)
Lemma format_brace_free s kwargs : brace_free s → PyFormat.format s kwargs = Ok s.
Proof. intros Hs. unfold PyFormat.format. by rewrite scan_brace_free. Qed.

(* ================================================================== *)
(** * Properties: eager and lazy inclusion *)
(* ================================================================== *)

Section Inclusion.

Context (H : host).

(** C2. A path is deferred as a [LazyLoader] exactly when formatting it
    with no argument raises [KeyError]; a path whose formatting succeeds is
    read at parse time; a path whose formatting raises [IndexError] or
    [ValueError] is neither: that exception leaves [_open_file]. *)
Theorem open_file_lazy_exactly_on_KeyError
    (cls : include_class) (ld : loader) (tag path : string) (st : pystate) :
  let r := _open_file H cls ld (ScalarNode tag path) st in
  r.2 = st ∧
  format_outcome (PyFormat.format path []) ∧
  ((∃ lz, r.1 = Ok (Lazy lz)) ↔ (∃ k, PyFormat.format path [] = Raise (KeyError k))) ∧
  (∀ k, PyFormat.format path [] = Raise (KeyError k) →
     r.1 = Ok (Lazy {| _cls := cls; _loader := ld; _node_tag := tag; _node_value := path |})) ∧
  (∀ t, PyFormat.format path [] = Ok t → r.1 = read_found H ld path) ∧
  (∀ e, PyFormat.format path [] = Raise e → (∀ k, e ≠ KeyError k) → r.1 = Raise e).
Proof.
  pose proof (format_no_kwargs path) as Hout.
  unfold _open_file, read_found, bind, lift, construct_yaml_str; simpl.
  destruct (PyFormat.format path []) as [t|e|w|] eqn:Hfmt; [| |done|done].
  - destruct (read_text H _) eqn:Hread; simpl;
      (split; [done|]; split; [done|]; split; [|split; [|split]]);
      try done; try (split; [intros [? [=]]|intros [? [=]]]).
    all: intros ? [=]; done.
  - destruct e; try done; simpl;
      (split; [done|]; split; [done|]; split; [|split; [|split]]);
      try done; try (split; [intros [? [=]]|intros [? [=]]]); try naive_solver.
Qed.

End Inclusion.

(** C2, as stated, fails on the path [a}]: formatting it raises
    [ValueError], which is not caught, so the inclusion is neither deferred
    nor resolved and the error leaves the parse. *)
Lemma open_file_format_error_escapes :
  PyFormat.format "a}" [] = Raise (ValueError "Single '}' encountered in format string") ∧
  (_open_file Demo.os YamlIncludeRaw Demo.ld (ScalarNode "!include-raw:" "a}") initial_state).1
    = Raise (ValueError "Single '}' encountered in format string").
Proof. split; reflexivity. Qed.

Lemma open_file_lazy_exactly_on_KeyError_witness :
  (_open_file Demo.os YamlIncludeRaw Demo.ld
     (ScalarNode "!include-raw:" "{version}/file.txt") initial_state).1
  = Ok (Lazy {| _cls := YamlIncludeRaw; _loader := Demo.ld;
                _node_tag := "!include-raw:"; _node_value := "{version}/file.txt" |}).
Proof.
  exact (proj1 (proj2 (proj2 (proj2
    (open_file_lazy_exactly_on_KeyError Demo.os YamlIncludeRaw Demo.ld
       "!include-raw:" "{version}/file.txt" initial_state)))) "version" eq_refl).
Defined.

Section Escaping.

Context (H : host) (co : loader → node → M pystate value).

(** [!include-raw-escape:] on one path that is resolved at parse time: the
    text read is passed through the escape callback, once. *)
Lemma raw_escape_eager (ld : loader) (tag path t text : string) (st : pystate) :
  PyFormat.format path [] = Ok t →
  read_text H (_find_file H path (search_path ld)) = Some text →
  from_yaml H co YamlIncludeRawEscape ld (ScalarNode tag path) st
  = (call_escape H (escape_callback ld) (VStr text), st).
Proof.
  intros Hfmt Hread.
  unfold from_yaml, YamlInclude_from_yaml, _from_file, _open_file, bind, lift; simpl.
  by rewrite Hfmt, Hread.
Qed.

(** [!include-raw-escape:] on one path with a placeholder: the callback is
    not called and the [LazyLoader] holds the class [YamlIncludeRaw]. *)
Lemma raw_escape_lazy (ld : loader) (tag path k : string) (st : pystate) :
  PyFormat.format path [] = Raise (KeyError k) →
  from_yaml H co YamlIncludeRawEscape ld (ScalarNode tag path) st
  = (Ok (VLazy {| _cls := YamlIncludeRaw; _loader := ld;
                  _node_tag := tag; _node_value := path |}), st).
Proof.
  intros Hfmt.
  unfold from_yaml, YamlInclude_from_yaml, _from_file, _open_file, bind, lift; simpl.
  by rewrite Hfmt.
Qed.

(** On a sequence of paths of which one is deferred, [YamlIncludeRaw.from_yaml]
    returns a [LazyLoaderCollection], which is not a [LazyLoader]: the
    escape callback is called on the collection, and [_escape] raises. *)
Lemma raw_escape_lazy_sequence (ld : loader) (tag : string) (items : list node)
    (data : list value) (st st' : pystate) :
  escape_callback ld = EscapeDefault →
  YamlInclude_from_yaml H co YamlIncludeRaw ld (SequenceNode tag items) st
    = (Ok (VLazyColl data), st') →
  from_yaml H co YamlIncludeRawEscape ld (SequenceNode tag items) st
    = (Raise (TypeError "expected string or bytes-like object"), st').
Proof.
  intros Hcb Hraw. unfold from_yaml, bind. rewrite Hraw. simpl.
  unfold lift, call_escape. by rewrite Hcb.
Qed.

End Escaping.

(** The default escape doubles each brace, once. *)
Example double_braces_once :
  double_braces "echo ${HOME}" = "echo ${{HOME}}" ∧ double_braces "{" = "{{".
Proof. split; reflexivity. Qed.

(** C4, at the failing input: [!include-raw-escape:] on the list
    [["{version}/file.txt"]]. The path is deferred, the escape step is not
    skipped: [_escape] receives the collection and raises [TypeError], where
    the claim has the escape skipped and the raw text returned later. *)
Lemma raw_escape_lazy_list_raises :
  (from_yaml Demo.os (construct_object Demo.os 1) YamlIncludeRawEscape Demo.ld
     (SequenceNode "!include-raw-escape:" [ScalarNode STR_TAG "{version}/file.txt"])
     initial_state).1
  = Raise (TypeError "expected string or bytes-like object").
Proof. reflexivity. Qed.

Section LazyResolution.

Context (H : host) (co : loader → node → M pystate value).

Lemma from_yaml_lazy (cls : include_class) (ld : loader) (tag p k : string) (st : pystate) :
  PyFormat.format p [] = Raise (KeyError k) →
  from_yaml H co cls ld (ScalarNode tag p) st
  = (Ok (VLazy {| _cls := match cls with YamlIncludeRawEscape => YamlIncludeRaw | _ => cls end;
                  _loader := ld; _node_tag := tag; _node_value := p |}), st).
Proof.
  intros Hfmt.
  destruct cls;
    unfold from_yaml, YamlInclude_from_yaml, _from_file, _open_file, bind, lift; simpl;
    by rewrite Hfmt.
Qed.

(** C7. A path [p] with a placeholder, met under the tag of class [cls],
    yields a [LazyLoader] that holds [p], the loader, and the class [cls],
    except that it holds [YamlIncludeRaw] when [cls] is
    [YamlIncludeRawEscape]. Formatting this object with arguments that turn
    [p] into [q] returns what [from_yaml] of the class it holds returns on
    [q] with the same loader: the search, the read and, for [YamlInclude],
    the nested parse, and no escaping. *)
Theorem lazy_format_is_eager_include (fuel : nat) (cls : include_class) (ld : loader)
    (tag p k q : string) (kwargs : list (string * value)) (st st' : pystate) :
  PyFormat.format p [] = Raise (KeyError k) →
  PyFormat.format p kwargs = Ok q →
  let held := match cls with YamlIncludeRawEscape => YamlIncludeRaw | _ => cls end in
  let lz := {| _cls := held; _loader := ld; _node_tag := tag; _node_value := p |} in
  from_yaml H co cls ld (ScalarNode tag p) st = (Ok (VLazy lz), st) ∧
  (LazyLoader.format H fuel lz kwargs st').1.1
    = (from_yaml H (construct_object H fuel) held ld (ScalarNode tag q) st').1 ∧
  (LazyLoader.format H fuel lz kwargs st').2
    = (from_yaml H (construct_object H fuel) held ld (ScalarNode tag q) st').2.
Proof.
  intros Hp Hq held lz. split; [by eapply from_yaml_lazy|].
  unfold LazyLoader.format; subst lz; simpl. rewrite Hq.
  by destruct (from_yaml H (construct_object H fuel) held ld (ScalarNode tag q) st').
Qed.

(** [LazyLoader.format] stores the formatted path in the object. *)
Lemma lazy_format_stores_path (fuel : nat) (self : lazy_loader) (q : string)
    (kwargs : list (string * value)) (st : pystate) :
  PyFormat.format (_node_value self) kwargs = Ok q →
  _node_value (LazyLoader.format H fuel self kwargs st).1.2 = q.
Proof.
  intros Hq. unfold LazyLoader.format. rewrite Hq.
  by destruct (from_yaml _ _ _ _ _ _).
Qed.

End LazyResolution.

Lemma lazy_format_is_eager_include_witness :
  (LazyLoader.format Demo.os 1
     {| _cls := YamlIncludeRaw; _loader := Demo.ld;
        _node_tag := "!include-raw:"; _node_value := "{version}/file.txt" |}
     [("version", VStr "1.0")] initial_state).1.1
  = (from_yaml Demo.os (construct_object Demo.os 1) YamlIncludeRaw Demo.ld
       (ScalarNode "!include-raw:" "1.0/file.txt") initial_state).1.
Proof.
  exact (proj1 (proj2
    (lazy_format_is_eager_include Demo.os (construct_object Demo.os 0) 1 YamlIncludeRaw
       Demo.ld "!include-raw:" "{version}/file.txt" "version" "1.0/file.txt"
       [("version", VStr "1.0")] initial_state initial_state eq_refl eq_refl))).
Defined.

(** C7, as stated, fails for [!include-raw-escape:]: the reference created
    from ["{version}/file.txt"] resolves with [version = 1.0] to the text of
    the file as it is, while including ["1.0/file.txt"] through the same
    tag at parse time returns the escaped text. *)
Lemma lazy_raw_escape_resolves_unescaped :
  ∃ lz,
    (from_yaml Demo.os (construct_object Demo.os 1) YamlIncludeRawEscape Demo.ld
       (ScalarNode "!include-raw-escape:" "{version}/file.txt") initial_state).1
      = Ok (VLazy lz) ∧
    (LazyLoader.format Demo.os 1 lz [("version", VStr "1.0")] initial_state).1.1
      = Ok (VStr "echo ${HOME}") ∧
    (from_yaml Demo.os (construct_object Demo.os 1) YamlIncludeRawEscape Demo.ld
       (ScalarNode "!include-raw-escape:" "1.0/file.txt") initial_state).1
      = Ok (VStr "echo ${{HOME}}").
Proof. eexists. split; [reflexivity|]. split; reflexivity. Qed.

(** C8, at the failing input: resolving the reference to
    ["{version}/file.txt"] with [version = 1.0] overwrites the stored path
    with ["1.0/file.txt"]; resolving the same object again with
    [version = 2.0] reads the file of 1.0 once more. *)
Lemma lazy_format_overwrites_stored_path :
  let lz := {| _cls := YamlIncludeRaw; _loader := Demo.ld;
               _node_tag := "!include-raw:"; _node_value := "{version}/file.txt" |} in
  let first := LazyLoader.format Demo.os 1 lz [("version", VStr "1.0")] initial_state in
  let second := LazyLoader.format Demo.os 1 first.1.2 [("version", VStr "2.0")] first.2 in
  first.1.1 = Ok (VStr "echo ${HOME}") ∧
  _node_value first.1.2 = "1.0/file.txt" ∧
  first.1.2 ≠ lz ∧
  second.1.1 = Ok (VStr "echo ${HOME}") ∧
  (from_yaml Demo.os (construct_object Demo.os 1) YamlIncludeRaw Demo.ld
     (ScalarNode "!include-raw:" "2.0/file.txt") initial_state).1 = Ok (VStr "echo two").
Proof. repeat split; try reflexivity. discriminate. Qed.

(* ================================================================== *)
(** * Properties: a single keyword field *)
(* ================================================================== *)

Lemma field_name_split_plain x :
  forallb field_char (list_ascii_of_string x) = true →
  PyFormat.field_name_split x = (x, "").
Proof.
  induction x as [|c x IH]; simpl; [done|].
  intros [Hc Hx]%andb_prop. rewrite (IH Hx).
  unfold field_char in Hc. apply negb_true_iff in Hc.
  repeat (apply orb_false_elim in Hc as [Hc ?]).
  by repeat match goal with E : (_ =? _)%char = false |- _ => rewrite E; clear E end.
Qed.

Lemma render_keyword missing kwargs x v :
  keyword_name x = true →
  PyFormat.lookup_kw kwargs x = Some (VStr v) →
  PyFormat.render_field missing kwargs x None "" = Ok v.
Proof.
  destruct x as [|c x]; [done|]. intros [Hd Hx]%andb_prop Hv.
  unfold PyFormat.render_field. rewrite (field_name_split_plain _ Hx).
  simpl. apply negb_true_iff in Hd. rewrite Hd. rewrite Hv. by destruct missing.
Qed.

Lemma scan_name missing kwargs x : ∀ acc tail out,
  forallb field_char (list_ascii_of_string x) = true →
  PyFormat.scan missing kwargs (x +:+ String "}" tail) (PyFormat.InName acc) out
  = res_bind (PyFormat.render_field missing kwargs (acc +:+ x) None "")
      (λ text, PyFormat.scan missing kwargs tail PyFormat.InText (out +:+ text)).
Proof.
  induction x as [|c x IH]; intros acc tail out Hx.
  - simpl. by rewrite append_empty_r.
  - simpl in Hx. apply andb_prop in Hx as [Hc Hx].
    rewrite append_cons. simpl.
    unfold field_char in Hc. apply negb_true_iff in Hc.
    repeat (apply orb_false_elim in Hc as [Hc ?]).
    repeat match goal with E : (_ =? _)%char = false |- _ => rewrite E; clear E end.
    rewrite IH by done. by rewrite snoc_append.
Qed.

(** Formatting ["{x}"] with [x] bound to the string [v] gives [v]. *)
Lemma scan_single_field missing kwargs x v :
  keyword_name x = true →
  PyFormat.lookup_kw kwargs x = Some (VStr v) →
  PyFormat.scan missing kwargs ("{" +:+ x +:+ "}") PyFormat.InText "" = Ok v.
Proof.
  intros Hx Hv. pose proof Hx as Hx'.
  destruct x as [|c x]; [done|]. apply andb_prop in Hx' as [_ Hall].
  change ("{" +:+ String c x +:+ "}") with (String "{" (String c x +:+ "}")).
  rewrite append_cons.
  cbn [PyFormat.scan]. change (Ascii.eqb "{" "{") with true. cbv iota.
  simpl in Hall. apply andb_prop in Hall as [Hc Hall].
  unfold field_char in Hc. apply negb_true_iff in Hc.
  repeat (apply orb_false_elim in Hc as [Hc ?]).
  repeat match goal with E : (_ =? _)%char = false |- _ => rewrite E; clear E end.
  rewrite scan_name by done.
  change (PyFormat.snoc "" c +:+ x) with (String c x).
  by rewrite (render_keyword _ _ _ _ Hx Hv).
Qed.

(* ================================================================== *)
(** * Properties: dispatch *)
(* ================================================================== *)

Section Dispatch.

Import ModuleRegistry.

Context (self : registry) (component_type : string) (ep : entry_point).
Context (Hep : modules_by_component_type self !! component_type = Some ep).

(** The macro that [dispatch] finds for a name, [None] included. *)
Local Abbreviation macro_for name :=
  (default VNone (default ∅ (parser_data self !! component_type) !! name)).

Lemma collect_eps_any_name n1 n2 l acc eps :
  collect_eps component_type n1 l acc = Ok eps →
  collect_eps component_type n2 l acc = Ok eps.
Proof.
  revert acc. induction l as [|[ep_name func] l IH]; intros acc; simpl; [done|].
  destruct (acc !! ep_name); [done|]. apply IH.
Qed.

Lemma entry_points_any_name n1 n2 st eps st1 :
  entry_points component_type n1 ep st = (Ok eps, st1) →
  entry_points component_type n2 ep st = (Ok eps, st1).
Proof.
  unfold entry_points. destruct (entry_points_cache st !! _); [done|].
  destruct (collect_eps component_type n1 _ _) as [e| | |] eqn:Hc; try done.
  intros [= <- <-]. by rewrite (collect_eps_any_name _ n2 _ _ _ Hc).
Qed.

Lemma entry_points_cached n st eps st1 :
  entry_points component_type n ep st = (Ok eps, st1) →
  entry_points_cache st1 !! component_list_type ep = Some eps ∧
  xml_parent st1 = xml_parent st ∧ masked_warned st1 = masked_warned st.
Proof.
  unfold entry_points. destruct (entry_points_cache st !! _) eqn:Hc.
  - by intros [= <- <-].
  - destruct (collect_eps _ _ _ _); try done. intros [= <- <-]. simpl.
    by rewrite lookup_insert_eq.
Qed.

Lemma entry_points_hit n st eps :
  entry_points_cache st !! component_list_type ep = Some eps →
  entry_points component_type n ep st = (Ok eps, st).
Proof. intros Hc. unfold entry_points. by rewrite Hc. Qed.

(** A name that is a macro: the body is dispatched item by item, each
    with the data of the invocation as its template data. *)
Lemma dispatch_macro fuel component template_data st name data eps st1 body :
  name_and_data self component template_data = Ok (name, data) →
  entry_points component_type name ep st = (Ok eps, st1) →
  truthy (macro_for name) = Some true →
  macro_body (macro_for name) (component_list_type ep) = Ok body →
  dispatch (S fuel) self component_type component template_data st
  = for_each (λ b, dispatch fuel self component_type b data) body
      (warn_masked name eps st1).2.
Proof.
  intros Hname Heps Hmacro Hbody. simpl. rewrite Hep.
  unfold bind at 1. unfold lift at 1. rewrite Hname. simpl.
  unfold bind at 1. rewrite Heps. rewrite Hmacro.
  unfold bind at 1. unfold warn_masked.
  destruct (_ && _); simpl; unfold bind at 1, lift at 1; by rewrite Hbody.
Qed.

(** A name that is no macro and is a generator: the generator is called
    with the data of the invocation. *)
Lemma dispatch_generator fuel component template_data st name data eps st1 func :
  name_and_data self component template_data = Ok (name, data) →
  entry_points component_type name ep st = (Ok eps, st1) →
  truthy (macro_for name) = Some false →
  eps !! name = Some func →
  dispatch (S fuel) self component_type component template_data st
  = call_generator func data st1.
Proof.
  intros Hname Heps Hmacro Hfunc. simpl. rewrite Hep.
  unfold bind at 1. unfold lift at 1. rewrite Hname. simpl.
  unfold bind at 1. rewrite Heps. by rewrite Hmacro, Hfunc.
Qed.

(** C9. When the component type is registered, the invocation yields the
    name [name], the entry points of the type are [eps], and [name] is
    neither in the macros of the type nor in [eps], [dispatch] raises
    [JenkinsJobsException] with the message
    [Unknown entry point or macro 'name' for component type: 'type'.],
    which holds the name and the component type. *)
Theorem dispatch_unknown_name fuel component template_data st name data eps st1 :
  name_and_data self component template_data = Ok (name, data) →
  entry_points component_type name ep st = (Ok eps, st1) →
  default ∅ (parser_data self !! component_type) !! name = None →
  eps !! name = None →
  dispatch (S fuel) self component_type component template_data st
  = (Raise (JenkinsJobsException (unknown_entry_point name component_type)), st1) ∧
  unknown_entry_point name component_type
  = "Unknown entry point or macro '" +:+ name +:+ "' for component type: '"
    +:+ component_type +:+ "'.".
Proof.
  intros Hname Heps Hmacro Hfunc. split; [|done]. simpl. rewrite Hep.
  unfold bind at 1. unfold lift at 1. rewrite Hname. simpl.
  unfold bind at 1. rewrite Heps. by rewrite Hmacro, Hfunc.
Qed.

(** C10. Of a component given as a mapping with several entries,
    [dispatch] uses the first entry as name and data; the others change
    nothing, and with no template data the first statement raises nothing. *)
Theorem dispatch_uses_first_entry fuel name data rest template_data st :
  dispatch fuel self component_type (VDict ((name, data) :: rest)) template_data st
  = dispatch fuel self component_type (VDict [(name, data)]) template_data st ∧
  name_and_data self (VDict ((name, data) :: rest)) (VDict []) = Ok (name, data).
Proof. split; [|done]. by destruct fuel. Qed.

End Dispatch.

Lemma deep_format_single_field (f x v : string) (allow_empty : bool) :
  keyword_name x = true →
  deep_format (VDict [(f, VStr ("{" +:+ x +:+ "}"))]) [(x, VStr v)] allow_empty
  = Ok (VDict [(f, VStr v)]).
Proof.
  intros Hx. cbn [deep_format].
  rewrite (scan_single_field _ [(x, VStr v)] x v);
    [done | done | simpl; by rewrite String.eqb_refl].
Qed.

Section MacroExpansion.

Import ModuleRegistry.

Context (self : registry) (component_type : string) (ep : entry_point).
Context (Hep : modules_by_component_type self !! component_type = Some ep).

(** C3. Let [G] be a generator of the component type that no macro
    masks, and [M] a macro whose body is the one invocation
    [G: {f: "{x}"}]. Dispatching [M: {x: v}] and dispatching [G: {f: v}]
    return the same outcome and leave the same element and the same entry
    point cache: both call [G] on the element with the data [{f: v}].
    In general the invocation of a macro is the dispatch of each item of
    its body, in order, with the data of the invocation as template data. *)
Theorem macro_expansion_equivalence (fuel fuel' : nat) (M G x f v : string)
    (func : generator) (definition : list (string * value))
    (eps : gmap string generator) (st st1 : dstate) :
  entry_points component_type M ep st = (Ok eps, st1) →
  eps !! G = Some func →
  default ∅ (parser_data self !! component_type) !! G = None →
  default ∅ (parser_data self !! component_type) !! M = Some (VDict definition) →
  OrderedDict.getitem definition (component_list_type ep)
    = Some (VList [VDict [(G, VDict [(f, VStr ("{" +:+ x +:+ "}"))])]]) →
  keyword_name x = true →
  let via_macro :=
    dispatch (S (S fuel)) self component_type (VDict [(M, VDict [(x, VStr v)])]) (VDict []) st in
  let direct :=
    dispatch (S fuel') self component_type (VDict [(G, VDict [(f, VStr v)])]) (VDict []) st in
  via_macro.1 = direct.1 ∧
  xml_parent via_macro.2 = xml_parent direct.2 ∧
  entry_points_cache via_macro.2 = entry_points_cache direct.2 ∧
  direct = call_generator func (VDict [(f, VStr v)]) st1 ∧
  via_macro
  = for_each (λ b, dispatch (S fuel) self component_type b (VDict [(x, VStr v)]))
      [VDict [(G, VDict [(f, VStr ("{" +:+ x +:+ "}"))])]]
      (warn_masked M eps st1).2.
Proof.
  intros Heps HG HGmacro HM Hbody Hx via_macro direct.
  assert (Hdef : definition ≠ []) by (by destruct definition).
  assert (Hexp : via_macro
    = for_each (λ b, dispatch (S fuel) self component_type b (VDict [(x, VStr v)]))
        [VDict [(G, VDict [(f, VStr ("{" +:+ x +:+ "}"))])]]
        (warn_masked M eps st1).2).
  { subst via_macro. eapply dispatch_macro; [done|done|exact Heps| |].
    - rewrite HM. simpl. by rewrite bool_decide_eq_false_2.
    - rewrite HM. simpl. by rewrite Hbody. }
  assert (Hdir : direct = call_generator func (VDict [(f, VStr v)]) st1).
  { subst direct. eapply dispatch_generator; [done|done| | |done].
    - by apply (entry_points_any_name _ _ M).
    - by rewrite HGmacro. }
  destruct (entry_points_cached _ _ _ _ _ _ Heps) as (Hcache & Hxml & _).
  set (st2 := (warn_masked M eps st1).2) in *.
  assert (Hst2 : xml_parent st2 = xml_parent st1 ∧
                 entry_points_cache st2 = entry_points_cache st1).
  { subst st2. unfold warn_masked. by destruct (_ && _). }
  destruct Hst2 as [Hxml2 Hcache2].
  assert (Hinner :
    dispatch (S fuel) self component_type
      (VDict [(G, VDict [(f, VStr ("{" +:+ x +:+ "}"))])]) (VDict [(x, VStr v)]) st2
    = call_generator func (VDict [(f, VStr v)]) st2).
  { eapply dispatch_generator; [done| | |by rewrite HGmacro|done].
    - unfold name_and_data. simpl truthy. cbv iota.
      by rewrite deep_format_single_field.
    - apply entry_points_hit. by rewrite Hcache2. }
  rewrite Hexp, Hdir. cbn [for_each]. unfold bind. cbn beta. rewrite Hinner.
  unfold call_generator, ret. rewrite Hxml2.
  destruct (func (xml_parent st1) _); simpl; by rewrite ?Hcache2.
Qed.

End MacroExpansion.

Lemma macro_expansion_equivalence_witness :
  (ModuleRegistry.dispatch 2 Demo.reg "builder"
     (VDict [("run", VDict [("x", VStr "42")])]) (VDict []) Demo.start).1
  = (ModuleRegistry.dispatch 1 Demo.reg "builder"
       (VDict [("shell", VDict [("value", VStr "42")])]) (VDict []) Demo.start).1.
Proof.
  refine (proj1 (macro_expansion_equivalence Demo.reg "builder" Demo.builders _
    0 0 "run" "shell" "x" "value" "42" Demo.shell
    [("name", VStr "run");
     ("builders", VList [VDict [("shell", VDict [("value", VStr "{x}")])]])]
    {["shell" := Demo.shell]} Demo.start
    {| xml_parent := Element "builders" "" []; masked_warned := ∅;
       entry_points_cache := {["builders" := {["shell" := Demo.shell]}]} |}
    _ _ _ _ _ _)); try reflexivity.
  all: by vm_compute.
Defined.

Lemma dispatch_unknown_name_witness :
  (ModuleRegistry.dispatch 1 Demo.reg "builder" (VStr "nope") (VDict []) Demo.start).1
  = Raise (JenkinsJobsException
             "Unknown entry point or macro 'nope' for component type: 'builder'.").
Proof.
  refine (f_equal fst (proj1 (dispatch_unknown_name Demo.reg "builder" Demo.builders _
    0 (VStr "nope") (VDict []) Demo.start "nope" (VDict [])
    {["shell" := Demo.shell]}
    {| xml_parent := Element "builders" "" []; masked_warned := ∅;
       entry_points_cache := {["builders" := {["shell" := Demo.shell]}]} |}
    _ _ _ _))); try reflexivity.
  all: by vm_compute.
Defined.

(* ================================================================== *)
(** * Properties: the order of keys *)
(* ================================================================== *)

Lemma setitem_new (m : list (string * value)) (k : string) (v : value) :
  k ∉ OrderedDict.keys m → OrderedDict.setitem m k v = m ++ [(k, v)].
Proof.
  unfold OrderedDict.keys.
  induction m as [|[k' v'] m IH]; simpl; [done|]. intros Hk.
  apply not_elem_of_cons in Hk as [Hne Hk].
  destruct (String.eqb_spec k' k) as [->|_]; [done|]. by rewrite IH.
Qed.

Lemma update_fresh (acc m : list (string * value)) :
  NoDup (OrderedDict.keys acc ++ OrderedDict.keys m) → OrderedDict.update acc m = acc ++ m.
Proof.
  unfold OrderedDict.update, OrderedDict.keys.
  revert acc. induction m as [|[k v] m IH]; intros acc Hnd; simpl.
  - by rewrite app_nil_r.
  - rewrite setitem_new.
    + rewrite IH; [by rewrite <- app_assoc|].
      rewrite fmap_app. simpl. by rewrite <- app_assoc.
    + apply NoDup_app in Hnd as (_ & Hdisj & _).
      intros Hin. apply (Hdisj k Hin). simpl. by left.
Qed.

(** Inserting pairs with distinct keys into an empty [OrderedDict], one
    after the other, leaves them in the order of insertion. *)
Lemma setitem_fold_fresh (kvs acc : list (string * value)) :
  NoDup (OrderedDict.keys acc ++ OrderedDict.keys kvs) →
  fold_left (λ m kv, OrderedDict.setitem m kv.1 kv.2) kvs acc = acc ++ kvs.
Proof. apply update_fresh. Qed.

Lemma flatten_pairs_string_keyed merged ks pairs :
  string_keyed ks pairs → flatten_pairs merged pairs = Ok ([], pairs).
Proof.
  unfold string_keyed. revert ks.
  induction pairs as [|[key_node value_node] pairs IH]; intros ks Hks; simpl; [done|].
  destruct ks as [|k ks]; [done|]. simpl in Hks. injection Hks as -> Hks.
  simpl. by rewrite (IH ks).
Qed.

Lemma compose_pairs_string_keyed items ks : ∀ t ps t',
  items.*1 = EScalar None STR_TAG <$> ks →
  mapM (λ '(k, v),
          let! item_key := compose_node k in
          let! item_value := compose_node v in
          ret (item_key, item_value)) items t = (Ok ps, t') →
  string_keyed ks ps.
Proof.
  unfold string_keyed. revert ks.
  induction items as [|[k v] items IH]; intros ks t ps t' Hks; simpl.
  - intros [= <- <-]. by destruct ks.
  - destruct ks as [|k0 ks]; [done|]. simpl in Hks. injection Hks as -> Hks.
    unfold bind at 1. unfold bind at 1. simpl.
    unfold bind at 1. destruct (compose_node v _) as [[nv| | |] t1]; try done.
    unfold ret at 1. unfold bind at 1.
    destruct (mapM _ items t1) as [[ps'| | |] t2] eqn:Hrest; try done.
    intros [= <- <-]. simpl. f_equal. by eapply IH.
Qed.

Section MappingOrder.

Context (H : host).

Lemma construct_string_scalar fuel ld k st :
  construct_object H (S fuel) ld (ScalarNode STR_TAG k) st = (Ok (VStr k), st).
Proof. reflexivity. Qed.

Lemma construct_string_key fuel ld k st v st' :
  construct_object H fuel ld (ScalarNode STR_TAG k) st = (Ok v, st') →
  v = VStr k ∧ st' = st.
Proof.
  destruct fuel; [done|]. rewrite construct_string_scalar. by intros [= <- <-].
Qed.

(** The loop of [construct_yaml_map] inserts the keys in the order of the
    pairs of the node. *)
Lemma construct_pairs_in_order fuel ld ks :
  ∀ pairs (acc : M pystate (list (string * value))) st mapping st',
  string_keyed ks pairs →
  fold_left
    (λ (acc : M pystate (list (string * value))) '(key_node, value_node),
       let! mapping := acc in
       let! key := construct_object H fuel ld key_node in
       let! key := lift (hashable_key key) in
       let! value := construct_object H fuel ld value_node in
       ret (OrderedDict.setitem mapping key value))
    pairs acc st = (Ok mapping, st') →
  ∃ mapping0 st0 values,
    acc st = (Ok mapping0, st0) ∧ length values = length ks ∧
    mapping = fold_left (λ m kv, OrderedDict.setitem m kv.1 kv.2) (zip ks values) mapping0.
Proof.
  unfold string_keyed.
  induction ks as [|k ks IH]; intros pairs acc st mapping st' Hks Hfold.
  - destruct pairs; [|done]. simpl in Hfold. by exists mapping, st', [].
  - destruct pairs as [|[key_node value_node] pairs]; [done|].
    simpl in Hks. injection Hks as -> Hks. simpl in Hfold.
    destruct (IH _ _ _ _ _ Hks Hfold) as (m1 & st1 & values & Hstep & Hlen & ->).
    unfold bind at 1 in Hstep.
    destruct (acc st) as [[m0| | |] st0] eqn:Hacc; try done.
    unfold bind at 1 in Hstep.
    destruct (construct_object H fuel ld (ScalarNode STR_TAG k) st0)
      as [[key| | |] st0'] eqn:Hkey; try done.
    apply construct_string_key in Hkey as [-> ->].
    unfold bind at 1, lift at 1 in Hstep. simpl in Hstep.
    unfold bind at 1 in Hstep.
    destruct (construct_object H fuel ld value_node st0) as [[v| | |] st2]; try done.
    injection Hstep as <- <-.
    exists m0, st0, (v :: values). split; [done|]. split; [simpl; by f_equal|done].
Qed.

(** A mapping node with distinct string keys constructs to a dictionary
    that iterates over the keys in the order of the node. *)
Lemma construct_mapping_keys fuel ld ks pairs st doc st' :
  string_keyed ks pairs → NoDup ks →
  construct_object H fuel ld (MappingNode MAP_TAG pairs) st = (Ok doc, st') →
  ∃ d, doc = VDict d ∧ OrderedDict.keys d = ks.
Proof.
  intros Hks Hnd. destruct fuel as [|fuel]; [done|].
  change (construct_object H (S fuel) ld (MappingNode MAP_TAG pairs))
    with (construct_yaml_map (construct_object H fuel) ld (MappingNode MAP_TAG pairs)).
  unfold construct_yaml_map. unfold bind at 1, lift at 1. cbn [flatten_mapping].
  rewrite (flatten_pairs_string_keyed _ ks) by done. cbn [res_bind app].
  unfold bind at 1.
  match goal with
  | |- context [fold_left ?f pairs ?a st] => destruct (fold_left f pairs a st) as [[mapping| | |] st1] eqn:Hfold
  end; try done.
  intros [= <- <-].
  apply (construct_pairs_in_order _ _ ks) in Hfold as (m0 & st0 & values & Hacc & Hlen & ->);
    [|done].
  injection Hacc as <- <-.
  assert (Hkeys : OrderedDict.keys (zip ks values) = ks).
  { unfold OrderedDict.keys. by rewrite fst_zip by lia. }
  eexists; split; [done|].
  rewrite (setitem_fold_fresh _ []) by (simpl; by rewrite Hkeys).
  simpl. rewrite update_fresh by (simpl; by rewrite Hkeys). done.
Qed.

End MappingOrder.

#[local] Instance by_key_total {A} : Total (@by_key A).
Proof. intros a b. unfold by_key. apply (total String.le). Qed.

(** Sorting the items of a dictionary by key sorts its keys. *)
Lemma sorted_items_keys {A} (l : list (string * A)) :
  (merge_sort by_key l).*1 = merge_sort String.le l.*1.
Proof.
  apply (Sorted_unique String.le).
  - apply (Sorted_fmap _ by_key); [done|]. apply (Sorted_merge_sort by_key).
  - apply (Sorted_merge_sort String.le).
  - by rewrite !merge_sort_Permutation.
Qed.

Lemma merge_sort_fixed (ks : list string) :
  merge_sort String.le ks = ks ↔ Sorted String.le ks.
Proof.
  split.
  - intros <-. apply (Sorted_merge_sort String.le).
  - intros Hs. apply (Sorted_unique String.le); [|done|].
    + apply (Sorted_merge_sort String.le).
    + apply merge_sort_Permutation.
Qed.

Lemma sequence_pairs_string_keyed (mapping : list (string * res node)) ps :
  sequence_pairs mapping = Ok ps → string_keyed mapping.*1 ps.
Proof.
  unfold string_keyed. revert ps.
  induction mapping as [|[k r] mapping IH]; intros ps; simpl.
  - by intros [= <-].
  - destruct r as [n| | |]; simpl; try done.
    destruct (sequence_pairs mapping) as [ps'| | |]; simpl; try done.
    intros [= <-]. simpl. f_equal. by apply IH.
Qed.

(** The node that [dump] serialises for a dictionary: a mapping whose keys
    are those of the dictionary, sorted unless [sort_keys] is false. *)
Lemma dump_dict_keys (d : list (string * value)) (sort_keys : bool) (n : node) :
  dump (VDict d) sort_keys = Ok n →
  ∃ ps, n = MappingNode MAP_TAG ps ∧
        string_keyed (if sort_keys then merge_sort String.le (OrderedDict.keys d)
                      else OrderedDict.keys d) ps.
Proof.
  unfold dump. cbn [represent_data].
  set (reps := map _ d).
  assert (Hreps : reps.*1 = OrderedDict.keys d).
  { subst reps. unfold OrderedDict.keys. clear.
    induction d as [|[k x] d IH]; simpl; [done|]. by f_equal. }
  destruct (sequence_pairs _) as [ps| | |] eqn:Hseq; simpl; try done.
  intros [= <-]. exists ps. split; [done|].
  apply sequence_pairs_string_keyed in Hseq.
  destruct sort_keys; [by rewrite <- Hreps, <- sorted_items_keys | by rewrite <- Hreps].
Qed.

Lemma compose_mapping_string_keyed anchor tag items ks t n t' :
  items.*1 = EScalar None STR_TAG <$> ks →
  compose_node (EMap anchor tag items) t = (Ok n, t') →
  ∃ ps, n = MappingNode tag ps ∧ string_keyed ks ps.
Proof.
  intros Hks. cbn [compose_node].
  unfold bind at 1. destruct (check_anchor anchor t) as [[[]| | |] t0]; try done.
  unfold bind at 1. unfold bind at 1.
  destruct (mapM _ items _) as [[ps| | |] t1] eqn:Hitems; try done.
  intros [= <- <-]. exists ps. split; [done|].
  by eapply compose_pairs_string_keyed.
Qed.

Section KeyOrder.

Context (H : host).

(** Loading a stream whose document is a mapping with the distinct string
    keys [ks], in this order, gives a dictionary that iterates in this
    order. *)
Lemma load_mapping_keys fuel s kw st anchor items ks doc st' :
  yaml_parse H (stream_text s) = Ok [EMap anchor MAP_TAG items] →
  items.*1 = EScalar None STR_TAG <$> ks →
  NoDup ks →
  load H fuel s kw st = (Ok doc, st') →
  ∃ d, doc = VDict d ∧ OrderedDict.keys d = ks.
Proof.
  intros Hparse Hks Hnd. unfold load, yaml_load.
  unfold bind at 1. unfold LocalAnchorLoader.reset_anchors at 1.
  unfold bind at 1. unfold LocalLoader.__init__ at 1.
  unfold bind at 1, lift at 1. rewrite Hparse.
  unfold bind at 1. unfold LocalAnchorLoader.get_single_node.
  unfold bind at 1. unfold LocalAnchorLoader.compose_document at 1.
  destruct (compose_node _ _) as [[n| | |] t1] eqn:Hcompose; try done.
  apply (compose_mapping_string_keyed _ _ _ ks) in Hcompose as (ps & -> & Hps); [|done].
  unfold ret at 1. intros Hconstruct.
  by eapply construct_mapping_keys.
Qed.

(** C5. A mapping with the distinct string keys [k1..kn], in this order,
    loads as a dictionary that iterates over [k1..kn] in this order. The
    node that [dump] serialises for it has the keys sorted, unless
    [sort_keys] is false: reloading gives a dictionary that iterates over
    the sorted keys, which is the original order exactly when [k1..kn] was
    sorted already. *)
Theorem mapping_key_order fuel s kw st anchor items ks doc st' :
  yaml_parse H (stream_text s) = Ok [EMap anchor MAP_TAG items] →
  items.*1 = EScalar None STR_TAG <$> ks →
  NoDup ks →
  load H fuel s kw st = (Ok doc, st') →
  ∃ d, doc = VDict d ∧ OrderedDict.keys d = ks ∧
    ∀ sort_keys n fuel' s' kw' st1 doc' st2,
      dump doc sort_keys = Ok n →
      yaml_parse H (stream_text s') = Ok [events_of n] →
      load H fuel' s' kw' st1 = (Ok doc', st2) →
      ∃ d', doc' = VDict d' ∧
        OrderedDict.keys d' = (if sort_keys then merge_sort String.le ks else ks) ∧
        (OrderedDict.keys d' = ks ↔ sort_keys = false ∨ Sorted String.le ks).
Proof.
  intros Hparse Hks Hnd Hload.
  destruct (load_mapping_keys _ _ _ _ _ _ _ _ _ Hparse Hks Hnd Hload) as (d & -> & Hd).
  exists d. split; [done|]. split; [done|].
  intros sort_keys n fuel' s' kw' st1 doc' st2 Hdump Hparse' Hload'.
  apply dump_dict_keys in Hdump as (ps & -> & Hps). rewrite Hd in Hps.
  set (ks' := if sort_keys then merge_sort String.le ks else ks) in *.
  assert (Hnd' : NoDup ks').
  { subst ks'. destruct sort_keys; [by rewrite merge_sort_Permutation|done]. }
  cbn [events_of] in Hparse'.
  eapply (load_mapping_keys _ _ _ _ _ _ ks') in Hload' as (d' & -> & Hd');
    [|exact Hparse'| |done].
  - exists d'. split; [done|]. split; [done|]. rewrite Hd'. subst ks'.
    destruct sort_keys.
    + rewrite merge_sort_fixed. split; [by right|by intros [|]].
    + split; [by left|done].
  - unfold string_keyed in Hps. rewrite <- list_fmap_compose.
    change (fst ∘ _) with (events_of ∘ (fst : node * node → node)).
    rewrite list_fmap_compose, Hps, <- list_fmap_compose. done.
Qed.

End KeyOrder.

Lemma mapping_key_order_witness :
  ∃ d, VDict [("b", VStr "x"); ("a", VStr "y")] = VDict d ∧
       OrderedDict.keys d = ["b"; "a"].
Proof.
  assert (Hnd : NoDup ["b"; "a"]) by (apply (bool_decide_unpack _); by vm_compute).
  assert (Hload : load Demo.os 2 (text_stream "{b: x, a: y}") Demo.no_kwargs initial_state
                  = (Ok (VDict [("b", VStr "x"); ("a", VStr "y")]),
                     {| dicts := [∅; ∅]; cls_anchors := 1 |})) by (by vm_compute).
  destruct (mapping_key_order Demo.os 2 (text_stream "{b: x, a: y}") Demo.no_kwargs
              initial_state None _ ["b"; "a"] _ _ eq_refl eq_refl Hnd Hload)
    as (d & Hd & Hkeys & _).
  by exists d.
Defined.

(** C5, as stated, fails on the mapping [{b: x, a: y}]: it loads with the
    keys in the order [b, a]; the node that [dump] serialises has them in
    the order [a, b], and so has the dictionary loaded from that text. *)
Lemma dump_reload_sorts_keys :
  ∃ d n d',
    (load Demo.os 2 (text_stream "{b: x, a: y}") Demo.no_kwargs initial_state).1
      = Ok (VDict d) ∧
    OrderedDict.keys d = ["b"; "a"] ∧
    dump (VDict d) true = Ok n ∧
    yaml_parse Demo.os "{a: y, b: x}" = Ok [events_of n] ∧
    (load Demo.os 2 (text_stream "{a: y, b: x}") Demo.no_kwargs initial_state).1
      = Ok (VDict d') ∧
    OrderedDict.keys d' = ["a"; "b"] ∧
    OrderedDict.keys d' ≠ OrderedDict.keys d.
Proof.
  eexists _, _, _. split; [by vm_compute|]. split; [done|].
  split; [by vm_compute|]. split; [by vm_compute|]. split; [by vm_compute|].
  split; [done|]. discriminate.
Qed.

(* ================================================================== *)
(** * Properties: anchors *)
(* ================================================================== *)

(** Induction on event trees, with the hypothesis on every child. *)
Lemma ev_nested_ind (P : ev → Prop) :
  (∀ a, P (EAlias a)) →
  (∀ anchor tag v, P (EScalar anchor tag v)) →
  (∀ anchor tag items, Forall P items → P (ESeq anchor tag items)) →
  (∀ anchor tag items, Forall (λ kv, P kv.1 ∧ P kv.2) items → P (EMap anchor tag items)) →
  ∀ e, P e.
Proof.
  intros Ha Hs Hq Hm.
  fix IH 1. intros [a|anchor tag v|anchor tag items|anchor tag items].
  - apply Ha.
  - apply Hs.
  - apply Hq. induction items as [|x items IHitems]; constructor; [apply IH|done].
  - apply Hm. induction items as [|[k v] items IHitems]; constructor; [|done].
    split; apply IH.
Qed.

Section Tables.

Implicit Types t : gmap string anchor_entry.

Lemma grows_ret {A} (a : A) : grows (ret a).
Proof. by intros t r t' [= <- <-]. Qed.

Lemma grows_bind {A B} (m : M _ A) (k : A → M _ B) :
  grows m → (∀ a, grows (k a)) → grows (bind m k).
Proof.
  intros Hm Hk t r t'. unfold bind.
  destruct (m t) as [[a| | |] t1] eqn:Hmt; try (intros [= <- <-]; by eapply Hm).
  intros Hkt. etrans; [by eapply Hm|by eapply Hk].
Qed.

Lemma grows_mapM {A B} (f : A → M _ B) (l : list A) :
  Forall (λ x, grows (f x)) l → grows (mapM f l).
Proof.
  induction 1 as [|x l Hx _ IH]; simpl; [apply grows_ret|].
  apply grows_bind; [done|]. intros y. apply grows_bind; [done|].
  intros ys. apply grows_ret.
Qed.

Lemma grows_check_anchor anchor : grows (check_anchor anchor).
Proof.
  intros t r t'. unfold check_anchor.
  destruct anchor as [a|]; [destruct (t !! a)|]; by intros [= <- <-].
Qed.

(** After the duplicate check, registering the anchor keeps the entries. *)
Lemma check_anchor_fresh anchor t t' :
  check_anchor anchor t = (Ok tt, t') →
  t' = t ∧ ∀ e, t ⊆ register anchor e t.
Proof.
  unfold check_anchor, register. destruct anchor as [a|].
  - destruct (t !! a) eqn:Ha; [done|]. intros [= <-]. split; [done|].
    intros e. by apply insert_subseteq.
  - by intros [= <-].
Qed.

Lemma register_twice anchor e1 e2 t :
  register anchor e2 (register anchor e1 t) = register anchor e2 t.
Proof. destruct anchor; simpl; [by rewrite insert_insert_eq|done]. Qed.

Lemma register_mono anchor e t1 t2 :
  t1 ⊆ t2 → register anchor e t1 ⊆ register anchor e t2.
Proof. destruct anchor; simpl; [by apply insert_mono|done]. Qed.

End Tables.

Section Composer.

Implicit Types t : gmap string anchor_entry.

Lemma check_anchor_ok anchor t r t' :
  check_anchor anchor t = (r, t') →
  t' = t ∧ (r = Ok tt → ∀ t2 e, t ⊆ t2 → t ⊆ register anchor e t2).
Proof.
  unfold check_anchor, register. destruct anchor as [a|].
  - destruct (t !! a) eqn:Ha; intros [= <- <-]; (split; [done|]); [done|].
    intros _ t2 e Ht2. by apply insert_subseteq_r.
  - by intros [= <- <-].
Qed.

(** A check that passes on a table passes on every smaller table. *)
Lemma check_anchor_smaller anchor tb ts :
  check_anchor anchor tb = (Ok tt, tb) → ts ⊆ tb → check_anchor anchor ts = (Ok tt, ts).
Proof.
  unfold check_anchor. destruct anchor as [a|]; [|done].
  destruct (tb !! a) eqn:Hb; [done|]. intros _ Hsub.
  by rewrite (lookup_weaken_None _ _ _ Hb Hsub).
Qed.

(** An anchor that passes the check is not a key of the table. *)
Lemma check_anchor_other anchor t e k :
  check_anchor anchor t = (Ok tt, t) → is_Some (t !! k) →
  ∀ t2, register anchor e t2 !! k = t2 !! k.
Proof.
  unfold check_anchor, register. destruct anchor as [a|]; [|done].
  destruct (t !! a) eqn:Ha; [done|]. intros _ [x Hk] t2.
  apply lookup_insert_ne. by intros ->; rewrite Ha in Hk.
Qed.

(** The frame of a collection: the check, the entry for the node being
    composed, the children, the entry for the composed node. *)
Lemma compose_collection {B} anchor (m : M _ B) (mk : B → node) t r t' :
  (let! _ := check_anchor anchor in
   let! _ := (λ t, (Ok tt, register anchor Composing t)) in
   let! children := m in
   let n := mk children in
   λ t, (Ok n, register anchor (Composed n) t)) t = (r, t') →
  (∃ e, r = Raise e ∧ t' = t ∧ check_anchor anchor t = (Raise e, t)) ∨
  (check_anchor anchor t = (Ok tt, t) ∧
   ∃ rm t2, m (register anchor Composing t) = (rm, t2) ∧
     match rm with
     | Ok children =>
         r = Ok (mk children) ∧ t' = register anchor (Composed (mk children)) t2
     | _ => r = res_cast rm ∧ t' = t2
     end).
Proof.
  unfold bind at 1.
  destruct (check_anchor anchor t) as [rc t0] eqn:Hc.
  destruct (check_anchor_ok _ _ _ _ Hc) as [-> _].
  unfold check_anchor in Hc.
  destruct rc as [[]|e|w|].
  - intros Hrest. right. split; [done|].
    unfold bind at 1 in Hrest. unfold bind at 1 in Hrest.
    destruct (m _) as [rm t2]. exists rm, t2. split; [done|].
    destruct rm; by injection Hrest as <- <-.
  - intros [= <- <-]. left. by exists e.
  - destruct anchor as [a|]; [by destruct (t !! a)|done].
  - destruct anchor as [a|]; [by destruct (t !! a)|done].
Qed.

Lemma grows_collection {B} anchor (m : M _ B) (mk : B → node) :
  grows m →
  grows (let! _ := check_anchor anchor in
         let! _ := (λ t, (Ok tt, register anchor Composing t)) in
         let! children := m in
         let n := mk children in
         λ t, (Ok n, register anchor (Composed n) t)).
Proof.
  intros Hm t r t' Hrun.
  apply compose_collection in Hrun as [(e & _ & -> & _)|(Hc & rm & t2 & Hrun & Hr)]; [done|].
  destruct (check_anchor_ok _ _ _ _ Hc) as [_ Hfresh].
  specialize (Hfresh eq_refl). apply Hm in Hrun.
  assert (t ⊆ t2) by (etrans; [by apply Hfresh|done]).
  destruct rm; destruct Hr as [_ ->]; try done. by apply Hfresh.
Qed.

Lemma compose_node_grows e : grows (compose_node e).
Proof.
  induction e as [a|anchor tag v|anchor tag items IH|anchor tag items IH]
    using ev_nested_ind; cbn [compose_node].
  - intros t r t'. destruct (t !! a) as [[]|]; by intros [= <- <-].
  - intros t r t'. unfold bind.
    destruct (check_anchor anchor t) as [rc t0] eqn:Hc.
    destruct (check_anchor_ok _ _ _ _ Hc) as [-> Hfresh].
    destruct rc as [[]| | |]; intros [= <- <-]; try done. by apply Hfresh.
  - apply (grows_collection anchor (mapM compose_node items) (SequenceNode tag)).
    by apply grows_mapM.
  - apply (grows_collection anchor _ (MappingNode tag)).
    apply grows_mapM. eapply Forall_impl; [exact IH|].
    intros [k v] [Hk Hv]. apply grows_bind; [done|]. intros ?.
    apply grows_bind; [done|]. intros ?. apply grows_ret.
Qed.

End Composer.

Section Simulation.

Implicit Types t : gmap string anchor_entry.

Lemma simulates_ret {A} (a : A) : simulates (ret a).
Proof.
  intros tb a' tb' ts [= <- <-] Hsub. left. exists ts. by repeat split.
Qed.

Lemma simulates_bind {A B} (m : M _ A) (k : A → M _ B) :
  grows m → simulates m → (∀ a, simulates (k a)) → simulates (bind m k).
Proof.
  intros Hg Hm Hk tb b tb' ts Hrun Hsub. unfold bind in Hrun.
  destruct (m tb) as [[a| | |] tb1] eqn:Hmb; try done.
  destruct (Hm _ _ _ _ Hmb Hsub) as [(ts1 & Hms & Hsub1 & Hframe1)|(x & ts1 & Hms)].
  - destruct (Hk a _ _ _ _ Hrun Hsub1) as [(ts' & Hks & Hsub' & Hframe')|(x & ts' & Hks)].
    + left. exists ts'. unfold bind. rewrite Hms. split; [done|]. split; [done|].
      intros key Hkey. rewrite Hframe'; [by apply Hframe1|].
      destruct Hkey as [e He]. exists e. by eapply lookup_weaken, Hg.
    + right. exists x, ts'. unfold bind. by rewrite Hms.
  - right. exists x, ts1. unfold bind. by rewrite Hms.
Qed.

Lemma simulates_mapM {A B} (f : A → M _ B) (l : list A) :
  Forall (λ x, grows (f x) ∧ simulates (f x)) l → simulates (mapM f l).
Proof.
  induction 1 as [|x l [Hg Hx] Hl IH]; simpl; [apply simulates_ret|].
  apply simulates_bind; [done|done|]. intros y.
  apply simulates_bind; [|done|intros ys; apply simulates_ret].
  apply grows_mapM. eapply Forall_impl; [exact Hl|]. by intros ? [].
Qed.

Lemma simulates_collection {B} anchor (m : M _ B) (mk : B → node) :
  grows m → simulates m →
  simulates (let! _ := check_anchor anchor in
             let! _ := (λ t, (Ok tt, register anchor Composing t)) in
             let! children := m in
             let n := mk children in
             λ t, (Ok n, register anchor (Composed n) t)).
Proof.
  intros Hg Hm tb n tb' ts Hrun Hsub.
  apply compose_collection in Hrun as [(e & ? & _)|(Hc & rm & tb2 & Hrun & Hr)]; [done|].
  destruct rm as [children| | |]; try by destruct Hr.
  destruct Hr as [[= ->] ->].
  pose proof (check_anchor_smaller _ _ _ Hc Hsub) as Hcs.
  assert (Hsub1 : register anchor Composing ts ⊆ register anchor Composing tb)
    by by apply register_mono.
  destruct (Hm _ _ _ _ Hrun Hsub1) as [(ts2 & Hms & Hsub2 & Hframe)|(x & ts2 & Hms)].
  - left. exists (register anchor (Composed (mk children)) ts2).
    unfold bind. rewrite Hcs. rewrite Hms. split; [done|].
    split; [by apply register_mono|].
    intros k Hk. rewrite (check_anchor_other _ _ _ _ Hc Hk).
    rewrite Hframe.
    + by rewrite (check_anchor_other _ _ _ _ Hc Hk).
    + by rewrite (check_anchor_other _ _ _ _ Hc Hk).
  - right. exists x, ts2. unfold bind. rewrite Hcs. by rewrite Hms.
Qed.

Lemma compose_node_simulates e : simulates (compose_node e).
Proof.
  induction e as [a|anchor tag v|anchor tag items IH|anchor tag items IH]
    using ev_nested_ind; cbn [compose_node].
  - intros tb n tb' ts Hrun Hsub.
    destruct (tb !! a) as [[nb|]|] eqn:Hb; try done. injection Hrun as <- <-.
    destruct (ts !! a) as [x|] eqn:Hs.
    + left. exists ts. rewrite (lookup_weaken _ _ _ _ Hs Hsub) in Hb.
      injection Hb as ->. by repeat split.
    + right. by exists a, ts.
  - intros tb n tb' ts Hrun Hsub. unfold bind in Hrun.
    destruct (check_anchor anchor tb) as [rc tb0] eqn:Hc.
    destruct (check_anchor_ok _ _ _ _ Hc) as [-> _].
    destruct rc as [[]| | |]; try done. injection Hrun as <- <-.
    left. exists (register anchor (Composed (ScalarNode tag v)) ts).
    unfold bind. rewrite (check_anchor_smaller _ _ _ Hc Hsub).
    split; [done|]. split; [by apply register_mono|].
    intros k Hk. by rewrite (check_anchor_other _ _ _ _ Hc Hk).
  - apply (simulates_collection anchor (mapM compose_node items) (SequenceNode tag)).
    + apply grows_mapM, Forall_forall. intros; apply compose_node_grows.
    + apply simulates_mapM. eapply Forall_impl; [exact IH|].
      intros x Hx. split; [apply compose_node_grows|done].
  - apply (simulates_collection anchor _ (MappingNode tag)).
    + apply grows_mapM, Forall_forall. intros [k v] _.
      apply grows_bind; [apply compose_node_grows|]. intros ?.
      apply grows_bind; [apply compose_node_grows|]. intros ?. apply grows_ret.
    + apply simulates_mapM. eapply Forall_impl; [exact IH|].
      intros [k v] [Hk Hv]. split.
      * apply grows_bind; [apply compose_node_grows|]. intros ?.
        apply grows_bind; [apply compose_node_grows|]. intros ?. apply grows_ret.
      * apply simulates_bind; [apply compose_node_grows|done|]. intros ?.
        apply simulates_bind; [apply compose_node_grows|done|]. intros ?.
        apply simulates_ret.
Qed.

End Simulation.

Section Paths.

Implicit Types t : gmap string anchor_entry.

Context (A : string).

Lemma needs_bind_first {B C} (m : M _ B) (k : B → M _ C) :
  needs A m → needs A (bind m k).
Proof.
  intros Hm tb c tb' ts Hrun Hsub HA Hs. unfold bind in Hrun.
  destruct (m tb) as [[b| | |] tb1] eqn:Hmb; try done.
  destruct (Hm _ _ _ _ Hmb Hsub HA Hs) as (x & ts' & Hms).
  exists x, ts'. unfold bind. by rewrite Hms.
Qed.

Lemma needs_bind_second {B C} (m : M _ B) (k : B → M _ C) :
  grows m → simulates m → (∀ b, needs A (k b)) → needs A (bind m k).
Proof.
  intros Hg Hm Hk tb c tb' ts Hrun Hsub HA Hs. unfold bind in Hrun.
  destruct (m tb) as [[b| | |] tb1] eqn:Hmb; try done.
  destruct (Hm _ _ _ _ Hmb Hsub) as [(ts1 & Hms & Hsub1 & Hframe)|(x & ts1 & Hms)].
  - destruct (Hk b _ _ _ _ Hrun Hsub1) as (x & ts' & Hks).
    + destruct HA as [e He]. exists e. by eapply lookup_weaken, Hg.
    + by rewrite Hframe.
    + exists x, ts'. unfold bind. by rewrite Hms.
  - exists x, ts1. unfold bind. by rewrite Hms.
Qed.

Lemma needs_mapM {B C} (f : B → M _ C) (l : list B) (i : nat) (x : B) :
  (∀ y, grows (f y) ∧ simulates (f y)) →
  l !! i = Some x → needs A (f x) → needs A (mapM f l).
Proof.
  intros Hf. revert i. induction l as [|y l IH]; intros i Hi Hx; [done|].
  simpl. destruct i as [|i].
  - injection Hi as ->. by apply needs_bind_first.
  - apply needs_bind_second; [apply Hf|apply Hf|]. intros ?.
    apply needs_bind_first. by eapply IH.
Qed.

Lemma needs_collection {B} anchor (m : M _ B) (mk : B → node) :
  needs A m →
  needs A (let! _ := check_anchor anchor in
           let! _ := (λ t, (Ok tt, register anchor Composing t)) in
           let! children := m in
           let n := mk children in
           λ t, (Ok n, register anchor (Composed n) t)).
Proof.
  intros Hm tb n tb' ts Hrun Hsub HA Hs.
  apply compose_collection in Hrun as [(e & ? & _)|(Hc & rm & tb2 & Hrun & Hr)]; [done|].
  destruct rm as [children| | |]; try by destruct Hr.
  pose proof (check_anchor_smaller _ _ _ Hc Hsub) as Hcs.
  destruct (Hm _ _ _ (register anchor Composing ts) Hrun) as (x & ts' & Hms).
  - by apply register_mono.
  - by rewrite (check_anchor_other _ _ _ _ Hc HA).
  - by rewrite (check_anchor_other _ _ _ _ Hc HA).
  - exists x, ts'. unfold bind. rewrite Hcs. by rewrite Hms.
Qed.

Lemma compose_pair_well_behaved (kv : ev * ev) :
  let f := (λ '(k, v),
              let! item_key := compose_node k in
              let! item_value := compose_node v in
              ret (item_key, item_value)) : ev * ev → M _ (node * node) in
  grows (f kv) ∧ simulates (f kv).
Proof.
  destruct kv as [k v]. split.
  - apply grows_bind; [apply compose_node_grows|]. intros ?.
    apply grows_bind; [apply compose_node_grows|]. intros ?. apply grows_ret.
  - apply simulates_bind; [apply compose_node_grows|apply compose_node_simulates|].
    intros ?. apply simulates_bind;
      [apply compose_node_grows|apply compose_node_simulates|].
    intros ?. apply simulates_ret.
Qed.

(** A document that refers to [A] somewhere cannot be composed on a table
    without [A], if it can be composed on a larger table with [A]. *)
Lemma compose_needs (p : list child) : ∀ e,
  ev_at p e = Some (EAlias A) → needs A (compose_node e).
Proof.
  induction p as [|c p IH]; intros e Hat.
  - injection Hat as ->. intros tb n tb' ts _ _ _ Hs. cbn [compose_node].
    rewrite Hs. by exists A, ts.
  - destruct c as [i|i|i], e as [a|anchor tag v|anchor tag items|anchor tag items];
      try done; simpl in Hat; cbn [compose_node].
    + destruct (items !! i) as [x|] eqn:Hi; [|done]. simpl in Hat.
      apply (needs_collection anchor (mapM compose_node items) (SequenceNode tag)).
      eapply needs_mapM; [|exact Hi|by apply IH].
      intros y. split; [apply compose_node_grows|apply compose_node_simulates].
    + destruct (items !! i) as [[k v]|] eqn:Hi; [|done]. simpl in Hat.
      apply (needs_collection anchor _ (MappingNode tag)).
      eapply needs_mapM; [apply compose_pair_well_behaved|exact Hi|].
      apply needs_bind_first. by apply IH.
    + destruct (items !! i) as [[k v]|] eqn:Hi; [|done]. simpl in Hat.
      apply (needs_collection anchor _ (MappingNode tag)).
      eapply needs_mapM; [apply compose_pair_well_behaved|exact Hi|].
      apply needs_bind_second; [apply compose_node_grows|apply compose_node_simulates|].
      intros ?. apply needs_bind_first. by apply IH.
Qed.

Lemma mapM_lookup {B C} (f : B → M _ C) (l : list B) : ∀ i x t ys t',
  (∀ y, grows (f y)) →
  mapM f l t = (Ok ys, t') → l !! i = Some x →
  ∃ ti y ti', t ⊆ ti ∧ f x ti = (Ok y, ti') ∧ ys !! i = Some y.
Proof.
  induction l as [|z l IH]; intros i x t ys t' Hf Hrun Hi; [done|].
  simpl in Hrun. unfold bind at 1 in Hrun.
  destruct (f z t) as [[y| | |] t1] eqn:Hz; try done.
  unfold bind at 1 in Hrun.
  destruct (mapM f l t1) as [[ys'| | |] t2] eqn:Hrest; try done.
  injection Hrun as <- <-.
  destruct i as [|i].
  - injection Hi as ->. by exists t, y, t1.
  - destruct (IH _ _ _ _ _ Hf Hrest Hi) as (ti & y' & ti' & Hsub & Hx & Hy).
    exists ti, y', ti'. split; [|done]. etrans; [by eapply Hf|done].
Qed.

(** An alias to [A] in a document composed on a table where [A] is bound to
    the node [nA] is replaced by [nA]. *)
Lemma compose_alias_resolves (nA : node) (p : list child) : ∀ e t n t',
  compose_node e t = (Ok n, t') → t !! A = Some (Composed nA) →
  ev_at p e = Some (EAlias A) → node_at p n = Some nA.
Proof.
  induction p as [|c p IH]; intros e t n t' Hrun HA Hat.
  - injection Hat as ->. cbn [compose_node] in Hrun. rewrite HA in Hrun.
    by injection Hrun as <- _.
  - destruct c as [i|i|i], e as [a|anchor tag v|anchor tag items|anchor tag items];
      try done; simpl in Hat; cbn [compose_node] in Hrun.
    + destruct (items !! i) as [x|] eqn:Hi; [|done]. simpl in Hat.
      apply (compose_collection anchor (mapM compose_node items) (SequenceNode tag))
        in Hrun as [(e & ? & _)|(Hc & rm & t2 & Hrun & Hr)]; [done|].
      destruct rm as [children| | |]; try by destruct Hr.
      destruct Hr as [[= ->] _].
      destruct (check_anchor_ok _ _ _ _ Hc) as [_ Hfresh].
      destruct (mapM_lookup _ _ _ _ _ _ _ compose_node_grows Hrun Hi)
        as (ti & y & ti' & Hsub & Hx & Hy).
      simpl. rewrite Hy. simpl. eapply IH; [exact Hx| |done].
      eapply lookup_weaken; [exact HA|]. etrans; [by apply Hfresh|done].
    + destruct (items !! i) as [[k v]|] eqn:Hi; [|done]. simpl in Hat.
      apply (compose_collection anchor _ (MappingNode tag))
        in Hrun as [(e & ? & _)|(Hc & rm & t2 & Hrun & Hr)]; [done|].
      destruct rm as [children| | |]; try by destruct Hr.
      destruct Hr as [[= ->] _].
      destruct (check_anchor_ok _ _ _ _ Hc) as [_ Hfresh].
      destruct (mapM_lookup _ _ _ _ _ _ _
                  (λ kv, proj1 (compose_pair_well_behaved kv)) Hrun Hi)
        as (ti & [ik iv] & ti' & Hsub & Hx & Hy).
      simpl. rewrite Hy. simpl.
      unfold bind at 1 in Hx.
      destruct (compose_node k ti) as [[ik'| | |] tk] eqn:Hk; try done.
      unfold bind at 1 in Hx.
      destruct (compose_node v tk) as [[iv'| | |] tv] eqn:Hv; try done.
      injection Hx as -> -> ->.
      eapply IH; [exact Hk| |done].
      eapply lookup_weaken; [exact HA|]. etrans; [by apply Hfresh|done].
    + destruct (items !! i) as [[k v]|] eqn:Hi; [|done]. simpl in Hat.
      apply (compose_collection anchor _ (MappingNode tag))
        in Hrun as [(e & ? & _)|(Hc & rm & t2 & Hrun & Hr)]; [done|].
      destruct rm as [children| | |]; try by destruct Hr.
      destruct Hr as [[= ->] _].
      destruct (check_anchor_ok _ _ _ _ Hc) as [_ Hfresh].
      destruct (mapM_lookup _ _ _ _ _ _ _
                  (λ kv, proj1 (compose_pair_well_behaved kv)) Hrun Hi)
        as (ti & [ik iv] & ti' & Hsub & Hx & Hy).
      simpl. rewrite Hy. simpl.
      unfold bind at 1 in Hx.
      destruct (compose_node k ti) as [[ik'| | |] tk] eqn:Hk; try done.
      unfold bind at 1 in Hx.
      destruct (compose_node v tk) as [[iv'| | |] tv] eqn:Hv; try done.
      injection Hx as -> -> ->.
      eapply IH; [exact Hv| |done].
      eapply lookup_weaken; [exact HA|].
      etrans; [by apply Hfresh|]. etrans; [exact Hsub|].
      by eapply compose_node_grows.
Qed.

End Paths.

#[global] Instance extends_refl : Reflexive extends.
Proof. intros st. split; [done|]. intros i t Ht. by exists t. Qed.

#[global] Instance extends_trans : Transitive extends.
Proof.
  intros st1 st2 st3 [Hc12 H12] [Hc23 H23]. split; [congruence|].
  intros i t Ht. destruct (H12 _ _ Ht) as (t2 & Ht2 & Hsub2).
  destruct (H23 _ _ Ht2) as (t3 & Ht3 & Hsub3). exists t3. split; [done|by etrans].
Qed.

(** Composing a document keeps the class attribute and the entries of
    every dictionary. *)
Lemma compose_document_extends ld e st r st' :
  LocalAnchorLoader.compose_document ld e st = (r, st') → extends st st'.
Proof.
  unfold LocalAnchorLoader.compose_document, LocalAnchorLoader.anchors_of.
  destruct (compose_node e _) as [r' t'] eqn:Hrun. intros [= <- <-].
  apply compose_node_grows in Hrun. split; [done|]. simpl.
  intros i t Ht. destruct (decide (i = anchors ld)) as [->|Hne].
  - exists t'. rewrite list_lookup_insert_eq by (by eapply lookup_lt_Some).
    split; [done|]. by rewrite Ht in Hrun.
  - exists t. by rewrite list_lookup_insert_ne.
Qed.

(** A parse resets nothing. *)
Lemma session_step_extends H st st' : session_step H st st' → extends st st'.
Proof. intros [s kw ld e r st1 st2 _ Hrun]. by eapply compose_document_extends. Qed.

Lemma session_extends H st st' : rtc (session_step H) st st' → extends st st'.
Proof.
  induction 1 as [|st1 st2 st3 Hstep _ IH]; [done|].
  etrans; [by eapply session_step_extends|done].
Qed.

Section Respects.

Context (R : relation pystate) `{!PreOrder R}.

Lemma respects_ret {A} (a : A) : respects R (ret a).
Proof. by intros st r st' [= <- <-]. Qed.

Lemma respects_raise {A} e : respects R (@raise pystate A e).
Proof. by intros st r st' [= <- <-]. Qed.

Lemma respects_beyond {A} w : respects R (@beyond pystate A w).
Proof. by intros st r st' [= <- <-]. Qed.

Lemma respects_lift {A} (r : res A) : respects R (lift r).
Proof. by intros st r' st' [= <- <-]. Qed.

Lemma respects_bind {A B} (m : M pystate A) (k : A → M pystate B) :
  respects R m → (∀ a, respects R (k a)) → respects R (bind m k).
Proof.
  intros Hm Hk st r st'. unfold bind.
  destruct (m st) as [[a| | |] st1] eqn:Hms; try (intros [= <- <-]; by eapply Hm).
  intros Hks. etrans; [by eapply Hm|by eapply Hk].
Qed.

Lemma respects_mapM {A B} (f : A → M pystate B) (l : list A) :
  (∀ x, respects R (f x)) → respects R (mapM f l).
Proof.
  intros Hf. induction l as [|x l IH]; simpl; [apply respects_ret|].
  apply respects_bind; [done|]. intros y. apply respects_bind; [done|].
  intros ys. apply respects_ret.
Qed.

Context (H : host).

(** What is asked of [R]: it holds across the composition of a document by
    a loader created in the current store. *)
Context (Hparse : ∀ st st', session_step H st st' → R st st').

Section Constructor.

Context (co : loader → node → M pystate value).
Context (Hco : ∀ ld n, respects R (co ld n)).

Lemma respects_yaml_load s kw : respects R (yaml_load H co s kw).
Proof.
  intros st r st'. unfold yaml_load.
  unfold bind at 1.
  destruct (LocalLoader.__init__ H s kw st) as [[ld| | |] st0] eqn:Hinit;
    try (by injection Hinit as ? <-; intros [= <- <-]).
  assert (st0 = st) as -> by (by injection Hinit).
  unfold bind at 1, lift at 1.
  destruct (yaml_parse H (stream_text s)) as [docs| | |]; try by intros [= <- <-].
  unfold bind at 1. unfold LocalAnchorLoader.get_single_node.
  destruct docs as [|d more].
  - unfold ret at 1. by intros [= <- <-].
  - unfold bind at 1.
    destruct (LocalAnchorLoader.compose_document ld d st) as [rn st1] eqn:Hc.
    assert (R st st1) by (eapply Hparse; by econstructor).
    destruct rn as [n| | |]; try by intros [= <- <-].
    destruct more; [|by intros [= <- <-]].
    unfold ret at 1. intros Hrun. etrans; [done|by eapply Hco].
Qed.

Lemma respects_open_file cls ld n : respects R (_open_file H cls ld n).
Proof.
  unfold _open_file. apply respects_bind; [apply respects_lift|]. intros path.
  destruct (PyFormat.format path []) as [?|[]| |]; try apply respects_lift.
  - destruct (read_text H _); [apply respects_ret|apply respects_raise].
  - unfold _lazy_load. destruct n; [apply respects_ret|apply respects_beyond..].
Qed.

Lemma respects_from_file cls ld n : respects R (_from_file H co cls ld n).
Proof.
  destruct cls; simpl.
  - apply respects_bind; [apply respects_open_file|].
    intros [text|lz]; [apply respects_yaml_load|apply respects_ret].
  - apply respects_bind; [apply respects_open_file|]. intros ?. apply respects_ret.
  - apply respects_bind; [apply respects_open_file|]. intros ?. apply respects_ret.
Qed.

Lemma respects_YamlInclude_from_yaml cls ld n :
  respects R (YamlInclude_from_yaml H co cls ld n).
Proof.
  destruct n as [tag v|tag items|tag items]; simpl.
  - apply respects_from_file.
  - apply respects_bind; [apply respects_mapM; intros; apply respects_from_file|].
    intros contents. destruct (existsb _ _); [apply respects_ret|].
    apply respects_bind; [apply respects_lift|]. intros ?. apply respects_ret.
  - apply respects_raise.
Qed.

Lemma respects_from_yaml cls ld n : respects R (from_yaml H co cls ld n).
Proof.
  destruct cls; simpl; try apply respects_YamlInclude_from_yaml.
  apply respects_bind; [apply respects_YamlInclude_from_yaml|].
  intros data. destruct (is_LazyLoader data); [apply respects_ret|apply respects_lift].
Qed.

Lemma respects_construct_yaml_map ld n : respects R (construct_yaml_map co ld n).
Proof.
  unfold construct_yaml_map. destruct n; try apply respects_raise.
  apply respects_bind; [apply respects_lift|]. intros pairs.
  apply respects_bind; [|intros ?; apply respects_ret].
  generalize (ret [] : M pystate (list (string * value)))
             (respects_ret ([] : list (string * value))).
  induction pairs as [|[key_node value_node] pairs IH]; intros acc Hacc; simpl; [done|].
  apply IH. apply respects_bind; [done|]. intros ?.
  apply respects_bind; [apply Hco|]. intros ?.
  apply respects_bind; [apply respects_lift|]. intros ?.
  apply respects_bind; [apply Hco|]. intros ?. apply respects_ret.
Qed.

Lemma respects_construct_node ld n : respects R (construct_node H co ld n).
Proof.
  unfold construct_node. destruct (yaml_object_tag _) as [[cls []]|].
  - apply respects_from_yaml.
  - apply respects_from_yaml.
  - repeat case_match; try apply respects_beyond;
      try (apply respects_bind; [apply respects_lift|]; intros ?; apply respects_ret).
    + apply respects_construct_yaml_map.
    + unfold construct_yaml_seq. destruct n; try apply respects_raise.
      apply respects_bind; [by apply respects_mapM|]. intros ?. apply respects_ret.
Qed.

End Constructor.

Lemma respects_construct_object fuel : ∀ ld n, respects R (construct_object H fuel ld n).
Proof.
  induction fuel as [|fuel IH]; intros ld n.
  - by intros st r st' [= <- <-].
  - simpl. by apply respects_construct_node.
Qed.

Lemma respects_LazyLoader_format fuel self kwargs st r self' st' :
  LazyLoader.format H fuel self kwargs st = (r, self', st') → R st st'.
Proof.
  unfold LazyLoader.format. destruct (PyFormat.format _ _); try by intros [= <- <- <-].
  destruct (from_yaml _ _ _ _ _ _) as [r1 st1] eqn:Hrun. intros [= <- <- <-].
  eapply respects_from_yaml; [|exact Hrun]. apply respects_construct_object.
Qed.

End Respects.

(** Constructing a document, nested inclusions included, changes the store
    only by parses of the session: nothing in it resets the anchors. *)
Lemma construct_object_session H fuel ld n st r st' :
  construct_object H fuel ld n st = (r, st') → rtc (session_step H) st st'.
Proof.
  exact (respects_construct_object (rtc (session_step H)) H
           (λ _ _ Hs, rtc_once _ _ Hs) fuel ld n st r st').
Qed.

(** A top-level [load] is the reset followed by parses of the session. *)
Lemma load_session H fuel s kw st r st' :
  load H fuel s kw st = (r, st') →
  rtc (session_step H) (LocalAnchorLoader.reset_anchors st).2 st'.
Proof.
  unfold load. unfold bind at 1. unfold LocalAnchorLoader.reset_anchors at 1.
  exact (respects_yaml_load (rtc (session_step H)) H (λ _ _ Hs, rtc_once _ _ Hs)
           (construct_object H fuel)
           (respects_construct_object (rtc (session_step H)) H
              (λ _ _ Hs, rtc_once _ _ Hs) fuel) s kw _ r st').
Qed.

(** Resolving a lazy reference later does not reset the anchors either. *)
Lemma lazy_format_session H fuel self kwargs st r self' st' :
  LazyLoader.format H fuel self kwargs st = (r, self', st') →
  rtc (session_step H) st st'.
Proof.
  exact (respects_LazyLoader_format (rtc (session_step H)) H
           (λ _ _ Hs, rtc_once _ _ Hs) fuel self kwargs st r self' st').
Qed.

Section AnchorPersistence.

Context (H : host).

Lemma anchors_of_lookup ld st a e :
  LocalAnchorLoader.anchors_of ld st !! a = Some e →
  ∃ t, dicts st !! anchors ld = Some t ∧ t !! a = Some e.
Proof.
  unfold LocalAnchorLoader.anchors_of.
  destruct (dicts st !! anchors ld) as [t|]; [by exists t|done].
Qed.

Lemma compose_document_run ld e st r st' :
  LocalAnchorLoader.compose_document ld e st = (r, st') →
  ∃ t', compose_node e (LocalAnchorLoader.anchors_of ld st) = (r, t').
Proof.
  unfold LocalAnchorLoader.compose_document.
  destruct (compose_node e _) as [r' t']. intros [= <- _]. by exists t'.
Qed.

(** A new session starts from an empty anchor table. *)
Lemma reset_anchors_empty s kw st :
  let st1 := (LocalAnchorLoader.reset_anchors st).2 in
  ∀ ld, LocalLoader.__init__ H s kw st1 = (Ok ld, st1) →
        LocalAnchorLoader.anchors_of ld st1 = ∅.
Proof.
  intros st1 ld [= <-]. unfold LocalAnchorLoader.anchors_of. simpl.
  by rewrite lookup_app_r, Nat.sub_diag.
Qed.

(** C1. A top-level [load] resets the anchors and its loader composes a
    document [D1], which binds the anchor [A] to the node [nA]. After any
    number of further parses of the session, none of which resets the
    anchors, a new loader composes a document [D2]: wherever [D2] has an
    alias to [A], the composed node has [nA]. From the reset on, the class
    refers to the same dictionary and the dictionaries keep their entries.
    In a new session, the top-level [load] of [D2] raises [ComposerError]
    for an undefined alias. *)
Theorem anchors_persist_within_session
    (s1 s2 : stream) (kw1 kw2 : load_kwargs) (st0 st2 st3 st4 : pystate)
    (ld1 ld2 : loader) (D1 D2 : ev) (n1 n2 nA : node) (A : string) (p : list child) :
  let st1 := (LocalAnchorLoader.reset_anchors st0).2 in
  LocalLoader.__init__ H s1 kw1 st1 = (Ok ld1, st1) →
  LocalAnchorLoader.compose_document ld1 D1 st1 = (Ok n1, st2) →
  LocalAnchorLoader.anchors_of ld1 st2 !! A = Some (Composed nA) →
  rtc (session_step H) st2 st3 →
  LocalLoader.__init__ H s2 kw2 st3 = (Ok ld2, st3) →
  LocalAnchorLoader.compose_document ld2 D2 st3 = (Ok n2, st4) →
  ev_at p D2 = Some (EAlias A) →
  node_at p n2 = Some nA ∧
  cls_anchors st4 = cls_anchors st1 ∧
  extends st2 st4 ∧
  ∀ fuel s kw st,
    yaml_parse H (stream_text s) = Ok [D2] →
    ∃ a st', load H fuel s kw st = (Raise (ComposerError (UndefinedAlias a)), st').
Proof.
  intros st1 Hld1 HD1 HA Hsession Hld2 HD2 Hat.
  pose proof (compose_document_extends _ _ _ _ _ HD1) as [Hcls12 _].
  pose proof (session_extends _ _ _ Hsession) as [Hcls23 Hdicts23].
  pose proof (compose_document_extends _ _ _ _ _ HD2) as Hext34.
  assert (Hsame : anchors ld2 = anchors ld1).
  { injection Hld1 as <-. injection Hld2 as <-. simpl. by rewrite Hcls23, Hcls12. }
  destruct (anchors_of_lookup _ _ _ _ HA) as (t2 & Ht2 & HA2).
  destruct (Hdicts23 _ _ Ht2) as (t3 & Ht3 & Hsub23).
  assert (HA3 : LocalAnchorLoader.anchors_of ld2 st3 !! A = Some (Composed nA)).
  { unfold LocalAnchorLoader.anchors_of. rewrite Hsame, Ht3. simpl.
    by eapply lookup_weaken. }
  destruct (compose_document_run _ _ _ _ _ HD2) as (t4 & Hrun).
  split; [by eapply compose_alias_resolves|].
  split; [destruct Hext34 as [-> _]; congruence|].
  split; [etrans; [by eapply session_extends|done]|].
  intros fuel s kw st Hparse.
  unfold load, yaml_load.
  unfold bind at 1. unfold LocalAnchorLoader.reset_anchors at 1.
  unfold bind at 1. unfold LocalLoader.__init__ at 1.
  unfold bind at 1, lift at 1. rewrite Hparse.
  unfold bind at 1. unfold LocalAnchorLoader.get_single_node.
  unfold bind at 1. unfold LocalAnchorLoader.compose_document at 1.
  unfold LocalAnchorLoader.anchors_of. simpl.
  rewrite lookup_app_r, Nat.sub_diag by done. simpl.
  destruct (compose_needs A p D2 Hat _ _ _ ∅ Hrun) as (a & ts' & Hfail).
  - apply map_empty_subseteq.
  - by rewrite HA3.
  - done.
  - rewrite Hfail. by eexists _, _.
Qed.

End AnchorPersistence.

Lemma anchors_persist_within_session_witness :
  node_at [] (ScalarNode STR_TAG "v") = Some (ScalarNode STR_TAG "v") ∧
  ∃ a st', load Demo.os 1 (text_stream "*base") Demo.no_kwargs initial_state
           = (Raise (ComposerError (UndefinedAlias a)), st').
Proof.
  pose (ld := {| anchors := 1; search_path := ["."]; escape_callback := EscapeDefault |}).
  pose (st2 := {| dicts := [∅; {["base" := Composed (ScalarNode STR_TAG "v")]}];
                  cls_anchors := 1 |}).
  destruct (anchors_persist_within_session Demo.os
              (text_stream "&base v") (text_stream "*base") Demo.no_kwargs Demo.no_kwargs
              initial_state st2 st2 st2 ld ld
              (EScalar (Some "base") STR_TAG "v") (EAlias "base")
              (ScalarNode STR_TAG "v") (ScalarNode STR_TAG "v") (ScalarNode STR_TAG "v")
              "base" [])
    as (Hresolved & _ & _ & Hfresh).
  - reflexivity.
  - by vm_compute.
  - by vm_compute.
  - apply rtc_refl.
  - reflexivity.
  - by vm_compute.
  - reflexivity.
  - split; [exact Hresolved|].
    exact (Hfresh 1 (text_stream "*base") Demo.no_kwargs initial_state eq_refl).
Defined.

(** A document with an anchor and an inclusion: the included file refers to
    the anchor of the including document; loaded on its own, it fails. *)
Example include_sees_anchor :
  (load Demo.os 3 (text_stream "{first: &base v, second: !include: inc.yaml}")
     Demo.no_kwargs initial_state).1
  = Ok (VDict [("first", VStr "v"); ("second", VStr "v")]) ∧
  (load Demo.os 3 (text_stream "*base") Demo.no_kwargs initial_state).1
  = Raise (ComposerError (UndefinedAlias "base")).
Proof. split; by vm_compute. Qed.

(* ================================================================== *)
(** * Properties: escaping and formatting *)
(* ================================================================== *)

Lemma scan_double_braces missing kwargs s : ∀ out,
  PyFormat.scan missing kwargs (double_braces s) PyFormat.InText out = Ok (out +:+ s).
Proof.
  induction s as [|c s IH]; intros out.
  - simpl. by rewrite append_empty_r.
  - cbn [double_braces].
    destruct (Ascii.eqb_spec c "{") as [->|Hopen].
    { cbn. rewrite IH. by rewrite snoc_append. }
    destruct (Ascii.eqb_spec c "}") as [->|Hclose].
    { cbn. rewrite IH. by rewrite snoc_append. }
    cbn [orb PyFormat.scan].
    apply Ascii.eqb_neq in Hopen, Hclose. rewrite Hopen, Hclose.
    rewrite IH. by rewrite snoc_append.
Qed.

(** X1. What [LocalLoader._escape] returns for a text is a format string
    that [str.format] turns back into that text, whatever the keyword
    arguments are: the doubled braces are the only markup in it. *)
Theorem escape_then_format (s : string) (kwargs : list (string * value)) :
  ∃ t, _escape (VStr s) = Ok (VStr t) ∧ PyFormat.format t kwargs = Ok s.
Proof.
  exists (double_braces s). split; [done|].
  unfold PyFormat.format. by rewrite scan_double_braces.
Qed.

(* ================================================================== *)
(** * Properties: an anchor defined twice in a session *)
(* ================================================================== *)

Section Redefinition.

Implicit Types t : gmap string anchor_entry.

Context (A : string).

(** A document that defines [A] somewhere is composed only on a table that
    has no entry for [A]. *)
Lemma compose_defines_fresh (p : list child) : ∀ e e' t n t',
  compose_node e t = (Ok n, t') → ev_at p e = Some e' → ev_anchor e' = Some A →
  t !! A = None.
Proof.
  induction p as [|c p IH]; intros e e' t n t' Hrun Hat HA.
  - injection Hat as ->.
    destruct e' as [a|anchor tag v|anchor tag items|anchor tag items];
      simpl in HA; try done; subst anchor; cbn [compose_node] in Hrun;
      unfold bind at 1 in Hrun; simpl in Hrun; by destruct (t !! A).
  - destruct c as [i|i|i], e as [a|anchor tag v|anchor tag items|anchor tag items];
      try done; simpl in Hat; cbn [compose_node] in Hrun.
    + destruct (items !! i) as [x|] eqn:Hi; [|done]. simpl in Hat.
      apply (compose_collection anchor (mapM compose_node items) (SequenceNode tag))
        in Hrun as [(e & ? & _)|(Hc & rm & t2 & Hrun & Hr)]; [done|].
      destruct rm as [children| | |]; try by destruct Hr.
      destruct (check_anchor_ok _ _ _ _ Hc) as [_ Hfresh].
      destruct (mapM_lookup _ _ _ _ _ _ _ compose_node_grows Hrun Hi)
        as (ti & y & ti' & Hsub & Hx & Hy).
      eapply lookup_weaken_None; [by eapply IH|].
      etrans; [by apply Hfresh|done].
    + destruct (items !! i) as [[k v]|] eqn:Hi; [|done]. simpl in Hat.
      apply (compose_collection anchor _ (MappingNode tag))
        in Hrun as [(e & ? & _)|(Hc & rm & t2 & Hrun & Hr)]; [done|].
      destruct rm as [children| | |]; try by destruct Hr.
      destruct (check_anchor_ok _ _ _ _ Hc) as [_ Hfresh].
      destruct (mapM_lookup _ _ _ _ _ _ _
                  (λ kv, proj1 (compose_pair_well_behaved kv)) Hrun Hi)
        as (ti & [ik iv] & ti' & Hsub & Hx & Hy).
      unfold bind at 1 in Hx.
      destruct (compose_node k ti) as [[ik'| | |] tk] eqn:Hk; try done.
      eapply lookup_weaken_None; [by eapply IH|].
      etrans; [by apply Hfresh|done].
    + destruct (items !! i) as [[k v]|] eqn:Hi; [|done]. simpl in Hat.
      apply (compose_collection anchor _ (MappingNode tag))
        in Hrun as [(e & ? & _)|(Hc & rm & t2 & Hrun & Hr)]; [done|].
      destruct rm as [children| | |]; try by destruct Hr.
      destruct (check_anchor_ok _ _ _ _ Hc) as [_ Hfresh].
      destruct (mapM_lookup _ _ _ _ _ _ _
                  (λ kv, proj1 (compose_pair_well_behaved kv)) Hrun Hi)
        as (ti & [ik iv] & ti' & Hsub & Hx & Hy).
      unfold bind at 1 in Hx.
      destruct (compose_node k ti) as [[ik'| | |] tk] eqn:Hk; try done.
      unfold bind at 1 in Hx.
      destruct (compose_node v tk) as [[iv'| | |] tv] eqn:Hv; try done.
      eapply lookup_weaken_None; [by eapply IH|].
      etrans; [by apply Hfresh|]. etrans; [exact Hsub|].
      by eapply compose_node_grows.
Qed.

End Redefinition.

Section AnchorRedefinition.

Context (H : host).

(** X2. The anchors of a session are never cleared between its documents,
    so an anchor name can be defined once per session: after a document of
    the session has bound [A], a later document of the same session that
    defines [A] anywhere cannot be composed, and a document that is just a
    scalar anchored [A] raises [ComposerError] for a duplicate anchor. *)
Theorem anchor_redefined_in_session
    (s1 s2 : stream) (kw1 kw2 : load_kwargs) (st0 st2 st3 : pystate)
    (ld1 ld2 : loader) (D1 : ev) (n1 : node) (A : string) (entry : anchor_entry) :
  let st1 := (LocalAnchorLoader.reset_anchors st0).2 in
  LocalLoader.__init__ H s1 kw1 st1 = (Ok ld1, st1) →
  LocalAnchorLoader.compose_document ld1 D1 st1 = (Ok n1, st2) →
  LocalAnchorLoader.anchors_of ld1 st2 !! A = Some entry →
  rtc (session_step H) st2 st3 →
  LocalLoader.__init__ H s2 kw2 st3 = (Ok ld2, st3) →
  (∀ D2 p e n2 st4,
     ev_at p D2 = Some e → ev_anchor e = Some A →
     LocalAnchorLoader.compose_document ld2 D2 st3 ≠ (Ok n2, st4)) ∧
  ∀ tag v,
    (LocalAnchorLoader.compose_document ld2 (EScalar (Some A) tag v) st3).1
    = Raise (ComposerError (DuplicateAnchor A)).
Proof.
  intros st1 Hld1 HD1 HA Hsession Hld2.
  pose proof (compose_document_extends _ _ _ _ _ HD1) as [Hcls12 _].
  pose proof (session_extends _ _ _ Hsession) as [Hcls23 Hdicts23].
  assert (Hsame : anchors ld2 = anchors ld1).
  { injection Hld1 as <-. injection Hld2 as <-. simpl. by rewrite Hcls23, Hcls12. }
  destruct (anchors_of_lookup _ _ _ _ HA) as (t2 & Ht2 & HA2).
  destruct (Hdicts23 _ _ Ht2) as (t3 & Ht3 & Hsub23).
  assert (HA3 : LocalAnchorLoader.anchors_of ld2 st3 !! A = Some entry).
  { unfold LocalAnchorLoader.anchors_of. rewrite Hsame, Ht3. simpl.
    by eapply lookup_weaken. }
  split.
  - intros D2 p e n2 st4 Hat He HD2.
    destruct (compose_document_run _ _ _ _ _ HD2) as (t4 & Hrun).
    pose proof (compose_defines_fresh A p _ _ _ _ _ Hrun Hat He) as Hnone.
    by rewrite Hnone in HA3.
  - intros tag v. unfold LocalAnchorLoader.compose_document. cbn [compose_node].
    unfold bind at 1. simpl. by rewrite HA3.
Qed.

End AnchorRedefinition.

Lemma anchor_redefined_in_session_witness :
  (LocalAnchorLoader.compose_document
     {| anchors := 1; search_path := ["."]; escape_callback := EscapeDefault |}
     (EScalar (Some "base") STR_TAG "w")
     {| dicts := [∅; {["base" := Composed (ScalarNode STR_TAG "v")]}];
        cls_anchors := 1 |}).1
  = Raise (ComposerError (DuplicateAnchor "base")).
Proof.
  pose (ld := {| anchors := 1; search_path := ["."]; escape_callback := EscapeDefault |}).
  pose (st2 := {| dicts := [∅; {["base" := Composed (ScalarNode STR_TAG "v")]}];
                  cls_anchors := 1 |}).
  destruct (anchor_redefined_in_session Demo.os
              (text_stream "&base v") (text_stream "&base w") Demo.no_kwargs Demo.no_kwargs
              initial_state st2 st2 ld ld
              (EScalar (Some "base") STR_TAG "v") (ScalarNode STR_TAG "v")
              "base" (Composed (ScalarNode STR_TAG "v")))
    as [_ Hdup].
  - reflexivity.
  - by vm_compute.
  - by vm_compute.
  - apply rtc_refl.
  - reflexivity.
  - exact (Hdup STR_TAG "w").
Defined.

(* ================================================================== *)
(** * Properties: repeated keys and merge keys *)
(* ================================================================== *)

Lemma keys_setitem (d : list (string * value)) (k : string) (v : value) :
  OrderedDict.keys (OrderedDict.setitem d k v)
  = if bool_decide (k ∈ OrderedDict.keys d) then OrderedDict.keys d
    else OrderedDict.keys d ++ [k].
Proof.
  unfold OrderedDict.keys. induction d as [|[k' v'] d IH]; [done|].
  cbn [OrderedDict.setitem]. rewrite !fmap_cons.
  destruct (String.eqb_spec k' k) as [->|Hne]; rewrite ?fmap_cons; cbn [fst].
  - rewrite bool_decide_eq_true_2; [done|by left].
  - rewrite IH. destruct (bool_decide (k ∈ d.*1)) eqn:Hin.
    + apply bool_decide_eq_true in Hin.
      rewrite bool_decide_eq_true_2; [done|by right].
    + apply bool_decide_eq_false in Hin.
      rewrite bool_decide_eq_false_2; [done|].
      intros [?|?]%elem_of_cons; [by subst|done].
Qed.

Lemma getitem_setitem (d : list (string * value)) (k k' : string) (v : value) :
  OrderedDict.getitem (OrderedDict.setitem d k' v) k
  = if String.eqb k' k then Some v else OrderedDict.getitem d k.
Proof.
  induction d as [|[k0 v0] d IH]; simpl; [done|].
  destruct (String.eqb_spec k0 k') as [->|Hne]; simpl.
  - by destruct (String.eqb_spec k' k).
  - rewrite IH. destruct (String.eqb_spec k0 k) as [->|?]; [|done].
    by destruct (String.eqb_spec k' k) as [->|?].
Qed.

(** The keys in the order of their first occurrences. *)
Lemma first_occurrences_snoc (l : list string) (k : string) :
  reverse (remove_dups (reverse (l ++ [k])))
  = if bool_decide (k ∈ l) then reverse (remove_dups (reverse l))
    else reverse (remove_dups (reverse l)) ++ [k].
Proof.
  rewrite reverse_app. simpl.
  destruct (decide_rel elem_of k (reverse l)) as [Hin|Hin].
  - rewrite bool_decide_eq_true_2; [done|by apply elem_of_reverse].
  - rewrite bool_decide_eq_false_2 by (by rewrite <- elem_of_reverse).
    by rewrite reverse_cons.
Qed.

Lemma setitem_fold_keys (kvs : list (string * value)) :
  OrderedDict.keys (fold_left (λ m kv, OrderedDict.setitem m kv.1 kv.2) kvs [])
  = reverse (remove_dups (reverse kvs.*1)).
Proof.
  induction kvs as [|[k v] kvs IH] using rev_ind; [done|].
  rewrite fold_left_app, fmap_app. simpl.
  rewrite keys_setitem, first_occurrences_snoc, IH.
  assert (k ∈ reverse (remove_dups (reverse kvs.*1)) ↔ k ∈ kvs.*1) as Hiff.
  { by rewrite elem_of_reverse, elem_of_remove_dups, elem_of_reverse. }
  destruct (bool_decide (k ∈ kvs.*1)) eqn:Hin.
  - apply bool_decide_eq_true in Hin. rewrite bool_decide_eq_true_2; [done|by apply Hiff].
  - apply bool_decide_eq_false in Hin.
    rewrite bool_decide_eq_false_2; [done|by rewrite Hiff].
Qed.

Lemma setitem_fold_getitem (kvs : list (string * value)) (k : string) :
  OrderedDict.getitem (fold_left (λ m kv, OrderedDict.setitem m kv.1 kv.2) kvs []) k
  = OrderedDict.getitem (reverse kvs) k.
Proof.
  induction kvs as [|[k' v] kvs IH] using rev_ind; [done|].
  rewrite fold_left_app, reverse_app. simpl.
  by rewrite getitem_setitem, IH.
Qed.

Section RepeatedKeys.

Context (H : host).

(** The loop of [construct_yaml_map], with the values it constructs. *)
Lemma construct_pairs_values fuel ld ks :
  ∀ pairs (acc : M pystate (list (string * value))) st mapping st',
  string_keyed ks pairs →
  fold_left
    (λ (acc : M pystate (list (string * value))) '(key_node, value_node),
       let! mapping := acc in
       let! key := construct_object H fuel ld key_node in
       let! key := lift (hashable_key key) in
       let! value := construct_object H fuel ld value_node in
       ret (OrderedDict.setitem mapping key value))
    pairs acc st = (Ok mapping, st') →
  ∃ mapping0 st0 values,
    acc st = (Ok mapping0, st0) ∧
    Forall2 (λ value_node v,
               ∃ sta stb, construct_object H fuel ld value_node sta = (Ok v, stb))
            pairs.*2 values ∧
    mapping = fold_left (λ m kv, OrderedDict.setitem m kv.1 kv.2) (zip ks values) mapping0.
Proof.
  unfold string_keyed.
  induction ks as [|k ks IH]; intros pairs acc st mapping st' Hks Hfold.
  - destruct pairs; [|done]. simpl in Hfold. exists mapping, st', []. by repeat split.
  - destruct pairs as [|[key_node value_node] pairs]; [done|].
    simpl in Hks. injection Hks as -> Hks. simpl in Hfold.
    destruct (IH _ _ _ _ _ Hks Hfold) as (m1 & st1 & values & Hstep & Hvalues & ->).
    unfold bind at 1 in Hstep.
    destruct (acc st) as [[m0| | |] st0] eqn:Hacc; try done.
    unfold bind at 1 in Hstep.
    destruct (construct_object H fuel ld (ScalarNode STR_TAG k) st0)
      as [[key| | |] st0'] eqn:Hkey; try done.
    apply construct_string_key in Hkey as [-> ->].
    unfold bind at 1, lift at 1 in Hstep. simpl in Hstep.
    unfold bind at 1 in Hstep.
    destruct (construct_object H fuel ld value_node st0) as [[v| | |] st2] eqn:Hv; try done.
    injection Hstep as <- <-.
    exists m0, st0, (v :: values). split; [done|]. split; [|done].
    simpl. constructor; [by exists st0, st2|done].
Qed.

(** X3. A mapping node whose keys are plain strings, some of them repeated,
    constructs to a dictionary that holds every key once, at the place of
    its first occurrence, with the value constructed for its last
    occurrence. *)
Theorem mapping_repeated_keys fuel ld ks pairs st doc st' :
  string_keyed ks pairs →
  construct_object H (S fuel) ld (MappingNode MAP_TAG pairs) st = (Ok doc, st') →
  ∃ d values, doc = VDict d ∧
    Forall2 (λ value_node v,
               ∃ sta stb, construct_object H fuel ld value_node sta = (Ok v, stb))
            pairs.*2 values ∧
    OrderedDict.keys d = reverse (remove_dups (reverse ks)) ∧
    ∀ k, OrderedDict.getitem d k = OrderedDict.getitem (reverse (zip ks values)) k.
Proof.
  intros Hks.
  change (construct_object H (S fuel) ld (MappingNode MAP_TAG pairs))
    with (construct_yaml_map (construct_object H fuel) ld (MappingNode MAP_TAG pairs)).
  unfold construct_yaml_map. unfold bind at 1, lift at 1. cbn [flatten_mapping].
  rewrite (flatten_pairs_string_keyed _ ks) by done. cbn [res_bind app].
  unfold bind at 1.
  match goal with
  | |- context [fold_left ?f pairs ?a st] =>
      destruct (fold_left f pairs a st) as [[mapping| | |] st1] eqn:Hfold
  end; try done.
  intros [= <- <-].
  apply (construct_pairs_values _ _ ks) in Hfold as (m0 & st0 & values & Hacc & Hvalues & ->);
    [|done].
  injection Hacc as <- <-.
  assert (Hlen : length values = length ks).
  { apply Forall2_length in Hvalues. unfold string_keyed in Hks.
    apply (f_equal length) in Hks. rewrite !length_fmap in *. lia. }
  assert (Hzip : (zip ks values).*1 = ks) by (rewrite fst_zip; [done|lia]).
  set (mapping := fold_left _ (zip ks values) []).
  assert (Hkeys : OrderedDict.keys mapping = reverse (remove_dups (reverse ks))).
  { subst mapping. by rewrite setitem_fold_keys, Hzip. }
  assert (Hupdate : OrderedDict.update [] mapping = mapping).
  { rewrite update_fresh; [done|]. simpl. rewrite Hkeys.
    rewrite reverse_Permutation. apply NoDup_remove_dups. }
  exists mapping, values. rewrite Hupdate. split; [done|]. split; [done|]. split; [done|].
  intros k. subst mapping. apply setitem_fold_getitem.
Qed.

End RepeatedKeys.

Lemma mapping_repeated_keys_witness :
  ∃ d, (construct_object Demo.os 2 Demo.ld
          (MappingNode MAP_TAG
             [(ScalarNode STR_TAG "a", ScalarNode STR_TAG "x");
              (ScalarNode STR_TAG "b", ScalarNode STR_TAG "y");
              (ScalarNode STR_TAG "a", ScalarNode STR_TAG "z")]) initial_state).1
       = Ok (VDict d) ∧
       OrderedDict.keys d = ["a"; "b"] ∧ OrderedDict.getitem d "a" = Some (VStr "z").
Proof.
  destruct (mapping_repeated_keys Demo.os 1 Demo.ld ["a"; "b"; "a"]
              [(ScalarNode STR_TAG "a", ScalarNode STR_TAG "x");
               (ScalarNode STR_TAG "b", ScalarNode STR_TAG "y");
               (ScalarNode STR_TAG "a", ScalarNode STR_TAG "z")]
              initial_state (VDict [("a", VStr "z"); ("b", VStr "y")]) initial_state)
    as (d & values & Hd & _ & Hkeys & _).
  - reflexivity.
  - by vm_compute.
  - exists d. injection Hd as <-. split; [by vm_compute|]. split; by vm_compute.
Defined.

Lemma flatten_pairs_plain merged own rest :
  plain_keys own = true →
  flatten_pairs merged (own ++ rest)
  = res_bind (flatten_pairs merged rest) (λ '(merge, kept), Ok (merge, own ++ kept)).
Proof.
  unfold plain_keys. induction own as [|[key_node value_node] own IH]; simpl.
  - intros _. by destruct (flatten_pairs merged rest) as [[merge kept]| | |].
  - intros [[Hm Hv]%andb_true_iff Hown]%andb_true_iff.
    apply negb_true_iff in Hm, Hv. rewrite Hm, Hv, (IH Hown).
    by destruct (flatten_pairs merged rest) as [[merge kept]| | |].
Qed.

Lemma flatten_mapping_plain tag pairs :
  plain_keys pairs = true → flatten_mapping (MappingNode tag pairs) = Ok pairs.
Proof.
  intros Hplain. cbn [flatten_mapping].
  rewrite <- (app_nil_r pairs) at 1. rewrite flatten_pairs_plain by done.
  simpl. by rewrite app_nil_r.
Qed.

Section MergeKeys.

Context (H : host).

(** X4. A mapping with a merge key is constructed as if the pairs of the
    merged mapping were written first, before the mapping's own pairs,
    wherever the merge key stands: the merged keys come first in the
    dictionary, and an own key that repeats a merged one takes its place
    and replaces its value. *)
Theorem merge_key_pairs_first fuel ld (merge_key : node) (tag : string)
    (base own1 own2 : list (node * node)) :
  node_tag merge_key = MERGE_TAG →
  plain_keys base = true → plain_keys own1 = true → plain_keys own2 = true →
  construct_object H (S fuel) ld
    (MappingNode MAP_TAG (own1 ++ (merge_key, MappingNode tag base) :: own2))
  = construct_object H (S fuel) ld (MappingNode MAP_TAG (base ++ own1 ++ own2)).
Proof.
  intros Hmerge Hbase Hown1 Hown2.
  change (construct_yaml_map (construct_object H fuel) ld
            (MappingNode MAP_TAG (own1 ++ (merge_key, MappingNode tag base) :: own2))
          = construct_yaml_map (construct_object H fuel) ld
              (MappingNode MAP_TAG (base ++ own1 ++ own2))).
  unfold construct_yaml_map.
  assert (Hall : plain_keys (base ++ own1 ++ own2) = true).
  { unfold plain_keys in *. by rewrite !forallb_app, Hbase, Hown1, Hown2. }
  rewrite (flatten_mapping_plain _ _ Hall).
  assert (flatten_mapping (MappingNode MAP_TAG (own1 ++ (merge_key, MappingNode tag base) :: own2))
          = Ok (base ++ own1 ++ own2)) as ->; [|done].
  cbn [flatten_mapping]. rewrite flatten_pairs_plain by done.
  cbn [flatten_pairs]. rewrite Hmerge. cbn [String.eqb].
  change (String.eqb MERGE_TAG MERGE_TAG) with true. cbv iota.
  rewrite (flatten_mapping_plain tag base Hbase). cbn [res_bind].
  rewrite <- (app_nil_r own2) at 1. rewrite flatten_pairs_plain by done.
  simpl. by rewrite !app_nil_r.
Qed.

End MergeKeys.

Lemma merge_key_pairs_first_witness :
  (construct_object Demo.os 2 Demo.ld
     (MappingNode MAP_TAG
        [(ScalarNode STR_TAG "b", ScalarNode STR_TAG "own");
         (ScalarNode MERGE_TAG "<<",
          MappingNode MAP_TAG [(ScalarNode STR_TAG "a", ScalarNode STR_TAG "x");
                               (ScalarNode STR_TAG "b", ScalarNode STR_TAG "y")])])
     initial_state).1
  = Ok (VDict [("a", VStr "x"); ("b", VStr "own")]).
Proof.
  pose proof (merge_key_pairs_first Demo.os 1 Demo.ld (ScalarNode MERGE_TAG "<<") MAP_TAG
                [(ScalarNode STR_TAG "a", ScalarNode STR_TAG "x");
                 (ScalarNode STR_TAG "b", ScalarNode STR_TAG "y")]
                [(ScalarNode STR_TAG "b", ScalarNode STR_TAG "own")] []
                eq_refl eq_refl eq_refl eq_refl) as Heq.
  cbn [app] in Heq. rewrite Heq. by vm_compute.
Defined.

(* ================================================================== *)
(** * Properties: included documents *)
(* ================================================================== *)

Section IncludedDocuments.

Context (H : host).

(** A directory tried again after the whole search path adds nothing. *)
Lemma find_file_repeated filename d sp :
  d ∈ sp ∨ isfile H (candidate H filename d) = false →
  _find_file H filename (sp ++ [d]) = _find_file H filename sp.
Proof.
  unfold candidate. induction sp as [|x sp IH]; intros Hd; simpl.
  - destruct Hd as [Hd|Hd]; [by apply elem_of_nil in Hd|]. by rewrite Hd.
  - destruct (isfile H (expanduser H (path_join x filename))) eqn:Hx; [done|].
    apply IH. destruct Hd as [Hd|Hd]; [|by right].
    apply elem_of_cons in Hd as [->|Hd]; [by right|by left].
Qed.

(** X5. The loader that [YamlInclude._from_file] creates for an included
    document searches the directories of the including loader, and then
    the current directory once more: an included document finds every file
    where the including document finds it, and never relative to the
    directory of the included file. *)
Theorem included_loader_search_path (s : stream) (kw : load_kwargs) (st st' : pystate)
    (ld : loader) (text : string) :
  (∀ p, normpath H (normpath H p) = normpath H p) →
  LocalLoader.__init__ H s kw st = (Ok ld, st) →
  ∃ ld', LocalLoader.__init__ H (text_stream text) (included_kwargs ld) st' = (Ok ld', st') ∧
    search_path ld' = search_path ld ++ [normpath H curdir] ∧
    ∀ filename,
      _find_file H filename (search_path ld') = _find_file H filename (search_path ld).
Proof.
  intros Hidem [= <-]. eexists. split; [reflexivity|].
  cbn [search_path included_kwargs kw_search_path stream_name text_stream app].
  set (sp := match kw_search_path kw with Some ps => normpath H <$> ps | None => [] end
             ++ match stream_name s with
                | Some name => [normpath H (dirname H name)]
                | None => []
                end ++ [normpath H curdir]).
  assert (Hsp : normpath H <$> sp = sp).
  { subst sp. rewrite !fmap_app. f_equal; [|f_equal].
    - destruct (kw_search_path kw) as [ps|]; [|done].
      rewrite <- list_fmap_compose. apply list_fmap_ext. intros _ p _. apply Hidem.
    - destruct (stream_name s); [|done]. simpl. by rewrite Hidem.
    - simpl. by rewrite Hidem. }
  rewrite Hsp. split; [done|]. intros filename. apply find_file_repeated. left.
  subst sp. rewrite !elem_of_app. right. right. by left.
Qed.

(** X6. The escape callback of a loader is not handed on to the loaders of
    the documents it includes: an [!include-raw-escape:] inside a document
    included with [!include:] is escaped by [LocalLoader._escape], whatever
    callback the including loader was given. *)
Theorem included_document_default_escape (fuel : nat) (ld : loader)
    (tag p p' text q q' body : string) (st : pystate) :
  PyFormat.format p [] = Ok p' →
  read_text H (_find_file H p (search_path ld)) = Some text →
  yaml_parse H text = Ok [EScalar None "!include-raw-escape:" q] →
  PyFormat.format q [] = Ok q' →
  read_text H (_find_file H q ((normpath H <$> search_path ld) ++ [normpath H curdir]))
  = Some body →
  (from_yaml H (construct_object H (S fuel)) YamlInclude ld (ScalarNode tag p) st).1
  = Ok (VStr (double_braces body)).
Proof.
  intros Hp Htext Hparse Hq Hbody.
  cbn [from_yaml YamlInclude_from_yaml _from_file].
  unfold bind at 1. unfold _open_file. unfold bind at 1, lift at 1.
  cbn [construct_yaml_str construct_scalar]. rewrite Hp, Htext. unfold ret at 1.
  unfold yaml_load. unfold bind at 1. unfold LocalLoader.__init__ at 1.
  unfold bind at 1, lift at 1. cbn [stream_text text_stream]. rewrite Hparse.
  unfold bind at 1. unfold LocalAnchorLoader.get_single_node.
  unfold bind at 1. unfold LocalAnchorLoader.compose_document at 1.
  cbn [compose_node]. unfold bind at 1. cbn [check_anchor register]. unfold ret at 1.
  cbn [construct_object construct_node node_tag yaml_object_tag String.eqb Ascii.eqb
       Bool.eqb from_yaml YamlInclude_from_yaml _from_file].
  unfold bind at 1. unfold bind at 1. unfold _open_file. unfold bind at 1, lift at 1.
  cbn [construct_yaml_str construct_scalar]. rewrite Hq.
  cbn [search_path kw_search_path stream_name text_stream app].
  rewrite Hbody. by unfold ret at 1.
Qed.

End IncludedDocuments.

Lemma included_document_default_escape_witness :
  (from_yaml Site.os (construct_object Site.os 1) YamlInclude Site.ld
     (ScalarNode "!include:" "wrapper.yaml") initial_state).1
  = Ok (VStr "echo ${{HOME}}").
Proof.
  exact (included_document_default_escape Site.os 0 Site.ld "!include:"
           "wrapper.yaml" "wrapper.yaml" "!include-raw-escape: body.sh"
           "body.sh" "body.sh" "echo ${HOME}" initial_state
           eq_refl eq_refl eq_refl eq_refl eq_refl).
Defined.

Lemma included_loader_search_path_witness :
  _find_file Demo.os "f.txt" ["A"; "jobs"; "."; "."]
  = _find_file Demo.os "f.txt" ["A"; "jobs"; "."].
Proof.
  destruct (included_loader_search_path Demo.os
              {| stream_name := Some "jobs/project.yaml"; stream_text := "" |}
              {| kw_search_path := Some ["A"]; kw_escape_callback := None |}
              initial_state initial_state
              {| anchors := 0; search_path := ["A"; "jobs"; "."];
                 escape_callback := EscapeDefault |} "")
    as (ld' & Hld' & Hsp & Hfind).
  - done.
  - reflexivity.
  - injection Hld' as <-. exact (Hfind "f.txt").
Defined.

(* ================================================================== *)
(** * Properties: sequences of paths *)
(* ================================================================== *)

Lemma join_newline_strings (texts : list string) :
  join_newline (VStr <$> texts) = Ok (join_lines texts).
Proof.
  unfold join_lines. induction texts as [|s texts IH]; [done|].
  destruct texts as [|s' texts]; [done|].
  change (join_newline (VStr <$> s :: s' :: texts))
    with (res_bind (join_newline (VStr <$> s' :: texts))
            (λ tail, Ok (s +:+ String "010" tail))).
  by rewrite IH.
Qed.

Lemma double_braces_app (a b : string) :
  double_braces (a +:+ b) = double_braces a +:+ double_braces b.
Proof.
  induction a as [|c a IH]; [done|].
  rewrite append_cons. cbn [double_braces]. rewrite IH.
  by destruct (Ascii.eqb c "{" || Ascii.eqb c "}").
Qed.

Lemma double_braces_join (texts : list string) :
  double_braces (join_lines texts) = join_lines (double_braces <$> texts).
Proof.
  unfold join_lines. induction texts as [|s texts IH]; [done|].
  destruct texts as [|s' texts]; [done|].
  change (String.concat LF (s :: s' :: texts))
    with (s +:+ LF +:+ String.concat LF (s' :: texts)).
  change (String.concat LF (double_braces <$> s :: s' :: texts))
    with (double_braces s +:+ LF +:+ String.concat LF (double_braces <$> s' :: texts)).
  by rewrite !double_braces_app, IH.
Qed.

Section Sequences.

Context (H : host) (co : loader → node → M pystate value).

Lemma open_file_text cls ld n text st :
  includes_text H (search_path ld) n text →
  _open_file H cls ld n st = (Ok (Text text), st).
Proof.
  intros (tag & path & path' & -> & Hformat & Hread).
  unfold _open_file. unfold bind at 1, lift at 1.
  cbn [construct_yaml_str construct_scalar]. by rewrite Hformat, Hread.
Qed.

Lemma from_file_raw_texts ld items texts st :
  Forall2 (includes_text H (search_path ld)) items texts →
  mapM (_from_file H co YamlIncludeRaw ld) items st = (Ok (VStr <$> texts), st).
Proof.
  induction 1 as [|n text items texts Hn _ IH]; [done|].
  cbn [mapM]. unfold bind at 1. cbn [_from_file]. unfold bind at 1.
  rewrite (open_file_text _ _ _ _ _ Hn). unfold ret at 1.
  unfold bind at 1. by rewrite IH.
Qed.

(** X7. An [!include-raw:] of a sequence of paths, each complete and each
    resolving to a file, gives the texts of the files in the order of the
    paths, joined by single line feeds, and leaves the store as it was;
    for an empty sequence it gives the empty string. Under
    [!include-raw-escape:] with the default callback the joined text is
    escaped, which is the same as joining the escaped texts. *)
Theorem include_raw_sequence (ld : loader) (tag : string) (items : list node)
    (texts : list string) (st : pystate) :
  Forall2 (includes_text H (search_path ld)) items texts →
  from_yaml H co YamlIncludeRaw ld (SequenceNode tag items) st
  = (Ok (VStr (join_lines texts)), st) ∧
  (escape_callback ld = EscapeDefault →
   from_yaml H co YamlIncludeRawEscape ld (SequenceNode tag items) st
   = (Ok (VStr (join_lines (double_braces <$> texts))), st)).
Proof.
  intros Hitems.
  assert (Hraw : YamlInclude_from_yaml H co YamlIncludeRaw ld (SequenceNode tag items) st
                 = (Ok (VStr (join_lines texts)), st)).
  { cbn [YamlInclude_from_yaml]. unfold bind at 1.
    rewrite (from_file_raw_texts _ _ _ _ Hitems).
    assert (existsb is_LazyLoader (VStr <$> texts) = false) as ->.
    { clear. induction texts; [done|]. by simpl. }
    unfold bind at 1, lift at 1. by rewrite join_newline_strings. }
  split; [exact Hraw|].
  intros Hcb. cbn [from_yaml]. unfold bind at 1. rewrite Hraw.
  cbn [is_LazyLoader]. unfold lift, call_escape. rewrite Hcb.
  cbn [_escape]. by rewrite double_braces_join.
Qed.

End Sequences.

Lemma include_raw_sequence_witness :
  from_yaml Site.os (construct_object Site.os 0) YamlIncludeRaw Site.ld
    (SequenceNode "!include-raw:" [ScalarNode STR_TAG "head.sh"; ScalarNode STR_TAG "body.sh"])
    initial_state
  = (Ok (VStr ("#!/bin/sh" +:+ LF +:+ "echo ${HOME}")), initial_state).
Proof.
  refine (proj1 (include_raw_sequence Site.os (construct_object Site.os 0) Site.ld
                   "!include-raw:"
                   [ScalarNode STR_TAG "head.sh"; ScalarNode STR_TAG "body.sh"]
                   ["#!/bin/sh"; "echo ${HOME}"] initial_state _)).
  repeat constructor.
  - by exists STR_TAG, "head.sh", "head.sh".
  - by exists STR_TAG, "body.sh", "body.sh".
Defined.

(* ================================================================== *)
(** * Properties: the deprecated tags *)
(* ================================================================== *)

Section DeprecatedTags.

Context (H : host).

(** The tag of the node matters to [from_yaml] only when it stores the
    node in a [LazyLoader]. *)
Lemma from_yaml_any_tag (co : loader → node → M pystate value) cls ld n t1 t2 :
  complete_path n = true →
  from_yaml H co cls ld (retag t1 n) = from_yaml H co cls ld (retag t2 n).
Proof.
  intros Hn.
  assert (Hopen : ∀ c v, lazy_path v = false →
            _open_file H c ld (ScalarNode t1 v) = _open_file H c ld (ScalarNode t2 v)).
  { intros c v Hv. unfold _open_file, lazy_path in *.
    cbn [construct_yaml_str construct_scalar]. unfold bind, lift.
    destruct (PyFormat.format v []) as [?|[]| |]; done. }
  assert (Hinner : ∀ c, YamlInclude_from_yaml H co c ld (retag t1 n)
                        = YamlInclude_from_yaml H co c ld (retag t2 n)).
  { intros c. destruct n as [t v|t items|t items]; [|done..].
    simpl in Hn. apply negb_true_iff in Hn.
    destruct c; cbn [retag YamlInclude_from_yaml _from_file]; by rewrite Hopen. }
  destruct cls; cbn [from_yaml]; by rewrite Hinner.
Qed.

(** X8. A node under a deprecated tag, [!include], [!include-raw] or
    [!include-raw-escape], is constructed exactly as the same node under
    the tag with the trailing colon, unless it is a scalar whose path is
    kept for later (the [LazyLoader] then holds the node with the tag it
    came with). *)
Theorem deprecated_tag_same (fuel : nat) (ld : loader) (old : string)
    (cls : include_class) (n : node) :
  yaml_object_tag old = Some (cls, true) →
  complete_path n = true →
  construct_object H (S fuel) ld (retag old n)
  = construct_object H (S fuel) ld (retag (yaml_tag cls) n).
Proof.
  intros Hold Hn. cbn [construct_object]. unfold construct_node.
  assert (Htag : ∀ t, node_tag (retag t n) = t) by (intros t; by destruct n).
  rewrite !Htag, Hold.
  assert (yaml_object_tag (yaml_tag cls) = Some (cls, false)) as -> by (by destruct cls).
  unfold DeprecatedTag_from_yaml. by apply from_yaml_any_tag.
Qed.

End DeprecatedTags.

Lemma deprecated_tag_same_witness :
  construct_object Site.os 1 Site.ld (ScalarNode "!include-raw" "body.sh")
  = construct_object Site.os 1 Site.ld (ScalarNode "!include-raw:" "body.sh").
Proof.
  exact (deprecated_tag_same Site.os 0 Site.ld "!include-raw" YamlIncludeRaw
           (ScalarNode "" "body.sh") eq_refl eq_refl).
Defined.

(* ================================================================== *)
(** * Properties: formatting a collection *)
(* ================================================================== *)

Section Collections.

Context (H : host).

Lemma format_item_text fuel kwargs item text st :
  member_text H kwargs item text →
  ∃ item', LazyLoaderCollection.format_item H fuel item kwargs st = (Ok (VStr text), item', st).
Proof.
  destruct item as [|s| | | |lz|]; try done; simpl.
  - intros ->. by eexists.
  - intros (Hcls & path & Hformat & Htext).
    unfold LazyLoader.format. rewrite Hformat, Hcls.
    cbn [from_yaml YamlInclude_from_yaml _from_file _node_tag _node_value _loader].
    unfold bind at 1. rewrite (open_file_text _ _ _ _ _ _ Htext). by eexists.
Qed.

(** X9. [LazyLoaderCollection.format] formats every member, in order, and
    joins the results by line feeds. A member that was read at parse time
    is a string, and is itself formatted by [str.format] with the same
    arguments; a lazy [!include-raw:] member formats its path and gives
    the text of the file, unformatted. *)
Theorem collection_format_members (fuel : nat) (kwargs : list (string * value))
    (_data : list value) (texts : list string) (st : pystate) :
  Forall2 (member_text H kwargs) _data texts →
  ∃ _data', LazyLoaderCollection.format H fuel _data kwargs st
            = (Ok (VStr (join_lines texts)), _data', st).
Proof.
  intros Hmembers. unfold LazyLoaderCollection.format.
  assert (∃ _data', LazyLoaderCollection.format_items H fuel _data kwargs st
                    = (Ok (VStr <$> texts), _data', st)) as [_data' ->].
  { induction Hmembers as [|item text items texts Hitem _ [items' IH]]; [by eexists|].
    cbn [LazyLoaderCollection.format_items].
    destruct (format_item_text fuel _ _ _ st Hitem) as [item' ->].
    rewrite IH. by eexists. }
  exists _data'. cbn [res_bind]. by rewrite join_newline_strings.
Qed.

End Collections.

Lemma collection_format_members_witness :
  ∃ _data',
    LazyLoaderCollection.format Site.os 0 [VStr "#!/bin/sh"; VLazy Site.tail]
      [("v", VStr "1.0")] initial_state
    = (Ok (VStr ("#!/bin/sh" +:+ LF +:+ "exit 0")), _data', initial_state).
Proof.
  refine (collection_format_members Site.os 0 [("v", VStr "1.0")]
            [VStr "#!/bin/sh"; VLazy Site.tail] ["#!/bin/sh"; "exit 0"] initial_state _).
  repeat constructor.
  exists "1.0/tail.sh". split; [reflexivity|].
  by exists "!include-raw:", "1.0/tail.sh", "1.0/tail.sh".
Defined.

(* ================================================================== *)
(** * Properties: handlers *)
(* ================================================================== *)

(** X10. A handler that was registered is the one [getHandler] returns for
    its category and name, and registering it leaves every handler that
    was registered under another category or name where it was. *)
Theorem handler_registered {T} (category name : string) (method : T)
    (handlers : gmap string (gmap string T)) :
  Registry.getHandler category name (Registry.registerHandler category name method handlers)
  = Ok method ∧
  ∀ category' name' method',
    (category', name') ≠ (category, name) →
    Registry.getHandler category' name' handlers = Ok method' →
    Registry.getHandler category' name'
      (Registry.registerHandler category name method handlers) = Ok method'.
Proof.
  unfold Registry.getHandler, Registry.registerHandler. split.
  - by rewrite !lookup_insert_eq.
  - intros category' name' method' Hne.
    destruct (decide (category' = category)) as [->|Hc].
    + rewrite lookup_insert_eq.
      destruct (handlers !! category) as [cat_dict|] eqn:Hcat; [|done]. simpl.
      rewrite lookup_insert_ne by congruence. done.
    + rewrite lookup_insert_ne by done.
      destruct (decide (size _ = 0)); [by rewrite lookup_insert_ne|done].
Qed.

Lemma handler_registered_witness :
  Registry.getHandler "scm" "git"
    (Registry.registerHandler "scm" "hg" 2
       (Registry.registerHandler "scm" "git" 1 (∅ : gmap string (gmap string nat))))
  = Ok 1.
Proof.
  refine (proj2 (handler_registered "scm" "hg" 2
                   (Registry.registerHandler "scm" "git" 1 ∅)) "scm" "git" 1 _ _).
  - done.
  - by vm_compute.
Defined.

(* ================================================================== *)
(** * Properties: the plugins *)
(* ================================================================== *)

Lemma sub_from_empty fuel : Registry.sub_from fuel "" = "".
Proof. by destruct fuel. Qed.

Lemma match_at_suffix (base suffix : string) :
  Registry.one_line base = true →
  Registry.match_at suffix = Some ("", "") →
  Registry.match_at (base +:+ suffix) = Some (base, "").
Proof.
  unfold Registry.one_line. intros Hbase Hsuffix.
  induction base as [|c base IH]; [done|].
  simpl in Hbase. apply andb_true_iff in Hbase as [Hc Hbase].
  apply negb_true_iff in Hc.
  rewrite append_cons. cbn [Registry.match_at]. by rewrite Hc, (IH Hbase).
Qed.

Lemma match_at_has_suffix (s : string) :
  Registry.has_suffix s = false → Registry.match_at s = None.
Proof.
  induction s as [|c s IH]; [done|].
  cbn [Registry.has_suffix Registry.match_at]. intros [Hhere Hs]%orb_false_iff.
  apply bool_decide_eq_false in Hhere.
  destruct (Registry.suffix_at (String c s)) as [after|] eqn:Hat; [by destruct Hhere|].
  rewrite (IH Hs). simpl. by destruct (Ascii.eqb c "010").
Qed.

Lemma sub_from_unchanged fuel : ∀ s,
  Registry.has_suffix s = false → Registry.sub_from fuel s = s.
Proof.
  induction fuel as [|fuel IH]; intros s Hs; [done|].
  cbn [Registry.sub_from]. rewrite (match_at_has_suffix _ Hs).
  destruct s as [|c s]; [done|]. f_equal. apply IH.
  cbn [Registry.has_suffix] in Hs. by apply orb_false_iff in Hs as [_ ?].
Qed.

(** X11. The version of a plugin that ends in [-SNAPSHOT] or [-BETA] is
    recorded with [.preview] in place of that ending, and a version in
    which neither ending occurs anywhere is recorded as it is. *)
Theorem version_preview (base version : string) :
  Registry.one_line base = true →
  Registry.has_suffix version = false →
  Registry.sub_preview (base +:+ "-SNAPSHOT") = base +:+ ".preview" ∧
  Registry.sub_preview (base +:+ "-BETA") = base +:+ ".preview" ∧
  Registry.sub_preview version = version.
Proof.
  intros Hbase Hversion.
  assert (Hsub : ∀ suffix, suffix ≠ "" → Registry.match_at suffix = Some ("", "") →
            Registry.sub_preview (base +:+ suffix) = base +:+ ".preview").
  { intros suffix Hne Hsuffix. unfold Registry.sub_preview.
    destruct (String.length (base +:+ suffix)) as [|fuel] eqn:Hlen.
    - destruct base; [by destruct suffix|done].
    - cbn [Registry.sub_from]. rewrite (match_at_suffix _ _ Hbase Hsuffix).
      by rewrite sub_from_empty, append_empty_r. }
  split; [by apply Hsub|]. split; [by apply Hsub|].
  by apply sub_from_unchanged.
Qed.

Lemma version_preview_witness :
  Registry.sub_preview "1.4.2-SNAPSHOT" = "1.4.2.preview" ∧
  Registry.sub_preview "2.0-BETA" = "2.0.preview" ∧
  Registry.sub_preview "1.609.3" = "1.609.3".
Proof.
  split; [|split].
  - exact (proj1 (version_preview "1.4.2" "" eq_refl eq_refl)).
  - exact (proj1 (proj2 (version_preview "2.0" "" eq_refl eq_refl))).
  - exact (proj2 (proj2 (version_preview "" "1.609.3" eq_refl eq_refl))).
Defined.

Lemma getitem_setitem_other (d : list (string * value)) (k k' : string) (v : value) :
  k' ≠ k →
  OrderedDict.getitem (OrderedDict.setitem d k' v) k = OrderedDict.getitem d k.
Proof.
  intros Hne. rewrite getitem_setitem. by destruct (String.eqb_spec k' k).
Qed.

Lemma aliases_lookup (d : list (string * value)) (v : value) (name : string) names :
  Registry.aliases d ["longName"; "shortName"] = Ok names →
  fold_left (λ (acc : gmap string value) n, <[n := v]> acc) names ∅ !! name
  = if Registry.is_name name (OrderedDict.getitem d "longName")
       || Registry.is_name name (OrderedDict.getitem d "shortName")
    then Some v else None.
Proof.
  cbn [Registry.aliases].
  destruct (OrderedDict.getitem d "longName") as [[|l| | | | |]|];
    destruct (OrderedDict.getitem d "shortName") as [[|s| | | | |]|];
    simpl; try done; intros [= <-]; simpl;
    repeat match goal with
    | |- context [String.eqb ?a ?b] => destruct (String.eqb_spec a b) as [->|?]
    end; simpl;
    rewrite ?lookup_insert_eq, ?lookup_insert_ne, ?lookup_empty by done; try done.
  all: by rewrite ?lookup_insert_eq, ?lookup_insert_ne, ?lookup_empty by done.
Qed.

Lemma mutate_plugin_info_lookup (p : value) (d : gmap string value) (name : string) :
  Registry.mutate_plugin_info p = Ok d →
  d !! name
  = if Registry.has_alias name (Registry.normalised p) then Some (Registry.normalised p)
    else None.
Proof.
  unfold Registry.mutate_plugin_info, Registry.normalised.
  destruct p as [|?|? ?|?|info|?|?]; try done.
  destruct (default (VStr "0") (OrderedDict.getitem info "version")) as [|version| | | | |];
    try done.
  destruct (Registry.aliases _ _) as [names| | |] eqn:Hnames; try done.
  intros [= <-]. by rewrite (aliases_lookup _ _ name _ Hnames).
Qed.

Lemma plugins_fold_lookup (name : string) : ∀ plugins_list ds (acc : gmap string value),
  Registry.list_of_dicts plugins_list = Ok ds →
  fold_left (λ plugins_info_dict d, d ∪ plugins_info_dict) ds acc !! name
  = from_option Some (acc !! name)
      (last (List.filter (Registry.has_alias name) (Registry.normalised <$> plugins_list))).
Proof.
  induction plugins_list as [|p l IH]; intros ds acc.
  - by intros [= <-].
  - cbn [Registry.list_of_dicts].
    destruct (Registry.mutate_plugin_info p) as [d| | |] eqn:Hd; try done.
    destruct (Registry.list_of_dicts l) as [ds'| | |] eqn:Hds; try done.
    intros [= <-]. cbn [fold_left]. rewrite (IH _ _ eq_refl).
    rewrite fmap_cons. cbn [List.filter].
    rewrite lookup_union, (mutate_plugin_info_lookup _ _ name Hd).
    destruct (Registry.has_alias name (Registry.normalised p)).
    + rewrite last_cons.
      destruct (last (List.filter _ _)); simpl; [done|].
      by rewrite union_Some_l.
    + rewrite (left_id None _). done.
Qed.

(** X12. [get_plugin_info] returns, for a name, the plugin of the list
    that has this name as its [longName] or its [shortName], with the
    version rewritten; when several have, the last of them; when none has,
    the empty dictionary. *)
Theorem plugin_info_by_name (plugins_list : list value) (plugins_dict : gmap string value)
    (plugin_name : string) :
  Registry._get_plugins_info_dict plugins_list = Ok plugins_dict →
  Registry.get_plugin_info plugins_dict plugin_name
  = default (VDict [])
      (last (List.filter (Registry.has_alias plugin_name)
               (Registry.normalised <$> plugins_list))).
Proof.
  unfold Registry._get_plugins_info_dict, Registry.get_plugin_info.
  destruct (Registry.list_of_dicts plugins_list) as [ds| | |] eqn:Hds; try done.
  intros [= <-]. rewrite (plugins_fold_lookup plugin_name _ _ ∅ Hds).
  rewrite lookup_empty. by destruct (last _).
Qed.

Lemma plugin_info_by_name_witness :
  ∃ plugins_dict,
    Registry._get_plugins_info_dict
      [VDict [("longName", VStr "Git plugin"); ("shortName", VStr "git");
              ("version", VStr "2.4-SNAPSHOT")]] = Ok plugins_dict ∧
    Registry.get_plugin_info plugins_dict "git"
    = VDict [("longName", VStr "Git plugin"); ("shortName", VStr "git");
             ("version", VStr "2.4.preview")].
Proof.
  destruct (Registry._get_plugins_info_dict
              [VDict [("longName", VStr "Git plugin"); ("shortName", VStr "git");
                      ("version", VStr "2.4-SNAPSHOT")]]) as [d| | |] eqn:Hd;
    try (by vm_compute in Hd).
  exists d. split; [done|].
  rewrite (plugin_info_by_name _ _ "git" Hd). by vm_compute.
Defined.

Lemma strip_prefix_length (p s after : string) :
  Registry.strip_prefix p s = Some after → String.length s = String.length p + String.length after.
Proof.
  revert s. induction p as [|a p IH]; intros [|b s]; simpl; try done.
  - by intros [= <-].
  - by intros [= <-].
  - destruct (Ascii.eqb a b); [|done]. intros Hs. by rewrite (IH _ Hs).
Qed.

Lemma match_at_shorter (s group after : string) :
  Registry.match_at s = Some (group, after) → String.length after < String.length s.
Proof.
  revert group. induction s as [|c s IH]; intros group; [done|].
  cbn [Registry.match_at].
  assert (Hhere : ∀ g, option_map (λ a, (EmptyString, a)) (Registry.suffix_at (String c s))
                       = Some (g, after) → String.length after < String.length (String c s)).
  { intros g. unfold Registry.suffix_at.
    destruct (Registry.strip_prefix "-SNAPSHOT" (String c s)) as [a|] eqn:Hs.
    - intros [= <- <-]. apply strip_prefix_length in Hs. rewrite Hs. simpl. lia.
    - destruct (Registry.strip_prefix "-BETA" (String c s)) as [a|] eqn:Hb; [|done].
      intros [= <- <-]. apply strip_prefix_length in Hb. rewrite Hb. simpl. lia. }
  destruct (Ascii.eqb c "010"); [apply Hhere|].
  destruct (Registry.match_at s) as [[g a]|] eqn:Hs; [|apply Hhere].
  intros [= <- <-]. specialize (IH _ eq_refl). simpl. lia.
Qed.

(** The fuel that [sub_preview] gives is enough: more changes nothing. *)
Lemma sub_from_enough (fuel : nat) : ∀ extra s,
  String.length s ≤ fuel → Registry.sub_from (fuel + extra) s = Registry.sub_from fuel s.
Proof.
  induction fuel as [|fuel IH]; intros extra s Hlen.
  - destruct s; [|simpl in Hlen; lia]. by rewrite sub_from_empty.
  - cbn [Nat.add Registry.sub_from].
    destruct (Registry.match_at s) as [[group after]|] eqn:Hs.
    + apply match_at_shorter in Hs. rewrite IH by lia. done.
    + destruct s as [|c s]; [done|]. simpl in Hlen. rewrite IH by lia. done.
Qed.

(* ================================================================== *)
(** * Properties: the modules of a registry *)
(* ================================================================== *)

Section Modules.

Import Registry.

Local Open Scope Z_scope.

Lemma insert_by_sequence_sorted (m : module) (l : list module) :
  Sorted (λ a b, sequence a ≤ sequence b) l →
  Sorted (λ a b, sequence a ≤ sequence b) (insert_by_sequence m l).
Proof.
  induction 1 as [|x l Hl IH Hx]; simpl; [by repeat constructor|].
  destruct (Z.leb_spec (sequence m) (sequence x)).
  - repeat constructor; done.
  - constructor; [done|].
    destruct l as [|y l]; simpl in *.
    + constructor. lia.
    + destruct (Z.leb_spec (sequence m) (sequence y)); constructor; [lia|].
      by inversion Hx.
Qed.

Lemma sort_by_sequence_sorted (l : list module) :
  Sorted (λ a b, sequence a ≤ sequence b) (sort_by_sequence l).
Proof.
  induction l as [|m l IH]; [constructor|]. by apply insert_by_sequence_sorted.
Qed.

Lemma insert_by_sequence_filter (z : Z) (m : module) (l : list module) :
  filter (λ x, sequence x = z) (insert_by_sequence m l)
  = filter (λ x, sequence x = z) (m :: l).
Proof.
  induction l as [|x l IH]; [done|]. simpl.
  destruct (Z.leb_spec (sequence m) (sequence x)); [done|].
  rewrite filter_cons, IH, !filter_cons.
  destruct (decide (sequence x = z)), (decide (sequence m = z)); try done. lia.
Qed.

Lemma sort_by_sequence_filter (z : Z) (l : list module) :
  filter (λ x, sequence x = z) (sort_by_sequence l) = filter (λ x, sequence x = z) l.
Proof.
  induction l as [|m l IH]; [done|].
  cbn [sort_by_sequence foldr]. rewrite insert_by_sequence_filter.
  rewrite !filter_cons. fold (sort_by_sequence l). by rewrite IH.
Qed.

(** X13. When a registry is created, [self.modules] ends up sorted by
    [sequence], the modules of one sequence in the order in which their
    entry points were loaded, and [self.modules_by_component_type] maps a
    component type to the entry point of the last module loaded with that
    type. *)
Theorem modules_sorted_by_sequence (loaded : list module) :
  Sorted (λ a b, sequence a ≤ sequence b) (__init__ loaded).1 ∧
  (∀ z, filter (λ m, sequence m = z) (__init__ loaded).1
        = filter (λ m, sequence m = z) loaded) ∧
  ∀ t, (__init__ loaded).2 !! t
       = entrypoint <$> last (filter (λ m, component_type m = Some t) loaded).
Proof.
  induction loaded as [|m loaded IH] using rev_ind.
  - split; [constructor|]. split; [done|]. intros t. simpl. by rewrite lookup_empty.
  - unfold __init__ in *. rewrite fold_left_app. cbn [fold_left].
    destruct (fold_left _ loaded _) as [modules by_type]. cbn [fst snd] in *.
    destruct IH as (_ & Hfilter & Hby). split; [apply sort_by_sequence_sorted|]. split.
    + intros z. by rewrite sort_by_sequence_filter, !filter_app, Hfilter.
    + intros t. rewrite filter_app, filter_cons, filter_nil.
      destruct (decide (component_type m = Some t)) as [Hm|Hm].
      * rewrite Hm, lookup_insert_eq. by rewrite last_snoc.
      * rewrite app_nil_r.
        destruct (component_type m) as [t'|]; [|done].
        rewrite lookup_insert_ne by congruence. done.
Qed.

End Modules.

(* ================================================================== *)
(** * Properties: the entry point cache and the recursion of macros *)
(* ================================================================== *)

Section Cache.

Import ModuleRegistry.

Lemma collect_eps_outcome component_type name l : ∀ acc,
  (∃ eps, collect_eps component_type name l acc = Ok eps ∧ NoDup l.*1) ∨
  collect_eps component_type name l acc
  = Raise (JenkinsJobsException (duplicate_entry_point component_type name)).
Proof.
  induction l as [|[ep_name func] l IH]; intros acc; simpl.
  - left. eexists. split; [done|constructor].
  - destruct (acc !! ep_name) eqn:Hacc; [by right|].
    destruct (IH (<[ep_name := func]> acc)) as [(eps & Heps & Hnd)|Hdup]; [|by right].
    left. exists eps. split; [done|]. constructor; [|done].
    clear IH Hnd. intros Hin. revert acc Hacc Heps.
    induction l as [|[k f] l IHl]; intros acc Hacc; [by apply elem_of_nil in Hin|].
    simpl in *. destruct (decide (k = ep_name)) as [->|Hne].
    + by rewrite lookup_insert_eq.
    + rewrite lookup_insert_ne by done.
      destruct (acc !! k) eqn:Hk; [done|].
      apply elem_of_cons in Hin as [?|Hin]; [done|].
      rewrite insert_insert_ne by done. apply (IHl Hin).
      by rewrite lookup_insert_ne.
Qed.

Lemma collect_eps_repeated component_type name l acc :
  ¬ NoDup l.*1 →
  collect_eps component_type name l acc
  = Raise (JenkinsJobsException (duplicate_entry_point component_type name)).
Proof.
  intros Hdup. by destruct (collect_eps_outcome component_type name l acc) as [(? & _ & ?)|].
Qed.

Lemma collect_eps_distinct component_type name l :
  NoDup l.*1 → ∃ eps, collect_eps component_type name l ∅ = Ok eps.
Proof.
  intros Hnd.
  assert (∀ acc, (∀ k, k ∈ l.*1 → acc !! k = None) →
            ∃ eps, collect_eps component_type name l acc = Ok eps) as Hgen.
  { induction l as [|[k f] l IH]; intros acc Hacc; simpl; [by eexists|].
    apply NoDup_cons in Hnd as [Hk Hnd].
    rewrite Hacc by (by left). apply IH; [done|].
    intros k' Hk'. rewrite lookup_insert_ne; [apply Hacc; by right|].
    by intros ->. }
  apply Hgen. intros k _. apply lookup_empty.
Qed.

(** X14. When two component functions of a module have the same name, the
    first dispatch to a component of that type raises
    [JenkinsJobsException]; the message names the component that was being
    dispatched, not the function found twice. Nothing is cached, so every
    later dispatch to the type fails in the same way. *)
Theorem duplicate_entry_point_raises (self : registry) (component_type : string)
    (ep : entry_point) (fuel : nat) (component template_data data : value)
    (name : string) (st : dstate) :
  modules_by_component_type self !! component_type = Some ep →
  name_and_data self component template_data = Ok (name, data) →
  entry_points_cache st !! component_list_type ep = None →
  ¬ NoDup (module_eps ep).*1 →
  dispatch (S fuel) self component_type component template_data st
  = (Raise (JenkinsJobsException
              ("Duplicate entry point found for component type: '" +:+ component_type
               +:+ "', '" +:+ component_type +:+ "',name: '" +:+ name +:+ "'")), st).
Proof.
  intros Hep Hname Hcache Hdup. simpl. rewrite Hep.
  unfold bind at 1. unfold lift at 1. rewrite Hname. simpl.
  unfold bind at 1. unfold entry_points. rewrite Hcache.
  by rewrite (collect_eps_repeated _ _ _ _ Hdup).
Qed.

Lemma keeps_cache_ret {A} (a : A) : keeps_cache (ret a).
Proof. by intros st r st' [= <- <-]. Qed.

Lemma keeps_cache_raise {A} e : keeps_cache (@raise dstate A e).
Proof. by intros st r st' [= <- <-]. Qed.

Lemma keeps_cache_lift {A} (r : res A) : keeps_cache (lift r).
Proof. by intros st r' st' [= <- <-]. Qed.

Lemma keeps_cache_bind {A B} (m : M dstate A) (k : A → M dstate B) :
  keeps_cache m → (∀ a, keeps_cache (k a)) → keeps_cache (bind m k).
Proof.
  intros Hm Hk st r st'. unfold bind.
  destruct (m st) as [[a| | |] st1] eqn:Hms; try (intros [= <- <-]; by eapply Hm).
  intros Hks. etrans; [by eapply Hm|by eapply Hk].
Qed.

Lemma keeps_cache_for_each {A} (f : A → M dstate unit) (l : list A) :
  (∀ x, keeps_cache (f x)) → keeps_cache (for_each f l).
Proof.
  intros Hf. induction l as [|x l IH]; simpl; [apply keeps_cache_ret|].
  apply keeps_cache_bind; [done|]. by intros _.
Qed.

Lemma keeps_cache_entry_points component_type name ep :
  keeps_cache (entry_points component_type name ep).
Proof.
  intros st r st'. unfold entry_points.
  destruct (entry_points_cache st !! _) eqn:Hc; [by intros [= <- <-]|].
  destruct (collect_eps _ _ _ _); intros [= <- <-]; try done.
  simpl. by apply insert_subseteq.
Qed.

(** [dispatch] adds to the entry point cache and never takes from it. *)
Lemma dispatch_keeps_cache fuel : ∀ self component_type component template_data,
  keeps_cache (dispatch fuel self component_type component template_data).
Proof.
  induction fuel as [|fuel IH]; intros self component_type component template_data.
  - by intros st r st' [= <- <-].
  - cbn [dispatch]. destruct (modules_by_component_type self !! component_type);
      [|apply keeps_cache_raise].
    apply keeps_cache_bind; [apply keeps_cache_lift|]. intros named.
    apply keeps_cache_bind; [apply keeps_cache_entry_points|]. intros eps.
    destruct (truthy _) as [[]|].
    + apply keeps_cache_bind.
      { intros st r st'. unfold warn_masked. by destruct (_ && _); intros [= <- <-]. }
      intros _. apply keeps_cache_bind; [apply keeps_cache_lift|]. intros body.
      apply keeps_cache_for_each. intros b. apply IH.
    + destruct (eps !! _); [|apply keeps_cache_raise].
      intros st r st'. unfold call_generator.
      by destruct (_ _ _); intros [= <- <-].
    + by intros st r st' [= <- <-].
Qed.

(** X15. The entry point cache belongs to the class and is keyed by the
    component list type: once it holds the functions of a list type, a
    registry whose module for that list type has other functions
    dispatches exactly as the registry that filled the cache, macros
    included. *)
Theorem cached_entry_points_shared (self1 self2 : registry) (component_type : string)
    (ep1 ep2 : entry_point) (eps : gmap string generator) :
  parser_data self1 = parser_data self2 →
  allow_empty_variables self1 = allow_empty_variables self2 →
  modules_by_component_type self1 !! component_type = Some ep1 →
  modules_by_component_type self2 !! component_type = Some ep2 →
  component_list_type ep1 = component_list_type ep2 →
  ∀ fuel component template_data st,
    entry_points_cache st !! component_list_type ep1 = Some eps →
    dispatch fuel self1 component_type component template_data st
    = dispatch fuel self2 component_type component template_data st.
Proof.
  intros Hdata Hallow Hep1 Hep2 Htype.
  induction fuel as [|fuel IH]; intros component template_data st Hcache; [done|].
  cbn [dispatch]. rewrite Hep1, Hep2, <- Htype, <- Hdata.
  assert (name_and_data self1 component template_data
          = name_and_data self2 component template_data) as <-.
  { unfold name_and_data. by rewrite Hallow. }
  unfold bind at 1. unfold lift at 1. symmetry. unfold bind at 1. unfold lift at 1.
  destruct (name_and_data self1 component template_data) as [[name data]| | |]; try done.
  cbn [fst snd].
  assert (∀ ep, component_list_type ep = component_list_type ep1 →
            entry_points component_type name ep st = (Ok eps, st)) as Hhit.
  { intros ep Hep. unfold entry_points. by rewrite Hep, Hcache. }
  unfold bind at 1. rewrite (Hhit ep2 (eq_sym Htype)).
  symmetry. unfold bind at 1. rewrite (Hhit ep1 eq_refl).
  destruct (truthy _) as [[]|]; try done.
  unfold bind at 1. symmetry. unfold bind at 1.
  destruct (warn_masked name eps st) as [[[]| | |] st1] eqn:Hwarn; try done.
  assert (Hcache1 : entry_points_cache st1 !! component_list_type ep1 = Some eps).
  { unfold warn_masked in Hwarn. by destruct (_ && _); injection Hwarn as <-. }
  unfold bind at 1. unfold lift at 1. symmetry. unfold bind at 1. unfold lift at 1.
  destruct (macro_body _ _) as [body| | |]; try done.
  clear Hwarn. revert st1 Hcache1.
  induction body as [|b body IHbody]; intros st1 Hcache1; [done|].
  cbn [for_each]. unfold bind at 1. symmetry. unfold bind at 1.
  rewrite <- (IH _ _ _ Hcache1).
  destruct (dispatch fuel self1 component_type b data st1) as [[[]| | |] st2] eqn:Hb; try done.
  symmetry. apply IHbody. eapply lookup_weaken; [exact Hcache1|].
  by eapply dispatch_keeps_cache.
Qed.

(** X16. A macro whose body invokes the macro itself makes [dispatch]
    recurse without end: whatever bound is put on the depth of the
    recursion, the bound is reached and no result is returned. *)
Theorem recursive_macro_never_returns (self : registry) (component_type : string)
    (ep : entry_point) (name : string) (definition : list (string * value))
    (rest : list value) :
  modules_by_component_type self !! component_type = Some ep →
  NoDup (module_eps ep).*1 →
  default ∅ (parser_data self !! component_type) !! name = Some (VDict definition) →
  OrderedDict.getitem definition (component_list_type ep) = Some (VList (VStr name :: rest)) →
  ∀ fuel template_data st,
    (dispatch fuel self component_type (VStr name) template_data st).1 = OutOfFuel.
Proof.
  intros Hep Hnd Hmacro Hbody.
  induction fuel as [|fuel IH]; intros template_data st; [done|].
  cbn [dispatch]. rewrite Hep. unfold bind at 1. unfold lift at 1.
  cbn [name_and_data fst snd]. unfold bind at 1.
  assert (∃ eps st1, entry_points component_type name ep st = (Ok eps, st1))
    as (eps & st1 & ->).
  { unfold entry_points. destruct (entry_points_cache st !! _); [by eexists _, _|].
    destruct (collect_eps_distinct component_type name _ Hnd) as [eps ->].
    by eexists _, _. }
  rewrite Hmacro.
  change (default VNone (Some (VDict definition))) with (VDict definition).
  assert (truthy (VDict definition) = Some true) as -> by (by destruct definition).
  unfold bind at 1.
  destruct (warn_masked name eps st1) as [[[]| | |] st2] eqn:Hwarn;
    try (unfold warn_masked in Hwarn; by destruct (_ && _)).
  unfold bind at 1. unfold lift at 1. cbn [macro_body]. rewrite Hbody. cbn [iterate].
  cbn [for_each]. unfold bind at 1.
  specialize (IH (VDict []) st2).
  by destruct (dispatch fuel self component_type (VStr name) (VDict []) st2) as [[[]| | |] st3].
Qed.

End Cache.

Lemma duplicate_entry_point_raises_witness :
  (ModuleRegistry.dispatch 1 Loop.doubled "builder"
     (VDict [("shell", VDict [("value", VStr "make")])]) (VDict []) Demo.start).1
  = Raise (JenkinsJobsException
             "Duplicate entry point found for component type: 'builder', 'builder',name: 'shell'").
Proof.
  refine (f_equal fst (duplicate_entry_point_raises Loop.doubled "builder" Loop.twice 0
            (VDict [("shell", VDict [("value", VStr "make")])]) (VDict [])
            (VDict [("value", VStr "make")]) "shell" Demo.start _ _ _ _)).
  - reflexivity.
  - reflexivity.
  - reflexivity.
  - intros Hnd. apply NoDup_cons in Hnd as [Hin _]. apply Hin. by left.
Defined.

Lemma cached_entry_points_shared_witness :
  ModuleRegistry.dispatch 1 Demo.reg "builder"
    (VDict [("shell", VDict [("value", VStr "make")])]) (VDict []) Loop.filled
  = ModuleRegistry.dispatch 1 Loop.later "builder"
      (VDict [("shell", VDict [("value", VStr "make")])]) (VDict []) Loop.filled.
Proof.
  refine (cached_entry_points_shared Demo.reg Loop.later "builder" Demo.builders
            {| component_list_type := "builders";
               module_eps := [("shell", Loop.other_shell)] |}
            {["shell" := Demo.shell]} eq_refl eq_refl _ _ eq_refl
            1 (VDict [("shell", VDict [("value", VStr "make")])]) (VDict [])
            Loop.filled _).
  all: by vm_compute.
Defined.

Lemma recursive_macro_never_returns_witness :
  (ModuleRegistry.dispatch 1000 Loop.reg "builder" (VStr "again") (VDict []) Demo.start).1
  = OutOfFuel.
Proof.
  refine (recursive_macro_never_returns Loop.reg "builder" Demo.builders "again"
            [("name", VStr "again"); ("builders", VList [VStr "again"])] []
            _ _ _ _ 1000 (VDict []) Demo.start).
  - reflexivity.
  - repeat constructor. by intros ?%elem_of_nil.
  - reflexivity.
  - reflexivity.
Defined.

(* ================================================================== *)
(** * Properties: [convert_mapping_to_xml] *)
(* ================================================================== *)

Section ConvertMapping.

Import helpers.

(** The element that [convert_elem] appends for a text. *)
Local Abbreviation emitted elem text := (XML.Elem (xmlname elem) [] (PyStr text) []).

Local Abbreviation appended parent child :=
  (XML.with_children parent (XML.children parent ++ [child])).

(** One step of the loop skips the element, or returns having appended
    one element that holds a string, or fails and leaves the parent as it
    is. *)
Lemma convert_elem_outcome data fail_required elem parent r parent' :
  convert_elem data fail_required elem parent = (r, parent') →
  (r = Returns tt ∧ fail_required = false ∧ parent' = parent ∧
   Py.get data (optname elem) (val elem) = Returns PyNone) ∨
  (r = Returns tt ∧ ∃ v text,
     Py.get data (optname elem) (val elem) = Returns v ∧ v ≠ PyNone ∧
     parent' = appended parent (emitted elem text)) ∨
  (parent' = parent ∧ ∀ a, r ≠ Returns a).
Proof.
  unfold convert_elem. unfold XML.bind at 1. unfold XML.lift at 1.
  destruct (Py.get data (optname elem) (val elem)) as [v| |];
    try (intros [= <- <-]; by right; right).
  destruct v, fail_required;
    try (intros [= <- <-]; by right; right);
    try (intros [= <- <-]; by left);
    unfold XML.bind, XML.lift, XML.ret, XML.throw;
    repeat (case_match; simplify_eq; try (intros [= <- <-]; by right; right));
    unfold XML.SubElement, XML.set_text; intros [= <- <-]; right; left;
    (split; [done|]); by eexists _, _.
Qed.

Lemma for_each_app {A} (f : A → XML.builder unit) (l1 l2 : list A) parent :
  XML.for_each f (l1 ++ l2) parent
  = match XML.for_each f l1 parent with
    | (Returns _, parent1) => XML.for_each f l2 parent1
    | other => other
    end.
Proof.
  revert parent. induction l1 as [|x l1 IH]; intros parent; [done|].
  cbn [app XML.for_each]. unfold XML.bind.
  destruct (f x parent) as [[[]| |] parent1]; [apply IH|done..].
Qed.

Lemma with_children_twice parent c1 c2 :
  XML.with_children (XML.with_children parent c1) c2 = XML.with_children parent c2.
Proof. by destruct parent. Qed.

Lemma children_with_children parent c : XML.children (XML.with_children parent c) = c.
Proof. by destruct parent. Qed.

Lemma with_children_same parent : XML.with_children parent (XML.children parent) = parent.
Proof. by destruct parent. Qed.

(** X17. When [convert_mapping_to_xml] returns with [fail_required] true,
    it has appended to the parent exactly one element for each element of
    the mapping, in the order of the mapping: the element has the tag
    [xmlname], no attribute, no child, and a string as text. The children
    that the parent had, its tag, attributes and text are as they were. *)
Theorem convert_mapping_one_element_each data mapping : ∀ parent parent',
  convert_mapping_to_xml data mapping true parent = (Returns tt, parent') →
  ∃ texts, length texts = length mapping ∧
    parent' = XML.with_children parent
                (XML.children parent
                 ++ zip_with (λ elem text, XML.Elem (xmlname elem) [] (PyStr text) [])
                      mapping texts).
Proof.
  unfold convert_mapping_to_xml.
  induction mapping as [|elem mapping IH]; intros parent parent'.
  - intros [= <-]. exists []. split; [done|]. simpl.
    by rewrite app_nil_r, with_children_same.
  - cbn [XML.for_each]. unfold XML.bind at 1.
    destruct (convert_elem data true elem parent) as [r parent1] eqn:Helem.
    apply convert_elem_outcome in Helem
      as [(_ & [=] & _)|[(-> & v & text & _ & _ & ->)|(-> & Hr)]].
    + intros Hrest. apply IH in Hrest as (texts & Hlen & ->).
      exists (text :: texts). split; [simpl; by rewrite Hlen|].
      rewrite with_children_twice, children_with_children. simpl.
      by rewrite <- app_assoc.
    + destruct r as [[]| |]; [by destruct (Hr tt)|done..].
Qed.

(** X18. With [fail_required] true, an element of the mapping whose value
    is [None], in the data or by default when the data has none, stops the
    conversion with [MissingAttributeError] for its option name; the
    elements appended for the mapping elements before it remain. *)
Theorem convert_mapping_required_missing data before elem after parent parent1 :
  convert_mapping_to_xml data before true parent = (Returns tt, parent1) →
  Py.get data (optname elem) (val elem) = Returns PyNone →
  convert_mapping_to_xml data (before ++ elem :: after) true parent
  = (Raises (MissingAttributeError (optname elem)), parent1).
Proof.
  unfold convert_mapping_to_xml. intros Hbefore Hnone.
  rewrite for_each_app, Hbefore. cbn [XML.for_each]. unfold XML.bind at 1.
  unfold convert_elem. unfold XML.bind at 1. unfold XML.lift at 1. by rewrite Hnone.
Qed.

(** X19. With [fail_required] false, the elements of the mapping whose
    value is [None] are passed over: the conversion is that of the mapping
    without them, and it never raises [MissingAttributeError]. *)
Theorem convert_mapping_optional_skipped data mapping parent :
  convert_mapping_to_xml data mapping false parent
  = convert_mapping_to_xml data
      (List.filter (λ elem, negb (resolves_none data elem)) mapping) false parent ∧
  ∀ name, (convert_mapping_to_xml data mapping false parent).1
          ≠ Raises (MissingAttributeError name).
Proof.
  unfold convert_mapping_to_xml. revert parent.
  induction mapping as [|elem mapping IH]; intros parent; [done|].
  cbn [XML.for_each List.filter]. unfold resolves_none at 1.
  destruct (Py.get data (optname elem) (val elem)) as [v| |] eqn:Hget.
  - assert (v = PyNone ∨ match v with PyNone => true | _ => false end = false)
      as [->|Hv] by (destruct v; (by left) || (by right)).
    + assert (Hstep : convert_elem data false elem parent = (Returns tt, parent)).
      { unfold convert_elem, XML.bind, XML.lift. by rewrite Hget. }
      cbn [negb]. unfold XML.bind. rewrite Hstep. apply IH.
    + rewrite Hv. cbn [negb XML.for_each]. unfold XML.bind.
      destruct (convert_elem data false elem parent) as [r parent1] eqn:Helem.
      destruct r as [[]|e|w]; [apply IH| |done].
      split; [done|]. simpl. intros name [= ->].
      unfold convert_elem in Helem. unfold XML.bind at 1 in Helem.
      unfold XML.lift at 1 in Helem. rewrite Hget in Helem.
      destruct v; try done;
        unfold XML.bind, XML.lift, XML.ret, XML.throw in Helem;
        repeat (case_match; simplify_eq).
      all: unfold Py.bind, Py.getitem, Py.str, Py.str_lower, Py.contains, Py.get in *;
        repeat (case_match; simplify_eq).
      all: by destruct b.
  - assert (Hstep : convert_elem data false elem parent = (Raises e, parent)).
    { unfold convert_elem, XML.bind, XML.lift. by rewrite Hget. }
    assert (e ≠ MissingAttributeError (optname elem) ∧ True) as _.
    { split; [|done]. unfold Py.get in Hget. destruct data; by simplify_eq. }
    cbn [negb XML.for_each]. unfold XML.bind. rewrite Hstep. split; [done|].
    simpl. intros name [= ->]. unfold Py.get in Hget. destruct data; by simplify_eq.
  - assert (Hstep : convert_elem data false elem parent = (Outside why, parent)).
    { unfold convert_elem, XML.bind, XML.lift. by rewrite Hget. }
    cbn [negb XML.for_each]. unfold XML.bind. rewrite Hstep. by split.
Qed.

Lemma eq_true_one (y : obj) : Py.eq (PyBool true) y = Py.eq (PyInt 1) y.
Proof. by destruct y as [|[]| | | |]. Qed.

Lemma member_true_one (l : list obj) : Py.member (PyBool true) l = Py.member (PyInt 1) l.
Proof.
  induction l as [|y l IH]; [done|]. cbn [Py.member]. by rewrite eq_true_one, IH.
Qed.

(** X20. The valid options of a mapping element are compared with the
    value by the equality of Python. A value that equals none of them
    raises [InvalidAttributeError] with the option name, the value and the
    options, and nothing is appended. The boolean [True] equals the integer
    1: where 1 is a valid option, [True] is accepted, and is written as the
    text [true]. *)
Theorem convert_mapping_valid_options (d : list (string * obj)) (fail_required : bool)
    (o x : string) (default value : obj) (options : list obj) (parent : XML.element) :
  options ≠ [] →
  (Py.get (PyDict d) o default = Returns value →
   value ≠ PyNone →
   Py.member value options = Some false →
   convert_mapping_to_xml (PyDict d) [tuple4 o x default (PyList options)] fail_required
     parent
   = (Raises (InvalidAttributeError o value (Some options)), parent)) ∧
  (Py.member (PyInt 1) options = Some true →
   convert_mapping_to_xml (PyDict [(o, PyBool true)])
     [tuple4 o x default (PyList options)] fail_required parent
   = (Returns tt,
      XML.with_children parent
        (XML.children parent ++ [XML.Elem x [] (PyStr "true") []]))).
Proof.
  intros Hoptions. unfold convert_mapping_to_xml. cbn [XML.for_each].
  assert (Htruth : Py.truth (PyList options) = true).
  { simpl. by rewrite bool_decide_eq_false_2. }
  split.
  - intros Hget Hvalue Hmember. unfold XML.bind at 1. unfold convert_elem.
    unfold XML.bind at 1. unfold XML.lift at 1. cbn [optname val tuple4]. rewrite Hget.
    unfold valid_options, valid_dict. cbn [more tuple4].
    destruct value, fail_required; try done;
      unfold XML.bind, XML.lift, XML.ret, XML.throw; rewrite Htruth;
      cbn [Py.truth bool_decide decide_rel negb]; cbn [Py.contains]; by rewrite Hmember.
  - intros Hone. unfold XML.bind at 1. unfold convert_elem.
    unfold XML.bind at 1. unfold XML.lift at 1. cbn [optname val tuple4 Py.get Py.assoc].
    rewrite String.eqb_refl. cbn [from_option id].
    unfold valid_options, valid_dict. cbn [more tuple4].
    rewrite <- member_true_one in Hone.
    destruct fail_required;
      unfold XML.bind, XML.lift, XML.ret, XML.throw; rewrite Htruth;
      cbn [Py.truth bool_decide decide_rel negb]; cbn [Py.contains]; by rewrite Hone.
Qed.

(** X21. A value that is a list or a dictionary cannot be converted by a
    mapping element of three items: the test [val in valid_dict] hashes
    the value, also when [valid_dict] is empty, and [TypeError] is raised
    before anything is appended. *)
Theorem convert_mapping_unhashable_value (data : obj) (fail_required : bool)
    (o x : string) (default value : obj) (parent : XML.element) :
  Py.get data o default = Returns value →
  (∃ l, value = PyList l) ∨ (∃ items, value = PyDict items) →
  convert_mapping_to_xml data [tuple3 o x default] fail_required parent
  = (Raises (Python (TypeError "unhashable type")), parent).
Proof.
  intros Hget Hvalue. unfold convert_mapping_to_xml. cbn [XML.for_each].
  unfold XML.bind at 1. unfold convert_elem.
  unfold XML.bind at 1. unfold XML.lift at 1. cbn [optname val tuple3]. rewrite Hget.
  by destruct Hvalue as [[l ->]|[items ->]], fail_required.
Qed.

End ConvertMapping.

Lemma convert_mapping_one_element_each_witness :
  ∃ texts, length texts = 3 ∧
    XML.Elem "publisher" [] PyNone
      [XML.Elem "isRankActivated" [] (PyStr "true") [];
       XML.Elem "includePattern" [] (PyStr "") [];
       XML.Elem "excludePattern" [] (PyStr "") []]
    = XML.with_children (XML.Elem "publisher" [] PyNone [])
        (XML.children (XML.Elem "publisher" [] PyNone [])
         ++ zip_with (λ elem text, XML.Elem (helpers.xmlname elem) [] (PyStr text) [])
              [helpers.tuple3 "rank-priority" "isRankActivated" (PyBool false);
               helpers.tuple3 "include-files" "includePattern" (PyStr "");
               helpers.tuple3 "exclude-files" "excludePattern" (PyStr "")] texts).
Proof.
  refine (convert_mapping_one_element_each (PyDict [("rank-priority", PyBool true)])
            [helpers.tuple3 "rank-priority" "isRankActivated" (PyBool false);
             helpers.tuple3 "include-files" "includePattern" (PyStr "");
             helpers.tuple3 "exclude-files" "excludePattern" (PyStr "")]
            (XML.Elem "publisher" [] PyNone []) _ _).
  by vm_compute.
Defined.

Lemma convert_mapping_required_missing_witness :
  helpers.convert_mapping_to_xml (PyDict [("target", PyStr "out")])
    [helpers.tuple3 "target" "targetLocation" (PyStr "");
     helpers.tuple3 "file-id" "fileId" PyNone;
     helpers.tuple3 "variable" "variable" (PyStr "")] true
    (XML.Elem "file" [] PyNone [])
  = (Raises (MissingAttributeError "file-id"),
     XML.Elem "file" [] PyNone [XML.Elem "targetLocation" [] (PyStr "out") []]).
Proof.
  exact (convert_mapping_required_missing (PyDict [("target", PyStr "out")])
           [helpers.tuple3 "target" "targetLocation" (PyStr "")]
           (helpers.tuple3 "file-id" "fileId" PyNone)
           [helpers.tuple3 "variable" "variable" (PyStr "")]
           (XML.Elem "file" [] PyNone [])
           (XML.Elem "file" [] PyNone [XML.Elem "targetLocation" [] (PyStr "out") []])
           eq_refl eq_refl).
Defined.

Lemma convert_mapping_valid_options_witness :
  helpers.convert_mapping_to_xml (PyDict [("screenshot-interval", PyInt 3)])
    [helpers.tuple4 "screenshot-interval" "screenshotInterval" (PyInt 1)
       (PyList [PyInt 1; PyInt 2; PyInt 5])] true (XML.Elem "fairy" [] PyNone [])
  = (Raises (InvalidAttributeError "screenshot-interval" (PyInt 3)
               (Some [PyInt 1; PyInt 2; PyInt 5])),
     XML.Elem "fairy" [] PyNone []) ∧
  helpers.convert_mapping_to_xml (PyDict [("screenshot-interval", PyBool true)])
    [helpers.tuple4 "screenshot-interval" "screenshotInterval" (PyInt 1)
       (PyList [PyInt 1; PyInt 2; PyInt 5])] true (XML.Elem "fairy" [] PyNone [])
  = (Returns tt,
     XML.Elem "fairy" [] PyNone [XML.Elem "screenshotInterval" [] (PyStr "true") []]).
Proof.
  destruct (convert_mapping_valid_options [("screenshot-interval", PyInt 3)] true
              "screenshot-interval" "screenshotInterval" (PyInt 1) (PyInt 3)
              [PyInt 1; PyInt 2; PyInt 5] (XML.Elem "fairy" [] PyNone []))
    as [Hinvalid Htrue]; [done|].
  split; [by apply Hinvalid|by apply Htrue].
Defined.

Lemma convert_mapping_unhashable_value_witness :
  helpers.findbugs_settings
    (PyDict [("rank-priority", PyList [PyStr "high"])]) (XML.Elem "publisher" [] PyNone [])
  = (Raises (Python (TypeError "unhashable type")), XML.Elem "publisher" [] PyNone []).
Proof.
  pose proof (convert_mapping_unhashable_value
                (PyDict [("rank-priority", PyList [PyStr "high"])]) true
                "rank-priority" "isRankActivated" (PyBool false) (PyList [PyStr "high"])
                (XML.Elem "publisher" [] PyNone []) eq_refl
                (or_introl (ex_intro _ [PyStr "high"] eq_refl))) as Hraise.
  unfold helpers.findbugs_settings, helpers.convert_mapping_to_xml in *.
  cbn [XML.for_each] in *. unfold XML.bind in *.
  by destruct (helpers.convert_elem _ _ _ _) as [[[]| |] ?]; simplify_eq.
Defined.

(* ================================================================== *)
(** * Properties: what component functions do to the element *)
(* ================================================================== *)

Section Appending.

Import helpers.

Lemma appends_ret {A} (a : A) : appends (XML.ret a).
Proof.
  intros e r e' [= <- <-]. exists []. by rewrite app_nil_r, with_children_same.
Qed.

Lemma appends_throw {A} x : appends (@XML.throw A x).
Proof.
  intros e r e' [= <- <-]. exists []. by rewrite app_nil_r, with_children_same.
Qed.

Lemma appends_lift {A} (o : outcome A) : appends (XML.lift o).
Proof.
  intros e r e' [= <- <-]. exists []. by rewrite app_nil_r, with_children_same.
Qed.

Lemma appends_bind {A B} (m : XML.builder A) (k : A → XML.builder B) :
  appends m → (∀ a, appends (k a)) → appends (XML.bind m k).
Proof.
  intros Hm Hk e r e'. unfold XML.bind.
  destruct (m e) as [[a|x|w] e1] eqn:Hme; try (intros [= <- <-]; by eapply Hm).
  intros Hke. destruct (Hm _ _ _ Hme) as [kids1 ->].
  destruct (Hk _ _ _ _ Hke) as [kids2 ->].
  exists (kids1 ++ kids2).
  by rewrite with_children_twice, children_with_children, app_assoc.
Qed.

Lemma appends_for_each {A} (f : A → XML.builder unit) (l : list A) :
  (∀ x, appends (f x)) → appends (XML.for_each f l).
Proof.
  intros Hf. induction l as [|x l IH]; simpl; [apply appends_ret|].
  apply appends_bind; [done|]. by intros _.
Qed.

Lemma SubElement_appends_one {A} tag attrib (body : XML.builder A) :
  appends_one (XML.SubElement tag attrib body).
Proof.
  intros e r e'. unfold XML.SubElement.
  destruct (body _) as [r1 child]. intros [= <- <-]. by exists child.
Qed.

Lemma appends_one_appends {A} (m : XML.builder A) : appends_one m → appends m.
Proof. intros Hm e r e' Hrun. destruct (Hm _ _ _ Hrun) as [child ->]. by exists [child]. Qed.

Lemma appends_text_element tag value : appends (text_element tag value).
Proof.
  apply appends_bind; [apply appends_lift|]. intros v.
  apply appends_one_appends, SubElement_appends_one.
Qed.

Lemma appends_when_equal select name body :
  appends body → appends (when_equal select name body).
Proof.
  intros Hbody. apply appends_bind; [apply appends_lift|]. intros [|]; [done|].
  apply appends_ret.
Qed.

(** The child that [SubElement] creates, when the work on it only appends:
    it keeps its tag and its attributes and has no text. *)
Lemma SubElement_child {A} tag attrib (body : XML.builder A) e r e' :
  appends body →
  XML.SubElement tag attrib body e = (r, e') →
  ∃ kids, e' = appended e (XML.Elem tag attrib PyNone kids).
Proof.
  intros Hbody. unfold XML.SubElement.
  destruct (body _) as [r1 child] eqn:Hrun. intros [= <- <-].
  destruct (Hbody _ _ _ Hrun) as [kids ->]. by exists kids.
Qed.

Lemma one_or_fails_of_one {A} (m : XML.builder A) :
  appends_one m → appends_one_or_fails m.
Proof. intros Hm e r e' Hrun. right. by eapply Hm. Qed.

Lemma one_or_fails_throw {A} x : appends_one_or_fails (@XML.throw A x).
Proof. intros e r e' [= <- <-]. by left. Qed.

(** A computation that does not touch the element before it goes on. *)
Lemma one_or_fails_after_lift {A B} (o : outcome A) (k : A → XML.builder B) :
  (∀ a, appends_one_or_fails (k a)) → appends_one_or_fails (XML.bind (XML.lift o) k).
Proof.
  intros Hk e r e'. unfold XML.bind, XML.lift.
  destruct o as [a|x|w]; [apply Hk|..]; intros [= <- <-]; by left.
Qed.

Lemma last_child_appended {A} (body : XML.builder A) e child :
  XML.last_child body (appended e child)
  = let '(r, child') := body child in (r, appended e child').
Proof.
  unfold XML.last_child, XML.within, appended.
  rewrite children_with_children, length_app. simpl.
  replace (Init.Nat.pred (length (XML.children e) + 1)) with (length (XML.children e) + 0)
    by lia.
  rewrite lookup_app_r by lia.
  replace (length (XML.children e) + 0 - length (XML.children e)) with 0 by lia.
  simpl. destruct (body child) as [r child'].
  rewrite with_children_twice, insert_app_r. done.
Qed.

Lemma appends_one_then_last_child {A B} (m : XML.builder A) (body : XML.builder B) :
  appends_one m → appends_one (XML.bind m (λ _, XML.last_child body)).
Proof.
  intros Hm e r e'. unfold XML.bind.
  destruct (m e) as [[a|x|w] e1] eqn:Hme; try (intros [= <- <-]; by eapply Hm).
  destruct (Hm _ _ _ Hme) as [child ->]. rewrite last_child_appended.
  destruct (body child) as [r1 child']. intros [= <- <-]. by exists child'.
Qed.

End Appending.

Section ComponentFunctions.

Import helpers parameters triggers.

Lemma base_param_appends_one data do_default ptype :
  appends_one (base_param data do_default ptype).
Proof. apply SubElement_appends_one. Qed.

(** X22. Each of the modelled component functions of [parameters.py] and
    [triggers.py] changes the element it is given in one way only: it
    appends exactly one child. When it raises, it has appended that child,
    possibly incomplete, or nothing at all; the tag, the attributes, the
    text and the earlier children of the element are never touched. *)
Theorem component_functions_append_one (f : obj → XML.builder unit) (data : obj)
    (e e' : XML.element) (r : outcome unit) :
  f ∈ component_functions →
  f data e = (r, e') →
  (e' = e ∧ ∀ a, r ≠ Returns a) ∨
  ∃ child, e' = XML.with_children e (XML.children e ++ [child]).
Proof.
  intros Hf. revert e r e'. change (appends_one_or_fails (f data)).
  unfold component_functions in Hf. rewrite !elem_of_cons, elem_of_nil in Hf.
  repeat (destruct Hf as [->|Hf]); try done.
  - apply one_or_fails_of_one, base_param_appends_one.
  - apply one_or_fails_of_one, base_param_appends_one.
  - apply one_or_fails_after_lift. intros default.
    apply one_or_fails_of_one, base_param_appends_one.
  - apply one_or_fails_of_one, base_param_appends_one.
  - apply one_or_fails_of_one, base_param_appends_one.
  - apply one_or_fails_of_one, base_param_appends_one.
  - apply one_or_fails_of_one, base_param_appends_one.
  - apply one_or_fails_of_one, appends_one_then_last_child, base_param_appends_one.
  - apply one_or_fails_of_one, appends_one_then_last_child, base_param_appends_one.
  - apply one_or_fails_of_one, appends_one_then_last_child, base_param_appends_one.
  - apply one_or_fails_of_one, appends_one_then_last_child, base_param_appends_one.
  - apply one_or_fails_of_one, SubElement_appends_one.
  - apply one_or_fails_of_one, SubElement_appends_one.
  - apply one_or_fails_of_one, SubElement_appends_one.
  - apply one_or_fails_after_lift. intros settings.
    apply one_or_fails_after_lift. intros empty.
    destruct (_ && _); [apply one_or_fails_throw|].
    apply one_or_fails_of_one, SubElement_appends_one.
  - apply one_or_fails_of_one, SubElement_appends_one.
  - apply one_or_fails_of_one, SubElement_appends_one.
  - apply one_or_fails_of_one, SubElement_appends_one.
  - apply one_or_fails_of_one, SubElement_appends_one.
  - apply one_or_fails_of_one, SubElement_appends_one.
Qed.

End ComponentFunctions.

Lemma component_functions_append_one_witness :
  ∃ child,
    XML.Elem "parameterDefinitions" [] PyNone
      [XML.Elem "hudson.model.StringParameterDefinition" [] PyNone []]
    = XML.with_children (XML.Elem "parameterDefinitions" [] PyNone [])
        (XML.children (XML.Elem "parameterDefinitions" [] PyNone []) ++ [child]).
Proof.
  destruct (component_functions_append_one parameters.string_param
              (PyDict [("default", PyStr "x")])
              (XML.Elem "parameterDefinitions" [] PyNone [])
              (XML.Elem "parameterDefinitions" [] PyNone
                 [XML.Elem "hudson.model.StringParameterDefinition" [] PyNone []])
              (Raises (Python (KeyError "name"))))
    as [[Hsame _]|Hchild].
  - by left.
  - by vm_compute.
  - discriminate Hsame.
  - exact Hchild.
Defined.

(* ================================================================== *)
(** * Properties: the helpers for build selectors and stacks *)
(* ================================================================== *)

Section Selectors.

Import helpers.

Lemma selectdict_names select v :
  Py.assoc selectdict select = Some v → ∃ name, v = PyStr name.
Proof.
  unfold selectdict. cbn [Py.assoc].
  repeat (case_match; [intros [= <-]; by eexists|]). done.
Qed.

(** X23. [copyartifact_build_selector] checks [which-build] and then
    [permalink], each against its dictionary, before it creates anything:
    a value that is not a key raises [InvalidAttributeError] and leaves the
    parent as it was. The permalink is checked also when [which-build] is
    not [permalink]. When both are keys, exactly one element is appended,
    whatever happens afterwards: it has the tag [select_tag] and the
    attribute [class], the name of the selector class after the package of
    the copyartifact plugin, or of the multijob plugin for
    [multijob-build]. *)
Theorem copyartifact_selector_checks (d : list (string * obj))
    (select permalink select_tag : string) (parent : XML.element) :
  Py.get (PyDict d) "which-build" (PyStr "last-successful") = Returns (PyStr select) →
  Py.get (PyDict d) "permalink" (PyStr "last") = Returns (PyStr permalink) →
  (Py.assoc selectdict select = None →
   copyartifact_build_selector (PyDict d) select_tag parent
   = (Raises (InvalidAttributeError "which-build" (PyStr select)
                (Some (Py.keys selectdict))), parent)) ∧
  (is_Some (Py.assoc selectdict select) → Py.assoc permalinkdict permalink = None →
   copyartifact_build_selector (PyDict d) select_tag parent
   = (Raises (InvalidAttributeError "permalink" (PyStr permalink)
                (Some (Py.keys permalinkdict))), parent)) ∧
  (is_Some (Py.assoc selectdict select) → is_Some (Py.assoc permalinkdict permalink) →
   ∃ name kids,
     Py.assoc selectdict select = Some (PyStr name) ∧
     (copyartifact_build_selector (PyDict d) select_tag parent).2
     = appended parent
         (XML.Elem select_tag
            [("class",
              (if String.eqb select "multijob-build"
               then "com.tikal.jenkins.plugins.multijob."
               else "hudson.plugins.copyartifact.") +:+ name)]
            PyNone kids)).
Proof.
  intros Hselect Hpermalink. unfold copyartifact_build_selector.
  split; [|split].
  - intros Hs. unfold XML.bind at 1. unfold XML.lift at 1. rewrite Hselect.
    unfold XML.bind at 1. unfold XML.lift at 1. cbn [Py.contains]. rewrite Hs.
    by rewrite bool_decide_eq_false_2 by (by intros [? ?]).
  - intros Hs Hp. unfold XML.bind at 1. unfold XML.lift at 1. rewrite Hselect.
    unfold XML.bind at 1. unfold XML.lift at 1. cbn [Py.contains].
    rewrite bool_decide_eq_true_2 by done. cbn [negb].
    unfold XML.bind at 1. unfold XML.lift at 1. rewrite Hpermalink.
    unfold XML.bind at 1. unfold XML.lift at 1. cbn [Py.contains]. rewrite Hp.
    by rewrite bool_decide_eq_false_2 by (by intros [? ?]).
  - intros Hs Hp. unfold XML.bind at 1. unfold XML.lift at 1. rewrite Hselect.
    unfold XML.bind at 1. unfold XML.lift at 1. cbn [Py.contains].
    rewrite bool_decide_eq_true_2 by done. cbn [negb].
    unfold XML.bind at 1. unfold XML.lift at 1. rewrite Hpermalink.
    unfold XML.bind at 1. unfold XML.lift at 1. cbn [Py.contains].
    rewrite bool_decide_eq_true_2 by done. cbn [negb].
    unfold XML.bind at 1. unfold XML.lift at 1. cbn [Py.equal Py.eq].
    unfold XML.bind at 1. unfold XML.lift at 1. cbn [Py.getitem].
    destruct Hs as [v Hv]. destruct (selectdict_names _ _ Hv) as [name ->].
    rewrite Hv. cbn [Py.bind concat_str].
    exists name.
    match goal with
    | |- context [XML.SubElement ?t ?a ?body parent] =>
        assert (Hbody : appends body);
        [|destruct (XML.SubElement t a body parent) as [r parent'] eqn:Hrun;
          destruct (SubElement_child _ _ _ _ _ _ Hbody Hrun) as [kids ->];
          by exists kids]
    end.
    repeat first [ apply appends_when_equal | apply appends_text_element
                 | apply appends_bind; [|intros ?] ].
Qed.

End Selectors.

Lemma copyartifact_selector_checks_witness :
  helpers.copyartifact_build_selector
    (PyDict [("which-build", PyStr "last-completed"); ("permalink", PyStr "newest")])
    "selector" (XML.Elem "builder" [] PyNone [])
  = (Raises (InvalidAttributeError "permalink" (PyStr "newest")
               (Some (Py.keys helpers.permalinkdict))),
     XML.Elem "builder" [] PyNone []).
Proof.
  refine (proj1 (proj2 (copyartifact_selector_checks
            [("which-build", PyStr "last-completed"); ("permalink", PyStr "newest")]
            "last-completed" "newest" "selector" (XML.Elem "builder" [] PyNone [])
            eq_refl eq_refl)) _ eq_refl).
  by eexists.
Defined.

Section Stacks.

Import helpers.

Ltac run_stack :=
  unfold cloudformation_stack, text_element, missing_on_KeyError, as_text,
    XML.bind, XML.lift, XML.ret, XML.throw, XML.SubElement, XML.set_text,
    Py.contains, Py.getitem, Py.equal, appended;
  repeat (match goal with
          | H : Py.assoc _ _ = _ |- _ => rewrite H
          | H : Py.eq _ _ = _ |- _ => rewrite H
          end;
          cbn [negb Py.bind XML.children XML.with_children app fst snd]).

(** X24. [cloudformation_stack] asks for [name], which must not be the
    empty string, before it creates anything, then creates the element of
    the stack and asks for [access-key], [secret-key] and [region] in this
    order: the first that the stack lacks raises [MissingAttributeError]
    with that key, and a region that is not a key of the region dictionary
    raises [InvalidAttributeError]. In these cases the element of the
    stack has been appended already, with the children made so far. *)
Theorem cloudformation_stack_required (d : list (string * obj)) (xml_tag : string)
    (region_dict : list (string * obj)) (stacks : XML.element) :
  (Py.assoc d "name" = None ∨ Py.assoc d "name" = Some (PyStr "") →
   cloudformation_stack (PyDict d) xml_tag region_dict stacks
   = (Raises (MissingAttributeError "name"), stacks)) ∧
  ∀ name, Py.assoc d "name" = Some name → Py.eq name (PyStr "") = Some false →
    (Py.assoc d "access-key" = None →
     cloudformation_stack (PyDict d) xml_tag region_dict stacks
     = (Raises (MissingAttributeError "access-key"),
        appended stacks
          (XML.Elem ("com.syncapse.jenkinsci.plugins.awscloudformationwrapper." +:+ xml_tag)
             [] PyNone [XML.Elem "stackName" [] name []]))) ∧
    ∀ access, Py.assoc d "access-key" = Some access →
      (Py.assoc d "secret-key" = None →
       cloudformation_stack (PyDict d) xml_tag region_dict stacks
       = (Raises (MissingAttributeError "secret-key"),
          appended stacks
            (XML.Elem
               ("com.syncapse.jenkinsci.plugins.awscloudformationwrapper." +:+ xml_tag)
               [] PyNone
               [XML.Elem "stackName" [] name []; XML.Elem "awsAccessKey" [] access []]))) ∧
      ∀ secret, Py.assoc d "secret-key" = Some secret →
        (Py.assoc d "region" = None →
         cloudformation_stack (PyDict d) xml_tag region_dict stacks
         = (Raises (MissingAttributeError "region"),
            appended stacks
              (XML.Elem
                 ("com.syncapse.jenkinsci.plugins.awscloudformationwrapper." +:+ xml_tag)
                 [] PyNone
                 [XML.Elem "stackName" [] name []; XML.Elem "awsAccessKey" [] access [];
                  XML.Elem "awsSecretKey" [] secret []]))) ∧
        ∀ region, Py.assoc d "region" = Some (PyStr region) →
          Py.assoc region_dict region = None →
          cloudformation_stack (PyDict d) xml_tag region_dict stacks
          = (Raises (InvalidAttributeError "region" (PyStr region)
                       (Some (Py.keys region_dict))),
             appended stacks
               (XML.Elem
                  ("com.syncapse.jenkinsci.plugins.awscloudformationwrapper." +:+ xml_tag)
                  [] PyNone
                  [XML.Elem "stackName" [] name []; XML.Elem "awsAccessKey" [] access [];
                   XML.Elem "awsSecretKey" [] secret []])).
Proof.
  split.
  - by intros [Hname|Hname]; run_stack.
  - intros name Hname Hne. split.
    { by intros Haccess; run_stack. }
    intros access Haccess. split.
    { by intros Hsecret; run_stack. }
    intros secret Hsecret. split.
    { by intros Hregion; run_stack. }
    by intros region Hregion Hunknown; run_stack.
Qed.

End Stacks.

Lemma cloudformation_stack_required_witness :
  helpers.cloudformation_stack
    (PyDict [("name", PyStr "web"); ("access-key", PyStr "AK")]) "SimpleStackBean"
    helpers.cloudformation_region_dict (XML.Elem "stacks" [] PyNone [])
  = (Raises (MissingAttributeError "secret-key"),
     XML.Elem "stacks" [] PyNone
       [XML.Elem "com.syncapse.jenkinsci.plugins.awscloudformationwrapper.SimpleStackBean"
          [] PyNone
          [XML.Elem "stackName" [] (PyStr "web") [];
           XML.Elem "awsAccessKey" [] (PyStr "AK") []]]).
Proof.
  exact (proj1 (proj2 (proj2 (cloudformation_stack_required
           [("name", PyStr "web"); ("access-key", PyStr "AK")] "SimpleStackBean"
           helpers.cloudformation_region_dict (XML.Elem "stacks" [] PyNone []))
           (PyStr "web") eq_refl eq_refl) (PyStr "AK") eq_refl) eq_refl).
Defined.

Section Items.

(** Reading an item of a dictionary after [d[key] = value] and after
    [del d[key]]. *)
Lemma assoc_setitem_eq d key value : Py.assoc (Py.setitem d key value) key = Some value.
Proof.
  induction d as [|[k v] d IH]; cbn.
  - by rewrite String.eqb_refl.
  - destruct (String.eqb k key) eqn:Hk; cbn; by rewrite Hk.
Qed.

Lemma assoc_setitem_ne d key value other :
  key ≠ other → Py.assoc (Py.setitem d key value) other = Py.assoc d other.
Proof.
  intros Hne. induction d as [|[k v] d IH]; cbn.
  - by apply String.eqb_neq in Hne as ->.
  - destruct (String.eqb k key) eqn:Hk; cbn.
    + apply String.eqb_eq in Hk as ->. by apply String.eqb_neq in Hne as ->.
    + by rewrite IH.
Qed.

Lemma assoc_delitem_eq d key : Py.assoc (Py.delitem d key) key = None.
Proof.
  induction d as [|[k v] d IH]; cbn; [done|].
  destruct (String.eqb k key) eqn:Hk; cbn; [done|]. by rewrite Hk.
Qed.

Lemma assoc_delitem_ne d key other :
  key ≠ other → Py.assoc (Py.delitem d key) other = Py.assoc d other.
Proof.
  intros Hne. induction d as [|[k v] d IH]; cbn; [done|].
  destruct (String.eqb k key) eqn:Hk; cbn.
  - apply String.eqb_eq in Hk as ->. by apply String.eqb_neq in Hne as ->.
  - by rewrite IH.
Qed.

End Items.

Section Defaults.

Import helpers parameters.

Ltac run_param :=
  unfold base_param, text_element, as_text,
    XML.bind, XML.lift, XML.ret, XML.throw, XML.SubElement, XML.set_text,
    Py.get, Py.getitem, Py.str_lower, appended;
  repeat (match goal with
          | H : Py.assoc _ _ = _ |- _ => rewrite H
          | H : Py.truth _ = _ |- _ => rewrite H
          | H : Py.str _ = _ |- _ => rewrite H
          end;
          cbn [negb Py.bind XML.children XML.with_children app fst snd from_option id]).

(** X25. A default that Python takes as false — [0], [False], the empty
    string, an empty list — is not written by [base_param]: the
    [defaultValue] element is created without text, as when the parameter
    has no default. [bool_param] replaces the default by its text in lower
    case first, so that the same default is written there, as [false] or
    [0], unless that text is empty. *)
Theorem falsy_default (d : list (string * obj)) (name v : obj) (parent : XML.element) :
  Py.assoc d "name" = Some name →
  Py.assoc d "default" = Some v →
  Py.truth v = false →
  (∀ ptype,
     base_param (PyDict d) true ptype parent
     = (Returns tt,
        appended parent
          (XML.Elem ptype [] PyNone
             [XML.Elem "name" [] name [];
              XML.Elem "description" [] (from_option id (PyStr "") (Py.assoc d "description")) [];
              XML.Elem "defaultValue" [] PyNone []]))) ∧
  (∀ text, Py.str v = Returns text → text ≠ "" →
     bool_param (PyDict d) parent
     = (Returns tt,
        appended parent
          (XML.Elem "hudson.model.BooleanParameterDefinition" [] PyNone
             [XML.Elem "name" [] name [];
              XML.Elem "description" [] (from_option id (PyStr "") (Py.assoc d "description")) [];
              XML.Elem "defaultValue" [] (PyStr (Py.lower text)) []]))).
Proof.
  intros Hname Hdefault Hfalse. split.
  - intros ptype. by run_param.
  - intros text Htext Hne. unfold bool_param.
    assert (Hlower : Py.truth (PyStr (Py.lower text)) = true).
    { cbn. destruct text as [|c text]; [done|]. done. }
    pose proof (assoc_setitem_eq d "default" (PyStr (Py.lower text))) as Hset.
    pose proof (assoc_setitem_ne d "default" (PyStr (Py.lower text)) "name") as Hn.
    pose proof (assoc_setitem_ne d "default" (PyStr (Py.lower text)) "description") as Hd.
    rewrite Hname in Hn. specialize (Hn ltac:(done)). specialize (Hd ltac:(done)).
    unfold XML.bind at 1, XML.lift at 1, Py.get at 1, Py.str_lower.
    rewrite Hdefault. cbn [from_option id Py.bind]. rewrite Htext. cbn [Py.bind].
    by run_param.
Qed.

End Defaults.

Lemma falsy_default_witness :
  parameters.string_param (PyDict [("name", PyStr "COUNT"); ("default", PyInt 0)])
    (XML.Elem "parameterDefinitions" [] PyNone [])
  = (Returns tt,
     XML.Elem "parameterDefinitions" [] PyNone
       [XML.Elem "hudson.model.StringParameterDefinition" [] PyNone
          [XML.Elem "name" [] (PyStr "COUNT") [];
           XML.Elem "description" [] (PyStr "") [];
           XML.Elem "defaultValue" [] PyNone []]]) ∧
  parameters.bool_param (PyDict [("name", PyStr "COUNT"); ("default", PyInt 0)])
    (XML.Elem "parameterDefinitions" [] PyNone [])
  = (Returns tt,
     XML.Elem "parameterDefinitions" [] PyNone
       [XML.Elem "hudson.model.BooleanParameterDefinition" [] PyNone
          [XML.Elem "name" [] (PyStr "COUNT") [];
           XML.Elem "description" [] (PyStr "") [];
           XML.Elem "defaultValue" [] (PyStr "0") []]]).
Proof.
  pose proof (falsy_default [("name", PyStr "COUNT"); ("default", PyInt 0)]
                (PyStr "COUNT") (PyInt 0) (XML.Elem "parameterDefinitions" [] PyNone [])
                eq_refl eq_refl eq_refl) as [Hbase Hbool].
  split.
  - exact (Hbase "hudson.model.StringParameterDefinition").
  - exact (Hbool "0" eq_refl ltac:(done)).
Defined.

Section Modules.



(** The first child with a tag is a child, and has the tag. *)
Lemma find_from_lookup t l n i :
  XML.find_from t l n = Some i →
  ∃ c, n ≤ i ∧ l !! (i - n) = Some c ∧ XML.tag c = t.
Proof.
  revert n. induction l as [|e l IH]; intros n; [done|]. cbn [XML.find_from].
  destruct (String.eqb (XML.tag e) t) eqn:Htag.
  - intros [= <-]. exists e. replace (n - n) with 0 by lia.
    split; [done|]. split; [done|]. by apply String.eqb_eq.
  - intros Hfind. destruct (IH _ Hfind) as (c & Hle & Hc & Hct).
    exists c. split; [lia|]. split; [|done].
    replace (i - n) with (S (i - S n)) by lia. done.
Qed.

(** What [find_or_create] does to the element: nothing but the work on the
    child that it has found or created. *)
Lemma find_or_create_child {A} t (body : XML.builder A) e r e' :
  XML.find_or_create t body e = (r, e') →
  ∃ c c', body c = (r, c') ∧
    match XML.find t e with
    | Some i => XML.children e !! i = Some c ∧ XML.tag c = t ∧
                e' = XML.with_children e (<[i := c']> (XML.children e))
    | None => c = XML.Elem t [] PyNone [] ∧ e' = appended e c'
    end.
Proof.
  unfold XML.find_or_create. destruct (XML.find t e) as [i|] eqn:Hfind.
  - unfold XML.find in Hfind. destruct (find_from_lookup _ _ _ _ Hfind) as (c & _ & Hc & Ht).
    rewrite Nat.sub_0_r in Hc. unfold XML.within. rewrite Hc.
    destruct (body c) as [r1 c'] eqn:Hbody. intros [= <- <-]. by exists c, c'.
  - unfold XML.SubElement. destruct (body _) as [r1 c'] eqn:Hbody.
    intros [= <- <-]. by eexists _, c'.
Qed.

Lemma find_or_create_tag {A} t (body : XML.builder A) e r e' :
  XML.find_or_create t body e = (r, e') → XML.tag e' = XML.tag e.
Proof.
  intros Hrun. destruct (find_or_create_child _ _ _ _ _ Hrun) as (c & c' & _ & Hcase).
  destruct (XML.find t e); [destruct Hcase as (_ & _ & ->)|destruct Hcase as (_ & ->)];
    by destruct e.
Qed.

(** X27. [Parameters.gen_xml] works on the [properties] element of the
    job only, whatever the parameters and the functions that are
    dispatched do: the first child with this tag is replaced by an element
    with the same tag and the other children stay as they are, or, when
    there is none, one [properties] element is appended. The tag, the
    attributes and the text of the job element do not change. A job
    without parameters gets the [properties] element all the same, empty
    when it is created. *)
Theorem parameters_gen_xml_properties (dispatch : string → obj → XML.builder unit)
    (data : obj) (parent parent' : XML.element) (r : outcome unit) :
  parameters.gen_xml dispatch data parent = (r, parent') →
  (∃ properties properties',
     XML.tag properties' = "properties" ∧
     match XML.find "properties" parent with
     | Some i => XML.children parent !! i = Some properties ∧
                 parent' = XML.with_children parent (<[i := properties']> (XML.children parent))
     | None => parent' = appended parent properties'
     end) ∧
  (∀ d, data = PyDict d →
     Py.truth (from_option id (PyList []) (Py.assoc d "parameters")) = false →
     r = Returns tt ∧
     parent' = match XML.find "properties" parent with
               | Some _ => parent
               | None => appended parent (XML.Elem "properties" [] PyNone [])
               end).
Proof.
  unfold parameters.gen_xml. intros Hrun.
  destruct (find_or_create_child _ _ _ _ _ Hrun) as (c & c' & Hbody & Hcase).
  assert (Htag : XML.tag c' = XML.tag c).
  { revert Hbody. unfold XML.bind at 1, XML.lift at 1.
    destruct (Py.get _ _ _) as [parameters| |]; try (by intros [= <- <-]).
    destruct (Py.truth parameters); [|by intros [= <- <-]].
    apply find_or_create_tag. }
  split.
  - exists c, c'. destruct (XML.find "properties" parent) as [i|].
    + destruct Hcase as (Hc & Ht & ->). by rewrite Htag, Ht.
    + destruct Hcase as (-> & ->). by rewrite Htag.
  - intros d -> Hnone. revert Hbody. unfold XML.bind at 1, XML.lift at 1, Py.get.
    rewrite Hnone. intros [= <- <-]. split; [done|].
    destruct (XML.find "properties" parent) as [i|].
    + destruct Hcase as (Hc & Ht & ->). by rewrite list_insert_id, with_children_same.
    + by destruct Hcase as (-> & ->).
Qed.

End Modules.


Lemma parameters_gen_xml_properties_witness :
  Returns tt = Returns tt ∧
  XML.Elem "project" [] PyNone [XML.Elem "properties" [] PyNone []]
  = appended (XML.Elem "project" [] PyNone []) (XML.Elem "properties" [] PyNone []).
Proof.
  exact (proj2 (parameters_gen_xml_properties (λ _, parameters.string_param)
                  (PyDict [("name", PyStr "job")]) (XML.Elem "project" [] PyNone [])
                  _ (Returns tt) eq_refl)
           [("name", PyStr "job")] eq_refl eq_refl).
Defined.

Section Triggers.

Import helpers triggers.

Ltac run_trigger :=
  unfold pollscm, rabbitmq, parameterized_timer, text_element, as_text,
    XML.bind, XML.lift, XML.ret, XML.throw, XML.SubElement, XML.set_text,
    Py.get, Py.getitem, Py.str_lower, Py.equal, appended;
  repeat (match goal with
          | H : Py.assoc _ _ = _ |- _ => rewrite H
          | H : Py.truth _ = _ |- _ => rewrite H
          | H : Py.str _ = _ |- _ => rewrite H
          | H : Py.eq _ _ = _ |- _ => rewrite H
          end;
          cbn [negb andb Py.bind Py.truth XML.children XML.with_children app fst snd
               from_option id]).

(** Among the objects that Python takes as false, only the empty string is
    equal to the empty string. *)
Lemma eq_empty_string cron :
  Py.truth cron = false → cron ≠ PyStr "" → Py.eq cron (PyStr "") = Some false.
Proof.
  destruct cron as [| | |s| |]; try done. cbn. intros Hs Hne.
  destruct s; [done|]. done.
Qed.

(** X28. [pollscm] takes data that is a plain string as the cron line, in
    the old way, with [ignorePostCommitHooks] false, also when the string
    is empty. A dictionary without [cron] raises [MissingAttributeError]
    with the [KeyError] itself as argument; a [cron] that Python takes as
    false and that is not the empty string raises [InvalidAttributeError],
    and so does data that is neither a dictionary nor a string and is
    false, as [None]. Nothing is appended when it raises. *)
Theorem pollscm_cron (parent : XML.element) :
  (∀ s,
     pollscm (PyStr s) parent
     = (Returns tt,
        appended parent
          (XML.Elem "hudson.triggers.SCMTrigger" [] PyNone
             [XML.Elem "spec" [] (PyStr s) [];
              XML.Elem "ignorePostCommitHooks" [] (PyStr "false") []]))) ∧
  (∀ d, Py.assoc d "cron" = None →
     pollscm (PyDict d) parent
     = (Raises (MissingAttributeErrorOf (KeyError "cron")), parent)) ∧
  (∀ d cron ipch,
     Py.assoc d "cron" = Some cron →
     Py.str (from_option id (PyBool false) (Py.assoc d "ignore-post-commit-hooks"))
     = Returns ipch →
     Py.truth cron = false → cron ≠ PyStr "" →
     pollscm (PyDict d) parent = (Raises (InvalidAttributeError "cron" cron None), parent)) ∧
  (∀ data,
     match data with PyDict _ | PyStr _ => False | _ => True end →
     Py.truth data = false →
     pollscm data parent = (Raises (InvalidAttributeError "cron" data None), parent)).
Proof.
  split; [|split; [|split]].
  - intros s. run_trigger. by destruct s.
  - intros d Hcron. by run_trigger.
  - intros d cron ipch Hcron Hipch Hfalse Hne.
    pose proof (eq_empty_string cron Hfalse Hne) as Heq. by run_trigger.
  - intros data Hdata Hfalse.
    assert (Hne : data ≠ PyStr "") by (by destruct data).
    pose proof (eq_empty_string data Hfalse Hne) as Heq.
    destruct data; try done;
      unfold pollscm, XML.bind, XML.lift, XML.throw, Py.equal;
      cbn [Py.getitem fst snd]; by rewrite Heq, Hfalse.
Qed.

(** X29. [rabbitmq] and [parameterized_timer] never raise
    [MissingAttributeError], although [token] and [cron] are required:
    they read them with [data.get], so that for a dictionary without the
    key the text of the element is [None], the text of Python's [None].
    The only exception that they raise is the [AttributeError] of data
    that is not a dictionary. *)
Theorem required_option_read_with_get (parent : XML.element) :
  (∀ d, Py.assoc d "token" = None →
     rabbitmq (PyDict d) parent
     = (Returns tt,
        appended parent
          (XML.Elem "org.jenkinsci.plugins.rabbitmqbuildtrigger.RemoteBuildTrigger" []
             PyNone
             [XML.Elem "spec" [] (PyStr "") [];
              XML.Elem "remoteBuildToken" [] (PyStr "None") []]))) ∧
  (∀ d, Py.assoc d "cron" = None →
     parameterized_timer (PyDict d) parent
     = (Returns tt,
        appended parent
          (XML.Elem
             "org.jenkinsci.plugins.parameterizedscheduler.ParameterizedTimerTrigger" []
             PyNone
             [XML.Elem "spec" [] (PyStr "") [];
              XML.Elem "parameterizedSpecification" [] (PyStr "None") []]))) ∧
  (∀ data r parent' x,
     rabbitmq data parent = (r, parent') ∨ parameterized_timer data parent = (r, parent') →
     r = Raises x →
     (∀ d, data ≠ PyDict d) ∧
     x = Python (AttributeError "object has no attribute 'get'")).
Proof.
  split; [|split].
  - intros d Htoken. by run_trigger.
  - intros d Hcron. by run_trigger.
  - intros data r parent' x Hrun ->.
    destruct data as [| | | | |d];
      try (destruct Hrun as [Hrun|Hrun]; vm_compute in Hrun;
           injection Hrun as <- _; by split).
    exfalso. destruct Hrun as [Hrun|Hrun]; revert Hrun; run_trigger.
    + destruct (Py.assoc d "token") as [[| [|] | | | |]|]; cbn; try done;
        by destruct (Py.str _).
    + destruct (Py.assoc d "cron") as [[| [|] | | | |]|]; cbn; try done;
        by destruct (Py.str _).
Qed.

End Triggers.

Lemma pollscm_cron_witness :
  triggers.pollscm (PyDict [("cron", PyNone)]) (XML.Elem "triggers" [] PyNone [])
  = (Raises (InvalidAttributeError "cron" PyNone None), XML.Elem "triggers" [] PyNone []).
Proof.
  exact (proj1 (proj2 (proj2 (pollscm_cron (XML.Elem "triggers" [] PyNone []))))
           [("cron", PyNone)] PyNone "False" eq_refl eq_refl eq_refl ltac:(done)).
Defined.

Lemma required_option_read_with_get_witness :
  triggers.rabbitmq (PyDict [("name", PyStr "queue")]) (XML.Elem "triggers" [] PyNone [])
  = (Returns tt,
     XML.Elem "triggers" [] PyNone
       [XML.Elem "org.jenkinsci.plugins.rabbitmqbuildtrigger.RemoteBuildTrigger" []
          PyNone
          [XML.Elem "spec" [] (PyStr "") [];
           XML.Elem "remoteBuildToken" [] (PyStr "None") []]]).
Proof.
  exact (proj1 (required_option_read_with_get (XML.Elem "triggers" [] PyNone []))
           [("name", PyStr "queue")] eq_refl).
Defined.

Section LegacyKeys.

Import triggers.

(** A key that is neither an old key nor the new name of one is left
    alone. *)
Lemma convert_dict_other old_keys : ∀ d key,
  key ∉ old_keys → key ∉ hyphenize <$> old_keys →
  Py.assoc (convert_dict d old_keys) key = Py.assoc d key.
Proof.
  induction old_keys as [|old_key rest IH]; intros d key Hold Hnew; [done|].
  rewrite fmap_cons in Hnew. apply not_elem_of_cons in Hold as [Hne Hold].
  apply not_elem_of_cons in Hnew as [Hne' Hnew]. cbn [convert_dict].
  destruct (Py.assoc d old_key) as [v|]; [|by apply IH].
  rewrite IH by done. rewrite assoc_delitem_ne by done. by rewrite assoc_setitem_ne.
Qed.

Lemma convert_dict_removes old_keys : ∀ d key,
  (∀ old_key, old_key ∈ old_keys → hyphenize old_key ≠ key) →
  Py.assoc d key = None ∨ key ∈ old_keys →
  Py.assoc (convert_dict d old_keys) key = None.
Proof.
  induction old_keys as [|old_key rest IH]; intros d key Hnew Hkey.
  - destruct Hkey as [Hkey|Hkey]; [done|by apply elem_of_nil in Hkey].
  - cbn [convert_dict].
    assert (Hrest : ∀ k, k ∈ rest → hyphenize k ≠ key)
      by (intros k Hk; apply Hnew; by right).
    assert (Hhead : hyphenize old_key ≠ key) by (apply Hnew; by left).
    destruct (decide (key = old_key)) as [->|Hne].
    + destruct (Py.assoc d old_key) as [v|] eqn:Hv; apply IH; try done; left; [|done].
      apply assoc_delitem_eq.
    + assert (Hkey' : Py.assoc d key = None ∨ key ∈ rest).
      { destruct Hkey as [Hkey|Hkey]; [by left|].
        apply elem_of_cons in Hkey as [Hkey|Hkey]; [done|by right]. }
      destruct (Py.assoc d old_key) as [v|] eqn:Hv; apply IH; try done.
      destruct Hkey' as [Hkey'|Hkey']; [left|by right].
      rewrite assoc_delitem_ne by done. by rewrite assoc_setitem_ne.
Qed.

(** X30. [convert_dict] renames the old keys of a dictionary. When no new
    name is itself an old key and the new names differ from one another,
    as for the keys in camel case that
    [gerrit_handle_legacy_configuration] passes, then afterwards the
    dictionary has none of the old keys, the value of each old key that it
    had is under the new name, which is the old one with a hyphen and the
    small letter for each capital letter, and the other keys are as they
    were. *)
Theorem convert_dict_renames (d : list (string * obj)) (old_keys : list string) :
  Forall (λ old_key, hyphenize old_key ∉ old_keys) old_keys →
  NoDup (hyphenize <$> old_keys) →
  (∀ old_key, old_key ∈ old_keys →
     Py.assoc (convert_dict d old_keys) old_key = None ∧
     ∀ v, Py.assoc d old_key = Some v →
          Py.assoc (convert_dict d old_keys) (hyphenize old_key) = Some v) ∧
  (∀ key, key ∉ old_keys → key ∉ hyphenize <$> old_keys →
     Py.assoc (convert_dict d old_keys) key = Py.assoc d key).
Proof.
  intros Hnew Hdup. split; [|intros key; apply convert_dict_other].
  intros key Hkey. split.
  { apply convert_dict_removes; [|by right].
    intros k Hk <-. rewrite Forall_forall in Hnew. by apply (Hnew k). }
  revert d Hnew Hdup Hkey. induction old_keys as [|old_key rest IH];
    intros d Hnew Hdup Hkey v Hv; [by apply elem_of_nil in Hkey|].
  rewrite fmap_cons in Hdup. apply NoDup_cons in Hdup as [Hfresh Hdup].
  pose proof Hnew as Hall. rewrite Forall_forall in Hall.
  apply Forall_cons in Hnew as [Hhead Hnew].
  assert (Hnew' : Forall (λ k, hyphenize k ∉ rest) rest).
  { eapply Forall_impl; [exact Hnew|]. intros k Hk Hin. apply Hk. by right. }
  cbn [convert_dict].
  destruct (decide (key = old_key)) as [->|Hne].
  - rewrite Hv. rewrite convert_dict_other; [| |done].
    + rewrite assoc_delitem_ne; [apply assoc_setitem_eq|].
      intros Heq. apply Hhead. rewrite <- Heq. by left.
    + intros Hin. apply Hhead. by right.
  - apply elem_of_cons in Hkey as [Hkey|Hkey]; [done|].
    destruct (Py.assoc d old_key) as [v0|] eqn:Hv0; apply IH; try done.
    rewrite assoc_delitem_ne by done. rewrite assoc_setitem_ne; [done|].
    intros Heq. apply (Hall old_key); [by left|]. rewrite Heq. by right.
Qed.

End LegacyKeys.

Lemma convert_dict_renames_witness :
  Py.assoc
    (triggers.convert_dict
       [("projects", PyList []); ("skipVote", PyBool true); ("failureMessage", PyStr "no")]
       ["triggerOnPatchsetUploadedEvent"; "triggerOnChangeAbandonedEvent";
        "triggerOnChangeMergedEvent"; "triggerOnChangeRestoredEvent";
        "triggerOnCommentAddedEvent"; "triggerOnDraftPublishedEvent";
        "triggerOnRefUpdatedEvent"; "triggerApprovalCategory"; "triggerApprovalValue";
        "overrideVotes"; "gerritBuildSuccessfulVerifiedValue";
        "gerritBuildFailedVerifiedValue"; "failureMessage"; "skipVote"])
    "skipVote" = None ∧
  ∀ v, Some (PyBool true) = Some v →
    Py.assoc
      (triggers.convert_dict
         [("projects", PyList []); ("skipVote", PyBool true); ("failureMessage", PyStr "no")]
         ["triggerOnPatchsetUploadedEvent"; "triggerOnChangeAbandonedEvent";
          "triggerOnChangeMergedEvent"; "triggerOnChangeRestoredEvent";
          "triggerOnCommentAddedEvent"; "triggerOnDraftPublishedEvent";
          "triggerOnRefUpdatedEvent"; "triggerApprovalCategory"; "triggerApprovalValue";
          "overrideVotes"; "gerritBuildSuccessfulVerifiedValue";
          "gerritBuildFailedVerifiedValue"; "failureMessage"; "skipVote"])
      "skip-vote" = Some v.
Proof.
  refine (proj1 (convert_dict_renames
                   [("projects", PyList []); ("skipVote", PyBool true);
                    ("failureMessage", PyStr "no")]
                   ["triggerOnPatchsetUploadedEvent"; "triggerOnChangeAbandonedEvent";
                    "triggerOnChangeMergedEvent"; "triggerOnChangeRestoredEvent";
                    "triggerOnCommentAddedEvent"; "triggerOnDraftPublishedEvent";
                    "triggerOnRefUpdatedEvent"; "triggerApprovalCategory";
                    "triggerApprovalValue"; "overrideVotes";
                    "gerritBuildSuccessfulVerifiedValue";
                    "gerritBuildFailedVerifiedValue"; "failureMessage"; "skipVote"]
                   _ _) "skipVote" _).
  - apply (bool_decide_unpack _). by vm_compute.
  - apply (bool_decide_unpack _). by vm_compute.
  - apply (bool_decide_unpack _). by vm_compute.
Defined.
